(** * logpipe: parsers, filter compiler, formatters and orchestration

    A shallow embedding of the Go program [tylermac92/logpipe] and the
    properties its specification states about it.

    Layout of the development:
    - [GoStrings]: the byte-level string primitives of Go's [strings] package
      that the program calls ([TrimSpace], [IndexByte], [Index], [HasPrefix],
      slicing).
    - [GoInt]: 64-bit [int] arithmetic with its wrap-around.
    - [GoIO]: readers, the line scanner and writers.
    - [Runtime]: the values a record holds, Go's [time.Time], and the part of
      the Go standard library whose code is outside the repository
      (float formatting and scanning, RFC 3339 parsing, JSON, regular
      expressions, Unicode case mapping), as type classes.
    - [parser], [filter], [formatter], [main]: the four packages of the
      repository, function by function.
    - [RefRuntime]: instances of the runtime classes, used to run the
      program on concrete inputs.
    - the vocabulary of the properties, then the properties, grouped by
      package, with the claims of the specification marked C1 to C10,
      further properties of the code marked X1 to X27, and runs of the
      repository's tests on the model. *)

From Stdlib Require Import ZArith NArith String Ascii List Lia Bool.
From Stdlib Require Import Sorting.Permutation Sorting.Sorted.
From Stdlib Require Import Floats.SpecFloat.
From Stdlib Require Import DecimalString.
From stdpp Require Import gmap strings list.

(** ** Go strings: bytes, slices and the [strings] package *)

Module GoStrings.

(** A Go string is a sequence of bytes; [string] is a list of 8-bit [ascii]. *)
Definition byte (n : N) : ascii := ascii_of_N n.

Definition code (c : ascii) : N := N_of_ascii c.

Definition dquote : ascii := byte 34.
Definition backslash : ascii := byte 92.
Definition newline : ascii := byte 10.
Definition carriage : ascii := byte 13.
Definition space : ascii := byte 32.
Definition equals : ascii := byte 61.
Definition escape : ascii := byte 27.

Definition len (s : string) : nat := String.length s.

(** [s[n:]]. The program only slices at indices it has just computed inside
    the string; past the end (where Go panics) the model yields the empty
    string. *)
Fixpoint sliceFrom (n : nat) (s : string) : string :=
  match n, s with
  | O, _ => s
  | S n', String _ s' => sliceFrom n' s'
  | S _, EmptyString => EmptyString
  end.

(** [s[:n]]. *)
Fixpoint sliceTo (n : nat) (s : string) : string :=
  match n, s with
  | O, _ => EmptyString
  | S n', String c s' => String c (sliceTo n' s')
  | S _, EmptyString => EmptyString
  end.

(** [s[a:b]]. *)
Definition slice (a b : nat) (s : string) : string :=
  sliceTo (b - a) (sliceFrom a s).

(** [strings.HasPrefix(s, p)]. *)
Definition HasPrefix (s p : string) : bool := String.prefix p s.

(** [strings.IndexByte(s, c)]; [None] stands for [-1]. *)
Fixpoint IndexByte (s : string) (c : ascii) : option nat :=
  match s with
  | EmptyString => None
  | String d s' =>
      if Ascii.eqb d c then Some O
      else match IndexByte s' c with
           | Some i => Some (S i)
           | None => None
           end
  end.

(** [strings.Index(s, sub)]: the leftmost occurrence; [None] stands for [-1]. *)
Fixpoint Index (s sub : string) : option nat :=
  if String.prefix sub s then Some O
  else match s with
       | EmptyString => None
       | String _ s' =>
           match Index s' sub with
           | Some i => Some (S i)
           | None => None
           end
       end.

(** Bytes [c] with [asciiSpace[c] == 1]: tab, line feed, vertical tab, form
    feed, carriage return and space. *)
Definition asciiSpace (c : ascii) : bool :=
  let n := code c in
  ((9 <=? n) && (n <=? 13) || (n =? 32))%N.

(** Width in bytes of the white-space rune [s] starts with, [0] when it
    starts with none. [unicode.IsSpace] holds of the six ASCII bytes above
    and of U+0085, U+00A0, U+1680, U+2000..U+200A, U+2028, U+2029, U+202F,
    U+205F and U+3000, which UTF-8 writes in two or three bytes. *)
Definition spaceWidth (s : string) : nat :=
  match s with
  | EmptyString => 0
  | String c0 s1 =>
      if asciiSpace c0 then 1
      else
        match s1 with
        | EmptyString => 0
        | String c1 s2 =>
            let b0 := code c0 in
            let b1 := code c1 in
            if ((b0 =? 194) && ((b1 =? 133) || (b1 =? 160)))%N then 2
            else
              match s2 with
              | EmptyString => 0
              | String c2 _ =>
                  let b2 := code c2 in
                  if ((b0 =? 225) && (b1 =? 154) && (b2 =? 128)
                      || (b0 =? 226) && (b1 =? 128)
                         && ((128 <=? b2) && (b2 <=? 138)
                             || (b2 =? 168) || (b2 =? 169) || (b2 =? 175))
                      || (b0 =? 226) && (b1 =? 129) && (b2 =? 159)
                      || (b0 =? 227) && (b1 =? 128) && (b2 =? 128))%N
                  then 3
                  else 0
              end
        end
  end.

(** The same test on the reversed string: the width of the white-space rune
    the string ends with ([utf8.DecodeLastRuneInString] steps back to the
    closest byte that starts a rune and decodes from there). *)
Definition spaceWidthBack (r : string) : nat :=
  match r with
  | EmptyString => 0
  | String c0 r1 =>
      if asciiSpace c0 then 1
      else
        match r1 with
        | EmptyString => 0
        | String c1 r2 =>
            if Nat.eqb (spaceWidth (String c1 (String c0 EmptyString))) 2 then 2
            else
              match r2 with
              | EmptyString => 0
              | String c2 _ =>
                  if Nat.eqb
                       (spaceWidth (String c2 (String c1 (String c0 EmptyString))))
                       3
                  then 3
                  else 0
              end
        end
  end.

Fixpoint trimWith (width : string -> nat) (fuel : nat) (s : string) : string :=
  match fuel with
  | O => s
  | S fuel' =>
      match width s with
      | O => s
      | S w => trimWith width fuel' (sliceFrom (S w) s)
      end
  end.

Definition TrimLeftSpace (s : string) : string :=
  trimWith spaceWidth (len s) s.

Definition TrimRightSpace (s : string) : string :=
  String.rev (trimWith spaceWidthBack (len s) (String.rev s)).

(** [strings.TrimSpace(s)]: [s] without its leading and trailing white
    space. *)
Definition TrimSpace (s : string) : string :=
  TrimRightSpace (TrimLeftSpace s).

(** [strings.Join(elems, sep)]. *)
Fixpoint Join (elems : list string) (sep : string) : string :=
  match elems with
  | [] => EmptyString
  | [e] => e
  | e :: rest => e +:+ sep +:+ Join rest sep
  end.

(** [strings.Repeat(" ", n)], used for the padding of [%-5s]. *)
Fixpoint spaces (n : nat) : string :=
  match n with
  | O => EmptyString
  | S n' => String space (spaces n')
  end.

(** Go's [<] on strings: byte-wise lexicographic order. *)
Definition lt (a b : string) : bool := String.ltb a b.

Definition le (a b : string) : bool := String.leb a b.

End GoStrings.

(** ** Go's [int]: 64 bits, two's complement *)

Module GoInt.

(** The value an [int] holds after an operation whose mathematical result
    is [z]. *)
Definition wrap (z : Z) : Z := ((z + 2 ^ 63) mod 2 ^ 64 - 2 ^ 63)%Z.

Definition maxInt : Z := (2 ^ 63 - 1)%Z.

Definition minInt : Z := (- 2 ^ 63)%Z.

(** [n++]. *)
Definition incr (n : Z) : Z := wrap (n + 1).

(** The verb [%d]. *)
Definition itoa (z : Z) : string := NilZero.string_of_int (Z.to_int z).

(** Two decimal digits, as the layout elements [15], [04] and [05] of
    [Time.Format] print them. *)
Definition twoDigits (z : Z) : string :=
  if (z <? 10)%Z then String "0" (itoa z) else itoa z.

End GoInt.

(** ** Generic helpers: results, a stable insertion sort *)

(** Go's [error] values are kept as their message. *)
Definition error : Type := string.

Inductive Result (A : Type) : Type :=
| Ok (a : A)
| Err (e : error).

Arguments Ok {A} a.
Arguments Err {A} e.

Section Sorting.

Context {A : Type} (less : A -> A -> bool).

(** [x] is placed before the first element that is not strictly less than
    it: elements that compare equal keep their order. *)
Fixpoint insertSorted (x : A) (l : list A) : list A :=
  match l with
  | [] => [x]
  | y :: l' => if less y x then y :: insertSorted x l' else x :: y :: l'
  end.

(** A stable sort under [less]. [sort.SliceStable] is any stable sort, and
    [sort.Slice] and [sort.Strings] any sort; when [less] is a strict weak
    order the stable result is unique, and when it is a strict total order
    on the elements every sort returns it. *)
Fixpoint sortStable (l : list A) : list A :=
  match l with
  | [] => []
  | x :: l' => insertSorted x (sortStable l')
  end.

End Sorting.

(** ** Records, time values and the Go runtime *)

Module Runtime.

(** The dynamic values of a record ([any]): what [encoding/json] decodes
    into [map[string]any], and the strings and booleans of the logfmt
    parser. A [float64] is a binary64 value. *)
#[warnings="-register-all"]
Inductive Value : Type :=
| VString (s : string)
| VNumber (f : spec_float)
| VBool (b : bool)
| VNil
| VObject (m : gmap string Value)
| VArray (l : list Value).

(** [parser.LogEntry], a [map[string]any]. A Go map is a reference that may
    be [nil]: [None] is the nil map, which reads as the empty map and
    panics when it is assigned to. *)
Abbreviation LogEntry := (option (gmap string Value)).

Definition fields (entry : LogEntry) : gmap string Value :=
  match entry with
  | Some m => m
  | None => ∅
  end.

(** [time.Time], as the fields [Before] and [Format] read: seconds and
    nanoseconds since January 1 of year 1, 00:00:00 UTC, and the offset of
    the time's location east of UTC in seconds. *)
Record Time : Type := mkTime { sec : Z; nsec : Z; zoneOffset : Z }.

(** [time.Time{}], the zero time. *)
Definition zeroTime : Time := mkTime 0 0 0.

(** [t.Before(u)]. *)
Definition Before (t u : Time) : bool :=
  ((sec t <? sec u) || ((sec t =? sec u) && (nsec t <? nsec u)))%Z.

(** Seconds from year 1 to 1970. *)
Definition unixToInternal : Z := 62135596800%Z.

(** [time.Unix(s, 0).UTC()]. *)
Definition Unix (s : Z) : Time := mkTime (GoInt.wrap (s + unixToInternal)) 0 0.

(** [t.Format("15:04:05")]: the wall clock of [t] in its location. *)
Definition FormatClock (t : Time) : string :=
  let day := ((sec t + zoneOffset t) mod 86400)%Z in
  GoInt.twoDigits (day / 3600) +:+ ":" +:+
  GoInt.twoDigits (day mod 3600 / 60) +:+ ":" +:+
  GoInt.twoDigits (day mod 60).

(** The functions of the Go standard library that the program calls and
    whose code is not part of the repository, one class per package. The
    theorems hold for all instances. *)

(** Floating point: printing, scanning and conversion. *)
Class GoFloat : Type := {
  (** [%v] of a [float64] (format [g], shortest digits that round-trip). *)
  fmt_float64 : spec_float -> string;
  (** [fmt.Sscanf(s, "%f", &f)]: [Some f] when [err == nil]. *)
  fmt_Sscanf_f : string -> option spec_float;
  (** [int64(f)] when [f] is not in the range of [int64] (the language
      leaves the result to the implementation). *)
  int64_unrepresentable : spec_float -> Z
}.

(** [time.Parse(time.RFC3339, s)]. *)
Class GoTimeParse : Type := {
  time_Parse_RFC3339 : string -> Result Time
}.

(** [json.Unmarshal([]byte(line), &entry)] for [entry] a nil [LogEntry]:
    the error, or the value [entry] holds afterwards. *)
Class GoJSONDecoder : Type := {
  json_Unmarshal : string -> Result LogEntry
}.

(** [json.Marshal(entry)] and [json.MarshalIndent(entry, prefix, indent)]. *)
Class GoJSONEncoder : Type := {
  json_Marshal : LogEntry -> Result string;
  json_MarshalIndent : LogEntry -> string -> string -> Result string
}.

(** [*regexp.Regexp], [regexp.Compile] and [re.MatchString]. *)
Class GoRegexp : Type := {
  Regexp : Type;
  regexp_Compile : string -> Result Regexp;
  regexp_MatchString : Regexp -> string -> bool
}.

(** [strings.ToUpper], [strings.ToLower] (Unicode case mapping) and
    [utf8.RuneCountInString] (the width [%-5s] pads to). *)
Class GoUnicode : Type := {
  strings_ToUpper : string -> string;
  strings_ToLower : string -> string;
  utf8_RuneCountInString : string -> nat
}.

Section Fmt.

Context `{GoFloat}.

(** [f > 1e9] on [float64]. *)
Definition float64_1e9 : spec_float := S754_finite false 8388608000000000 (-23).

Definition float64_gt_1e9 (f : spec_float) : bool := SFltb float64_1e9 f.

(** [int64(f)]: truncation toward zero when the result fits. *)
Definition int64_of_float64 (f : spec_float) : Z :=
  match f with
  | S754_zero _ => 0%Z
  | S754_finite s m e =>
      let mag :=
        match e with
        | Zneg p => (Zpos m / 2 ^ Zpos p)%Z
        | _ => (Zpos m * 2 ^ e)%Z
        end in
      let z := if s then (- mag)%Z else mag in
      if ((GoInt.minInt <=? z) && (z <=? GoInt.maxInt))%Z then z
      else int64_unrepresentable f
  | _ => int64_unrepresentable f
  end.

(** [fmt.Sprintf("%v", v)]: strings as they are, [true] and [false],
    [<nil>], maps as [map[k:v ...]] with the keys in increasing order and
    slices as [[v ...]]. *)
Fixpoint Sprintf_v (v : Value) : string :=
  match v with
  | VString s => s
  | VNumber f => fmt_float64 f
  | VBool true => "true"
  | VBool false => "false"
  | VNil => "<nil>"
  | VObject m =>
      let kvs := sortStable (fun a b => GoStrings.lt a.1 b.1)
                   (map_to_list (Sprintf_v <$> m)) in
      "map[" +:+ GoStrings.Join (map (fun kv => kv.1 +:+ ":" +:+ kv.2) kvs) " "
      +:+ "]"
  | VArray l => "[" +:+ GoStrings.Join (map Sprintf_v l) " " +:+ "]"
  end.

(** [%v] of [entry[k]], which is the nil interface when [k] is absent. *)
Definition Sprintf_v_lookup (found : option Value) : string :=
  match found with
  | Some v => Sprintf_v v
  | None => "<nil>"
  end.

End Fmt.

(** *** Reading and writing a record

    The functions that receive a record are written against a few
    primitives, so that what they do to the record can be read off their
    code: a lookup, an assignment, an iteration over the keys and a read
    of the whole record. A computation may panic. *)

Inductive Outcome (A : Type) : Type :=
| Done (a : A)
| Panic (msg : string).

Arguments Done {A} a.
Arguments Panic {A} msg.

Definition EntryM (A : Type) : Type := LogEntry -> Outcome A * LogEntry.

Definition ret {A : Type} (a : A) : EntryM A := fun entry => (Done a, entry).

Definition bind {A B : Type} (c : EntryM A) (k : A -> EntryM B) : EntryM B :=
  fun entry =>
    match c entry with
    | (Done a, entry') => k a entry'
    | (Panic msg, entry') => (Panic msg, entry')
    end.

(** A run-time panic. *)
Definition panic {A : Type} (msg : string) : EntryM A :=
  fun entry => (Panic msg, entry).

(** [v, ok := entry[key]]. *)
Definition lookupField (key : string) : EntryM (option Value) :=
  fun entry => (Done (fields entry !! key), entry).

(** [entry[key] = v]. *)
Definition storeField (key : string) (v : Value) : EntryM unit :=
  fun entry =>
    match entry with
    | Some m => (Done tt, Some (<[key := v]> m))
    | None => (Panic "assignment to entry in nil map", entry)
    end.

(** [for k := range entry], as the list of keys. Go leaves the order
    unspecified; every caller sorts the keys it collects. *)
Definition rangeKeys : EntryM (list string) :=
  fun entry => (Done (map fst (map_to_list (fields entry))), entry).

(** The record as a whole, for the library functions that read it
    ([json.Marshal]). *)
Definition readEntry : EntryM LogEntry :=
  fun entry => (Done entry, entry).

End Runtime.

Notation "x <- c ;; k" := (Runtime.bind c (fun x => k))
  (at level 100, c at next level, right associativity).

(** ** Readers, scanners and writers *)

Module GoIO.

(** An [io.Reader], by what reading it to the end yields: the bytes still
    to be read, then [io.EOF] ([None]) or a read error. *)
Record Reader : Type := mkReader { pending : string; failure : option error }.

(** [strings.NewReader(s)]. *)
Definition NewReader (s : string) : Reader := mkReader s None.

(** [io.MultiReader(strings.NewReader(s), r)]: the bytes of [s], then what
    [r] yields. *)
Definition MultiReader (s : string) (r : Reader) : Reader :=
  mkReader (s +:+ pending r) (failure r).

(** [io.ReadAll(r)]. *)
Definition ReadAll (r : Reader) : string * option error :=
  (pending r, failure r).

(** The error of a read that found no delimiter. *)
Inductive ReadErr : Type :=
| NoErr
| EOF
| ReadFailed (e : error).

(** [br.ReadString('\n')] on a [bufio.Reader] over [r]: the line with its
    delimiter and no error, or the bytes before the end of the data with
    the error that ended it. Returns the reader positioned after the
    line. *)
Definition ReadString (r : Reader) : string * ReadErr * Reader :=
  match GoStrings.IndexByte (pending r) GoStrings.newline with
  | Some i =>
      (GoStrings.sliceTo (S i) (pending r), NoErr,
       mkReader (GoStrings.sliceFrom (S i) (pending r)) (failure r))
  | None =>
      (pending r,
       match failure r with Some e => ReadFailed e | None => EOF end,
       mkReader EmptyString (failure r))
  end.

(** [dropCR] of [bufio.ScanLines]. *)
Definition dropCR (data : string) : string :=
  match String.rev data with
  | String c r => if Ascii.eqb c GoStrings.carriage then String.rev r else data
  | EmptyString => data
  end.

Definition ErrTooLong : error := "bufio.Scanner: token too long".

(** The tokens a [bufio.Scanner] with [bufio.ScanLines] and a buffer
    limited to [maxTokenSize] bytes delivers, and the error that ended the
    scan ([scanner.Err()]). A line and its line feed must fit in the
    buffer; the bytes after the last line feed are a last token when they
    leave room in the buffer. *)
Fixpoint scanLines (maxTokenSize : N) (fuel : nat) (data : string)
  : list string * option error :=
  match fuel with
  | O => ([], None)
  | S fuel' =>
      match GoStrings.IndexByte data GoStrings.newline with
      | Some i =>
          if (N.of_nat i <? maxTokenSize)%N then
            let (tokens, err) :=
              scanLines maxTokenSize fuel' (GoStrings.sliceFrom (S i) data) in
            (dropCR (GoStrings.sliceTo i data) :: tokens, err)
          else ([], Some ErrTooLong)
      | None =>
          if (N.of_nat (GoStrings.len data) <? maxTokenSize)%N then
            match data with
            | EmptyString => ([], None)
            | _ => ([dropCR data], None)
            end
          else ([], Some ErrTooLong)
      end
  end.

Definition Scanner_tokens (maxTokenSize : N) (r : Reader)
  : list string * option error :=
  let (tokens, err) := scanLines maxTokenSize (S (GoStrings.len (pending r))) (pending r) in
  (tokens, match err with Some e => Some e | None => failure r end).

(** [bufio.MaxScanTokenSize]. *)
Definition MaxScanTokenSize : N := (64 * 1024)%N.

(** An [io.Writer]: the bytes it has accepted, and whether it refuses the
    next write. *)
Record Writer : Type := mkWriter { written : string; refuses : option error }.

(** [w.Write(data)]. *)
Definition Write (w : Writer) (data : string) : Writer * option error :=
  match refuses w with
  | Some e => (w, Some e)
  | None => (mkWriter (written w +:+ data) None, None)
  end.

End GoIO.

(** ** Package parser *)

Module parser.

Import Runtime.

(** [fmt.Errorf("line %d: %w", lineNum, err)]. *)
Definition lineError (lineNum : Z) (err : error) : error :=
  "line " +:+ GoInt.itoa lineNum +:+ ": " +:+ err.

(** What a parser has sent on its two channels when both are closed: the
    entries in order, and the errors in order. *)
Definition Parsed : Type := (list LogEntry * list error)%type.

Definition emitEntry (entry : LogEntry) (rest : Parsed) : Parsed :=
  (entry :: rest.1, rest.2).

Definition emitError (err : error) (rest : Parsed) : Parsed :=
  (rest.1, err :: rest.2).

Section JSON.

Context `{GoJSONDecoder}.

(** The loop [for scanner.Scan()] of [JSONParser.Parse] over the tokens the
    scanner delivers; [lineNum] is the counter before the token is read. *)
Fixpoint JSONParser_lines (lineNum : Z) (tokens : list string) : Parsed :=
  match tokens with
  | [] => ([], [])
  | text :: tokens' =>
      let lineNum := GoInt.incr lineNum in
      let line := GoStrings.TrimSpace text in
      if String.eqb line "" then JSONParser_lines lineNum tokens'
      else
        match json_Unmarshal line with
        | Err err =>
            emitError (lineError lineNum err) (JSONParser_lines lineNum tokens')
        | Ok entry => emitEntry entry (JSONParser_lines lineNum tokens')
        end
  end.

(** [JSONParser.Parse]: the scanner's buffer holds 1 MiB. *)
Definition JSONParser_Parse (r : GoIO.Reader) : Parsed :=
  let (tokens, scanErr) := GoIO.Scanner_tokens (1024 * 1024)%N r in
  let (entries, errors) := JSONParser_lines 0 tokens in
  (entries,
   errors ++ match scanErr with
             | Some err => ["scanner error: " +:+ err]
             | None => []
             end).

End JSON.

(** *** parseLogfmt *)

(** The inner loop over a quoted value: [idx] is [endIdx], [prev] is
    [remaining[endIdx-1]] and [rest] is [remaining[endIdx:]]. The result is
    [endIdx] when the loop ends. *)
Fixpoint scanQuoted (prev : ascii) (rest : string) (idx : nat) : nat :=
  match rest with
  | EmptyString => idx
  | String c rest' =>
      if Ascii.eqb c GoStrings.dquote && negb (Ascii.eqb prev GoStrings.backslash)
      then idx
      else scanQuoted c rest' (S idx)
  end.

Definition closingQuote (remaining : string) : nat :=
  match remaining with
  | String q rest => scanQuoted q rest 1
  | EmptyString => 1
  end.

(** One pass through the body of [for remaining != ""]. *)
Inductive Step : Type :=
| Continue (entry : gmap string Value) (remaining : string)
| Break (entry : gmap string Value)
| Fail (err : error).

Definition parseLogfmt_step (entry : gmap string Value) (remaining : string)
  : Step :=
  let remaining := GoStrings.TrimSpace remaining in
  if String.eqb remaining "" then Break entry
  else
    match GoStrings.IndexByte remaining GoStrings.equals with
    | None => Break (<[remaining := VBool true]> entry)
    | Some eqIdx =>
        let key := GoStrings.sliceTo eqIdx remaining in
        let remaining := GoStrings.sliceFrom (S eqIdx) remaining in
        if GoStrings.HasPrefix remaining (String GoStrings.dquote EmptyString) then
          let endIdx := closingQuote remaining in
          if GoStrings.len remaining <=? endIdx then
            Fail "unterminated string value"
          else
            Continue (<[key := VString (GoStrings.slice 1 endIdx remaining)]> entry)
                     (GoStrings.sliceFrom (S endIdx) remaining)
        else
          match GoStrings.IndexByte remaining GoStrings.space with
          | None => Continue (<[key := VString remaining]> entry) EmptyString
          | Some spaceIdx =>
              Continue (<[key := VString (GoStrings.sliceTo spaceIdx remaining)]> entry)
                       (GoStrings.sliceFrom (S spaceIdx) remaining)
          end
    end.

(** The loop of [parseLogfmt]; [None] when [fuel] passes run out before
    the loop ends (it never does from [parseLogfmt], see
    [parseLogfmt_total]). *)
Fixpoint parseLogfmt_loop (fuel : nat) (entry : gmap string Value)
    (remaining : string) : option (Result LogEntry) :=
  if String.eqb remaining "" then Some (Ok (Some entry))
  else
    match fuel with
    | O => None
    | S fuel' =>
        match parseLogfmt_step entry remaining with
        | Continue entry' remaining' => parseLogfmt_loop fuel' entry' remaining'
        | Break entry' => Some (Ok (Some entry'))
        | Fail err => Some (Err err)
        end
    end.

Definition parseLogfmt (line : string) : option (Result LogEntry) :=
  parseLogfmt_loop (GoStrings.len line) ∅ line.

(** The loop of [LogfmtParser.Parse] over the scanner's tokens. *)
Fixpoint LogfmtParser_lines (lineNum : Z) (tokens : list string)
  : option Parsed :=
  match tokens with
  | [] => Some ([], [])
  | text :: tokens' =>
      let lineNum := GoInt.incr lineNum in
      let line := GoStrings.TrimSpace text in
      if String.eqb line "" then LogfmtParser_lines lineNum tokens'
      else
        match parseLogfmt line with
        | None => None
        | Some (Err err) =>
            emitError (lineError lineNum err) <$> LogfmtParser_lines lineNum tokens'
        | Some (Ok entry) =>
            emitEntry entry <$> LogfmtParser_lines lineNum tokens'
        end
  end.

(** [LogfmtParser.Parse]: the scanner has its default buffer, and its
    error is not read. *)
Definition LogfmtParser_Parse (r : GoIO.Reader) : option Parsed :=
  LogfmtParser_lines 0 (GoIO.Scanner_tokens GoIO.MaxScanTokenSize r).1.

End parser.

(** ** Package filter *)

Module filter.

Import Runtime.

Section Filters.

Context `{GoFloat} `{GoRegexp}.

(** [FieldFilter]; [re] is [None] for the nil pointer. *)
Record FieldFilter : Type := mkFieldFilter {
  re : option Regexp;
  Field : string;
  Operator : string;
  Value : string
}.

(** The operators, in the order [NewFieldFilter] looks for them. *)
Definition operators : list string := ["!="; "~"; ">="; "<="; "="; ">"; "<"].

(** The loop [for _, op := range operators] of [NewFieldFilter]. *)
Fixpoint tryOperators (expression : string) (ops : list string)
  : Result FieldFilter :=
  match ops with
  | [] => Err ("invalid filter expression: " +:+ expression)
  | op :: ops' =>
      match GoStrings.Index expression op with
      | None => tryOperators expression ops'
      | Some idx =>
          let field := GoStrings.sliceTo idx expression in
          let value := GoStrings.sliceFrom (idx + GoStrings.len op) expression in
          if String.eqb op "~" then
            match regexp_Compile value with
            | Err err => Err ("invalid regex in filter: " +:+ err)
            | Ok compiled => Ok (mkFieldFilter (Some compiled) field op value)
            end
          else Ok (mkFieldFilter None field op value)
      end
  end.

Definition NewFieldFilter (expression : string) : Result FieldFilter :=
  tryOperators expression operators.

(** The [switch f.Operator] of [FieldFilter.Match], on the string form of
    the field's value. *)
Definition compareWith (f : FieldFilter) (s : string) : EntryM bool :=
  if String.eqb (Operator f) "=" then ret (String.eqb s (Value f))
  else if String.eqb (Operator f) "!=" then ret (negb (String.eqb s (Value f)))
  else if String.eqb (Operator f) ">" then ret (GoStrings.lt (Value f) s)
  else if String.eqb (Operator f) "<" then ret (GoStrings.lt s (Value f))
  else if String.eqb (Operator f) ">=" then ret (GoStrings.le (Value f) s)
  else if String.eqb (Operator f) "<=" then ret (GoStrings.le s (Value f))
  else if String.eqb (Operator f) "~" then
    match re f with
    | Some compiled => ret (regexp_MatchString compiled s)
    | None => panic "invalid memory address or nil pointer dereference"
    end
  else ret false.

(** [FieldFilter.Match]. *)
Definition FieldFilter_Match (f : FieldFilter) : EntryM bool :=
  found <- lookupField (Field f) ;;
  match found with
  | None => ret false
  | Some value => compareWith f (Sprintf_v value)
  end.

(** The values of the interface [Filter]: the two types of the package
    that implement it. *)
Inductive Filter : Type :=
| OfFieldFilter (f : FieldFilter)
| OfCompositeFilter (filters : list Filter).

(** [Match] through the interface; for a composite, the loop of
    [CompositeFilter.Match]. *)
Fixpoint Filter_Match (flt : Filter) : EntryM bool :=
  match flt with
  | OfFieldFilter f => FieldFilter_Match f
  | OfCompositeFilter filters =>
      (fix every (fs : list Filter) : EntryM bool :=
         match fs with
         | [] => ret true
         | f :: fs' =>
             matched <- Filter_Match f ;;
             if negb matched then ret false else every fs'
         end) filters
  end.

Record CompositeFilter : Type := mkCompositeFilter { filters : list Filter }.

Definition NewCompositeFilter (fs : list Filter) : CompositeFilter :=
  mkCompositeFilter fs.

Definition CompositeFilter_Match (cf : CompositeFilter) : EntryM bool :=
  Filter_Match (OfCompositeFilter (filters cf)).

End Filters.

End filter.

(** ** Package formatter *)

Module formatter.

Import Runtime.

Definition colorReset : string := String GoStrings.escape "[0m".
Definition colorRed : string := String GoStrings.escape "[31m".
Definition colorGreen : string := String GoStrings.escape "[32m".
Definition colorYellow : string := String GoStrings.escape "[33m".
Definition colorCyan : string := String GoStrings.escape "[36m".
Definition colorGray : string := String GoStrings.escape "[90m".
Definition colorBold : string := String GoStrings.escape "[1m".

Record JSONFormatter : Type := mkJSONFormatter { Pretty : bool }.

Record TextFormatter : Type := mkTextFormatter {
  Color : bool;
  Fields : list string
}.

(** The names rendered in fixed positions ([canonical] in
    [TextFormatter.Format]). *)
Definition canonical (k : string) : bool :=
  existsb (String.eqb k)
    ["time"; "ts"; "timestamp"; "level"; "lvl"; "severity";
     "message"; "msg"; "text"].

(** [strings.ContainsAny] for a space, a tab or a double quote. *)
Fixpoint needsQuotes (v : string) : bool :=
  match v with
  | EmptyString => false
  | String c v' =>
      Ascii.eqb c GoStrings.space || Ascii.eqb c (GoStrings.byte 9)
      || Ascii.eqb c GoStrings.dquote || needsQuotes v'
  end.

(** [strings.ReplaceAll]: every double quote gets a backslash before it. *)
Fixpoint escapeQuotes (v : string) : string :=
  match v with
  | EmptyString => EmptyString
  | String c v' =>
      if Ascii.eqb c GoStrings.dquote
      then String GoStrings.backslash (String GoStrings.dquote (escapeQuotes v'))
      else String c (escapeQuotes v')
  end.

Section Formatters.

Context `{GoFloat} `{GoTimeParse} `{GoJSONEncoder} `{GoUnicode}.

(** [JSONFormatter.Format]. *)
Definition JSONFormatter_Format (f : JSONFormatter) (w : GoIO.Writer)
  : EntryM (GoIO.Writer * option error) :=
  entry <- readEntry ;;
  match (if Pretty f then json_MarshalIndent entry "" "  " else json_Marshal entry) with
  | Err err => ret (w, Some ("failed to marshal JSON: " +:+ err))
  | Ok data => ret (GoIO.Write w (data +:+ String GoStrings.newline EmptyString))
  end.

(** [extractString(entry, keys...)]. *)
Fixpoint extractString (keys : list string) : EntryM string :=
  match keys with
  | [] => ret EmptyString
  | key :: keys' =>
      found <- lookupField key ;;
      match found with
      | Some val => ret (Sprintf_v val)
      | None => extractString keys'
      end
  end.

(** [fmt.Sprintf("[%-5s]", s)]: [s] padded on the right to five runes. *)
Definition bracketPad5 (s : string) : string :=
  "[" +:+ s +:+ GoStrings.spaces (5 - utf8_RuneCountInString s) +:+ "]".

(** [TextFormatter.colorizeLevel]. *)
Definition colorizeLevel (f : TextFormatter) (level : string) : string :=
  if negb (Color f) then bracketPad5 (strings_ToUpper level)
  else
    let l := strings_ToLower level in
    if existsb (String.eqb l) ["error"; "err"; "fatal"; "crit"] then
      colorRed +:+ colorBold +:+ "[ERROR]" +:+ colorReset
    else if existsb (String.eqb l) ["warn"; "warning"] then
      colorYellow +:+ colorBold +:+ "[WARN ]" +:+ colorReset
    else if existsb (String.eqb l) ["info"; "information"] then
      colorGreen +:+ colorBold +:+ "[INFO ]" +:+ colorReset
    else colorGray +:+ "[" +:+ strings_ToUpper level +:+ "]" +:+ colorReset.

(** [formatTimestamp]. *)
Definition formatTimestamp (value : string) : string :=
  if String.eqb value "" then colorGray +:+ GoStrings.spaces 15 +:+ colorReset
  else
    let otherwise :=
      match time_Parse_RFC3339 value with
      | Ok t => FormatClock t
      | Err _ =>
          if 15 <? GoStrings.len value then GoStrings.sliceTo 15 value else value
      end in
    match fmt_Sscanf_f value with
    | Some f =>
        if float64_gt_1e9 f then FormatClock (Unix (int64_of_float64 f))
        else otherwise
    | None => otherwise
    end.

(** The first branch of the extras: [for _, field := range f.Fields]. *)
Fixpoint requestedExtras (fieldList : list string) : EntryM (list string) :=
  match fieldList with
  | [] => ret []
  | field :: rest =>
      found <- lookupField field ;;
      extras <- requestedExtras rest ;;
      match found with
      | Some val => ret ((field +:+ "=" +:+ Sprintf_v val) :: extras)
      | None => ret extras
      end
  end.

(** [for _, k := range keys] with [fmt.Sprintf("%s=%v", k, entry[k])]. *)
Fixpoint renderPairs (keys : list string) : EntryM (list string) :=
  match keys with
  | [] => ret []
  | k :: rest =>
      found <- lookupField k ;;
      extras <- renderPairs rest ;;
      ret ((k +:+ "=" +:+ Sprintf_v_lookup found) :: extras)
  end.

(** [TextFormatter.Format]. *)
Definition TextFormatter_Format (f : TextFormatter) (w : GoIO.Writer)
  : EntryM (GoIO.Writer * option error) :=
  timestamp <- extractString ["time"; "ts"; "timestamp"] ;;
  level <- extractString ["level"; "lvl"; "severity"] ;;
  message <- extractString ["message"; "msg"; "text"] ;;
  let levelStr := colorizeLevel f level in
  let timeStr := formatTimestamp timestamp in
  extras <-
    (if 0 <? length (Fields f) then requestedExtras (Fields f)
     else
       all <- rangeKeys ;;
       let keys := List.filter (fun k => negb (canonical k)) all in
       renderPairs (sortStable GoStrings.lt keys)) ;;
  let extaStr :=
    if 0 <? length extras then
      if Color f then
        " " +:+ colorGray +:+ GoStrings.Join extras " " +:+ colorReset
      else " " +:+ GoStrings.Join extras " "
    else EmptyString in
  ret (GoIO.Write w (timeStr +:+ " " +:+ levelStr +:+ " " +:+ message +:+ extaStr
                     +:+ String GoStrings.newline EmptyString)).

(** The loop of [LogfmtFormatter.Format] over the sorted keys. *)
Fixpoint logfmtParts (keys : list string) : EntryM (list string) :=
  match keys with
  | [] => ret []
  | k :: rest =>
      found <- lookupField k ;;
      parts <- logfmtParts rest ;;
      let v := Sprintf_v_lookup found in
      let v :=
        if needsQuotes v
        then String GoStrings.dquote (escapeQuotes v) +:+ String GoStrings.dquote EmptyString
        else v in
      ret ((k +:+ "=" +:+ v) :: parts)
  end.

(** [LogfmtFormatter.Format]. *)
Definition LogfmtFormatter_Format (w : GoIO.Writer)
  : EntryM (GoIO.Writer * option error) :=
  keys <- rangeKeys ;;
  parts <- logfmtParts (sortStable GoStrings.lt keys) ;;
  ret (GoIO.Write w (GoStrings.Join parts " " +:+ String GoStrings.newline EmptyString)).

(** The values of the interface [Formatter]. *)
Inductive Formatter : Type :=
| OfJSONFormatter (f : JSONFormatter)
| OfTextFormatter (f : TextFormatter)
| OfLogfmtFormatter.

Definition Formatter_Format (f : Formatter) (w : GoIO.Writer)
  : EntryM (GoIO.Writer * option error) :=
  match f with
  | OfJSONFormatter jf => JSONFormatter_Format jf w
  | OfTextFormatter tf => TextFormatter_Format tf w
  | OfLogfmtFormatter => LogfmtFormatter_Format w
  end.

End Formatters.

End formatter.

(** ** Package main: sniffing, merging and statistics *)

Module main.

Import Runtime.

(** [mergedEntry]. *)
Record mergedEntry : Type := mkMergedEntry { entry : LogEntry; t : Time }.

(** [statEntry]. *)
Record statEntry : Type := mkStatEntry { Value : string; Count : Z }.

(** The values of the interface [parser.Parser]. *)
Inductive Parser : Type :=
| OfJSONParser
| OfLogfmtParser.

Section Orchestrator.

Context `{GoFloat} `{GoTimeParse} `{GoJSONDecoder}.

Definition Parser_Parse (p : Parser) (r : GoIO.Reader) : option parser.Parsed :=
  match p with
  | OfJSONParser => Some (parser.JSONParser_Parse r)
  | OfLogfmtParser => parser.LogfmtParser_Parse r
  end.

(** The two attempts [parseTimestampForSort] makes on the value of a
    field: seconds since 1970 when the text scans as a number above [1e9],
    then RFC 3339. [None] when neither returns. *)
Definition valueTimestamp (val : Runtime.Value) : option Time :=
  let s := Sprintf_v val in
  let parsed :=
    match time_Parse_RFC3339 s with
    | Ok parsedTime => Some parsedTime
    | Err _ => None
    end in
  match fmt_Sscanf_f s with
  | Some f => if float64_gt_1e9 f then Some (Unix (int64_of_float64 f)) else parsed
  | None => parsed
  end.

(** The loop of [parseTimestampForSort] over the canonical names. *)
Fixpoint timestampFrom (keys : list string) : EntryM Time :=
  match keys with
  | [] => ret zeroTime
  | key :: keys' =>
      found <- lookupField key ;;
      match found with
      | None => timestampFrom keys'
      | Some val =>
          match valueTimestamp val with
          | Some parsedTime => ret parsedTime
          | None => timestampFrom keys'
          end
      end
  end.

Definition parseTimestampForSort : EntryM Time :=
  timestampFrom ["time"; "ts"; "timestamp"].

(** The body of the loop of [loadEntries]: the entry is tagged, then its
    timestamp is parsed. *)
Definition tagEntry (source : string) : EntryM Time :=
  _ <- storeField "_source" (VString source) ;;
  parseTimestampForSort.

(** The loop [for entry := range entries] of [loadEntries]. *)
Fixpoint loadParsed (source : string) (entries : list LogEntry)
  : Outcome (list mergedEntry) :=
  match entries with
  | [] => Done []
  | e :: rest =>
      match tagEntry source e with
      | (Panic msg, _) => Panic msg
      | (Done parsedTime, e') =>
          match loadParsed source rest with
          | Panic msg => Panic msg
          | Done result => Done (mkMergedEntry e' parsedTime :: result)
          end
      end
  end.

(** [loadEntries]; the parse errors go to the standard error stream. *)
Definition loadEntries (r : GoIO.Reader) (p : Parser) (source : string)
  : option (Outcome (list mergedEntry)) :=
  parsed ← Parser_Parse p r;
  Some (loadParsed source parsed.1).

(** The key an entry is counted under in [collectStats]. *)
Definition statKey (field : string) (e : LogEntry) : string :=
  match fields e !! field with
  | Some v => Sprintf_v v
  | None => "(none)"
  end.

(** The first loop of [collectStats]: [counts[key]++] for the matching
    entries. *)
Fixpoint tally (match_ : LogEntry -> bool) (field : string)
    (entries : list LogEntry) (counts : gmap string Z) : gmap string Z :=
  match entries with
  | [] => counts
  | e :: rest =>
      if match_ e then
        let key := statKey field e in
        tally match_ field rest
          (<[key := GoInt.incr (default 0%Z (counts !! key))]> counts)
      else tally match_ field rest counts
  end.

(** The [less] of [sort.Slice] in [collectStats]. *)
Definition statLess (a b : statEntry) : bool :=
  if negb (Count a =? Count b)%Z then (Count b <? Count a)%Z
  else GoStrings.lt (Value a) (Value b).

(** [collectStats]. The map is listed in some order and sorted; [statLess]
    is a strict total order on rows with different values, so the result
    depends on neither the order nor the sorting algorithm
    ([sorted_rows_unique]). *)
Definition collectStats (entries : list LogEntry) (match_ : LogEntry -> bool)
    (field : string) : list statEntry :=
  let counts := tally match_ field entries ∅ in
  sortStable statLess
    (map (fun kv => mkStatEntry kv.1 kv.2) (map_to_list counts)).

(** [sniffFormat]: the result of the three-valued return. *)
Record Sniffed : Type := mkSniffed {
  format : string;
  reader : option GoIO.Reader;
  err : option error
}.

(** The loop of [sniffFormat]; one pass per line read. *)
Fixpoint sniffLoop (fuel : nat) (br : GoIO.Reader) : option Sniffed :=
  match fuel with
  | O => None
  | S fuel' =>
      let '(line, readErr, br') := GoIO.ReadString br in
      let trimmed := GoStrings.TrimSpace line in
      if negb (String.eqb trimmed "") then
        let reconstructed := GoIO.MultiReader line br' in
        if GoStrings.HasPrefix trimmed "{" then
          Some (mkSniffed "json" (Some reconstructed) None)
        else Some (mkSniffed "logfmt" (Some reconstructed) None)
      else
        match readErr with
        | GoIO.EOF => Some (mkSniffed "json" (Some br') None)
        | GoIO.ReadFailed e =>
            Some (mkSniffed "" None (Some ("auto-detecting input format: " +:+ e)))
        | GoIO.NoErr => sniffLoop fuel' br'
        end
  end.

Definition sniffFormat (r : GoIO.Reader) : option Sniffed :=
  sniffLoop (S (GoStrings.len (GoIO.pending r))) r.

(** The [less] of [sort.SliceStable] in the merge pipeline. *)
Definition mergedLess (a b : mergedEntry) : bool := Before (t a) (t b).

(** The order in which the merge pipeline sends the loaded entries on. *)
Definition mergeOrder (all : list mergedEntry) : list mergedEntry :=
  sortStable mergedLess all.

(** The entries the merge pipeline hands to the formatter, in order. *)
Definition emitted (match_ : LogEntry -> bool) (all : list mergedEntry)
  : list mergedEntry :=
  List.filter (fun me => match_ (entry me)) (mergeOrder all).

End Orchestrator.

(** *** The loops of [main]: compiling the filters, formatting the entries *)

Section Pipeline.

Context `{GoFloat} `{GoTimeParse} `{GoJSONEncoder} `{GoRegexp} `{GoUnicode}.

(** The loop [for _, f := range filters] of [main]: the first expression
    that does not compile ends the program with its message on the
    standard error stream. *)
Fixpoint buildFilters (filters : list string) : Result (list filter.Filter) :=
  match filters with
  | [] => Ok []
  | f :: rest =>
      match filter.NewFieldFilter f with
      | Err err =>
          Err ("Invalid filter: " +:+ err +:+ String GoStrings.newline EmptyString)
      | Ok filt =>
          match buildFilters rest with
          | Err message => Err message
          | Ok filterList => Ok (filter.OfFieldFilter filt :: filterList)
          end
      end
  end.

(** What the formatting loop leaves behind: the standard output, the
    lines it wrote to the standard error stream, and the exit code. (The
    parse errors, which a goroutine writes to the same stream in the
    meantime, are not part of it.) *)
Record Finished : Type := mkFinished {
  stdout : GoIO.Writer;
  stderr : list string;
  exitCode : Z
}.

(** The loop [for entry := range entries] that both pipelines end with. *)
Fixpoint formatEntries (composite : filter.CompositeFilter)
    (fmt_ : formatter.Formatter) (state : Finished) (entries : list LogEntry)
  : Outcome Finished :=
  match entries with
  | [] => Done state
  | entry :: rest =>
      match filter.CompositeFilter_Match composite entry with
      | (Panic msg, _) => Panic msg
      | (Done false, _) => formatEntries composite fmt_ state rest
      | (Done true, entry) =>
          match formatter.Formatter_Format fmt_ (stdout state) entry with
          | (Panic msg, _) => Panic msg
          | (Done (out, None), _) =>
              formatEntries composite fmt_
                (mkFinished out (stderr state) (exitCode state)) rest
          | (Done (out, Some err), _) =>
              formatEntries composite fmt_
                (mkFinished out
                   (stderr state
                    ++ ["Error formatting log: " +:+ err
                        +:+ String GoStrings.newline EmptyString])
                   1)
                rest
          end
      end
  end.

End Pipeline.

End main.

(** ** Reference instances of the runtime classes

    Executable models of the library functions, used to run the program on
    concrete inputs. Each agrees with the Go library on the inputs named
    in its comment; no theorem about the program depends on them beyond
    the concrete runs that name them. *)

Module RefRuntime.

Import Runtime.

Definition isDigit (c : ascii) : bool :=
  ((48 <=? GoStrings.code c) && (GoStrings.code c <=? 57))%N.

Definition digitVal (c : ascii) : Z := (Z.of_N (GoStrings.code c) - 48)%Z.

(** The decimal digits [s] starts with: their value after [acc], how many
    they are, and the rest of [s]. *)
Fixpoint readDigits (acc : Z) (n : nat) (s : string) : Z * nat * string :=
  match s with
  | String c s' =>
      if isDigit c then readDigits (acc * 10 + digitVal c) (S n) s' else (acc, n, s)
  | EmptyString => (acc, n, s)
  end.

(** The binary64 value nearest to [(-1)^neg * m * 10^e10] (ties to even):
    [strconv.ParseFloat] on a decimal literal. A negative power of ten is
    divided out with a sticky bit below the rounding position. *)
Definition decimalToFloat (neg : bool) (m e10 : Z) : spec_float :=
  let signed (z : Z) := if neg then (- z)%Z else z in
  if (m =? 0)%Z then S754_zero neg
  else if (0 <=? e10)%Z then binary_normalize 53 1024 (signed (m * 10 ^ e10)%Z) 0 false
  else
    let d := (10 ^ (- e10))%Z in
    let s := (Z.log2 d + 60)%Z in
    let q := (m * 2 ^ s / d)%Z in
    let sticky := if ((m * 2 ^ s) mod d =? 0)%Z then 0%Z else 1%Z in
    binary_normalize 53 1024 (signed (2 * q + sticky)%Z) (- (s + 1)) false.

Definition isFinite (f : spec_float) : bool :=
  match f with
  | S754_zero _ | S754_finite _ _ _ => true
  | _ => false
  end.

(** An optional sign. *)
Definition readSign (s : string) : bool * string :=
  match s with
  | String c s' =>
      if Ascii.eqb c "-" then (true, s')
      else if Ascii.eqb c "+" then (false, s')
      else (false, s)
  | EmptyString => (false, s)
  end.

(** A decimal literal at the start of [s]: digits with an optional
    fraction, then an optional exponent, at least one digit in all. With
    [greedyExp] an exponent letter is consumed even when no digit follows
    it, and the literal is then malformed (as [fmt]'s [floatToken] does);
    without it the literal ends before the letter. *)
Definition readDecimal (greedyExp : bool) (s : string)
  : option (Z * Z * string) :=
  let '(ip, ni, s1) := readDigits 0 0 s in
  let '(m, nf, s2) :=
    match s1 with
    | String c s1' =>
        if Ascii.eqb c "." then
          let '(m, nf, s2) := readDigits ip 0 s1' in (m, nf, s2)
        else (ip, 0, s1)
    | EmptyString => (ip, 0, s1)
    end in
  if Nat.eqb (ni + nf) 0 then None
  else
    match s2 with
    | String c s2' =>
        if Ascii.eqb c "e" || Ascii.eqb c "E" then
          let (eneg, s3) := readSign s2' in
          let '(ev, ne, s4) := readDigits 0 0 s3 in
          if Nat.eqb ne 0 then
            if greedyExp then None else Some (m, (- Z.of_nat nf)%Z, s2)
          else
            Some (m, ((if eneg then - ev else ev) - Z.of_nat nf)%Z, s4)
        else Some (m, (- Z.of_nat nf)%Z, s2)
    | EmptyString => Some (m, (- Z.of_nat nf)%Z, s2)
    end.

Fixpoint skipBlanks (s : string) : string :=
  match s with
  | String c s' =>
      if Ascii.eqb c GoStrings.space || Ascii.eqb c (GoStrings.byte 9)
      then skipBlanks s' else s
  | EmptyString => s
  end.

(** [fmt.Sscanf(s, "%f", &f)] for an input that starts, after blanks, with
    a signed decimal literal (the text after the literal is not read).
    Not covered: [nan], [inf], hexadecimal mantissas, binary exponents and
    underscores, which this function rejects. *)
Definition ref_Sscanf_f (s : string) : option spec_float :=
  let (neg, s1) := readSign (skipBlanks s) in
  match readDecimal true s1 with
  | Some (m, e10, _) =>
      let f := decimalToFloat neg m e10 in
      if isFinite f then Some f else None
  | None => None
  end.

Fixpoint stripZeros (r : string) : string :=
  match r with
  | String c r' => if Ascii.eqb c "0" then stripZeros r' else r
  | EmptyString => r
  end.

(** [%v] of a [float64] whose value is an integer of magnitude below
    [2^53]: its decimal digits when there are at most six and otherwise the
    form [d.ddde+XX]. Any other value is printed as mantissa and binary
    exponent (the verb [%b]), which is not what [%v] prints. *)
Definition ref_fmt_float64 (f : spec_float) : string :=
  match f with
  | S754_zero s => if s then "-0" else "0"
  | S754_infinity s => if s then "-Inf" else "+Inf"
  | S754_nan => "NaN"
  | S754_finite s m e =>
      let sign := if s then "-" else "" in
      let integral :=
        match e with
        | Zneg p => (Zpos m mod 2 ^ Zpos p =? 0)%Z
        | _ => true
        end in
      let n := match e with
               | Zneg p => (Zpos m / 2 ^ Zpos p)%Z
               | _ => (Zpos m * 2 ^ e)%Z
               end in
      if integral && (n <? 2 ^ 53)%Z then
        let digits := GoInt.itoa n in
        let exp := GoStrings.len digits - 1 in
        if exp <? 6 then sign +:+ digits
        else
          let short := String.rev (stripZeros (String.rev digits)) in
          sign +:+ GoStrings.sliceTo 1 short
          +:+ (if 1 <? GoStrings.len short
               then "." +:+ GoStrings.sliceFrom 1 short else "")
          +:+ "e+" +:+ GoInt.twoDigits (Z.of_nat exp)
      else sign +:+ GoInt.itoa (Zpos m) +:+ "p" +:+ GoInt.itoa e
  end.

#[export] Instance refFloat : GoFloat := {
  fmt_float64 := ref_fmt_float64;
  fmt_Sscanf_f := ref_Sscanf_f;
  (** The result on amd64. *)
  int64_unrepresentable := fun _ => GoInt.minInt
}.

(** *** RFC 3339 *)

(** Exactly [n] decimal digits. *)
Fixpoint fixedDigits (n : nat) (acc : Z) (s : string) : option (Z * string) :=
  match n with
  | O => Some (acc, s)
  | S n' =>
      match s with
      | String c s' =>
          if isDigit c then fixedDigits n' (acc * 10 + digitVal c) s' else None
      | EmptyString => None
      end
  end.

Definition expect (c : ascii) (s : string) : option string :=
  match s with
  | String d s' => if Ascii.eqb c d then Some s' else None
  | EmptyString => None
  end.

Definition isLeap (y : Z) : bool :=
  ((y mod 4 =? 0) && (negb (y mod 100 =? 0) || (y mod 400 =? 0)))%Z.

Definition daysIn (month year : Z) : Z :=
  if (month =? 2)%Z then (if isLeap year then 29 else 28)%Z
  else if ((month =? 4) || (month =? 6) || (month =? 9) || (month =? 11))%Z
       then 30%Z else 31%Z.

(** Days from the first of January to the first of [month]. *)
Definition daysBefore (month year : Z) : Z :=
  let cumulative :=
    nth (Z.to_nat (month - 1))
      [0; 31; 59; 90; 120; 151; 181; 212; 243; 273; 304; 334]%Z 0%Z in
  (cumulative + (if isLeap year && (2 <? month)%Z then 1 else 0))%Z.

(** Days from January 1 of year 1 to the given date of the proleptic
    Gregorian calendar. *)
Definition daysSinceYear1 (year month day : Z) : Z :=
  let y := (year - 1)%Z in
  (365 * y + y / 4 - y / 100 + y / 400 + daysBefore month year + day - 1)%Z.

(** Nine digits of a fraction of a second. *)
Definition nanoseconds (frac : Z) (ndigits : nat) : Z :=
  if ndigits <=? 9 then (frac * 10 ^ Z.of_nat (9 - ndigits))%Z
  else (frac / 10 ^ Z.of_nat (ndigits - 9))%Z.

(** [time.Parse(time.RFC3339, s)] for
    [YYYY-MM-DDThh:mm:ss], an optional fraction, and [Z] or a numeric
    offset [+hh:mm] or [-hh:mm]. *)
Definition ref_time_Parse_RFC3339 (s : string) : Result Time :=
  let bad : Result Time := Err ("parsing time " +:+ s) in
  let parsed : option Time :=
    '(year, s) ← fixedDigits 4 0 s;
    s ← expect "-" s;
    '(month, s) ← fixedDigits 2 0 s;
    s ← expect "-" s;
    '(day, s) ← fixedDigits 2 0 s;
    s ← expect "T" s;
    '(hour, s) ← fixedDigits 2 0 s;
    s ← expect ":" s;
    '(minute, s) ← fixedDigits 2 0 s;
    s ← expect ":" s;
    '(second, s) ← fixedDigits 2 0 s;
    let '(nanos, s) :=
      match s with
      | String c s' =>
          if Ascii.eqb c "." || Ascii.eqb c "," then
            let '(frac, nd, s'') := readDigits 0 0 s' in
            if Nat.eqb nd 0 then (0%Z, s) else (nanoseconds frac nd, s'')
          else (0%Z, s)
      | EmptyString => (0%Z, s)
      end in
    '(offset, s) ←
      match s with
      | String c s' =>
          if Ascii.eqb c "Z" then Some (0%Z, s')
          else if Ascii.eqb c "+" || Ascii.eqb c "-" then
            '(zh, s1) ← fixedDigits 2 0 s';
            s2 ← expect ":" s1;
            '(zm, s3) ← fixedDigits 2 0 s2;
            if ((zh <? 24) && (zm <? 60))%Z then
              let magnitude := (zh * 3600 + zm * 60)%Z in
              Some (if Ascii.eqb c "-" then (- magnitude)%Z else magnitude, s3)
            else None
          else None
      | EmptyString => None
      end;
    if String.eqb s ""
       && ((1 <=? month) && (month <=? 12) && (1 <=? day)
           && (day <=? daysIn month year) && (hour <? 24) && (minute <? 60)
           && (second <? 60))%Z
    then
      Some (mkTime
              (daysSinceYear1 year month day * 86400 + hour * 3600
               + minute * 60 + second - offset)%Z
              nanos offset)
    else None in
  match parsed with
  | Some parsedTime => Ok parsedTime
  | None => bad
  end.

#[export] Instance refTimeParse : GoTimeParse := {
  time_Parse_RFC3339 := ref_time_Parse_RFC3339
}.

(** *** JSON decoding *)

Fixpoint skipWs (s : string) : string :=
  match s with
  | String c s' =>
      let n := GoStrings.code c in
      if ((n =? 32) || (n =? 9) || (n =? 10) || (n =? 13))%N then skipWs s' else s
  | EmptyString => s
  end.

Definition hexVal (c : ascii) : option N :=
  let n := GoStrings.code c in
  if ((48 <=? n) && (n <=? 57))%N then Some (n - 48)%N
  else if ((97 <=? n) && (n <=? 102))%N then Some (n - 87)%N
  else if ((65 <=? n) && (n <=? 70))%N then Some (n - 55)%N
  else None.

(** Four hexadecimal digits. *)
Definition hex4 (s : string) : option (N * string) :=
  match s with
  | String a (String b (String c (String d rest))) =>
      va ← hexVal a; vb ← hexVal b; vc ← hexVal c; vd ← hexVal d;
      Some (((va * 16 + vb) * 16 + vc) * 16 + vd, rest)%N
  | _ => None
  end.

(** The UTF-8 encoding of a code point. *)
Definition utf8Encode (cp : N) : string :=
  let b := GoStrings.byte in
  if (cp <? 128)%N then String (b cp) EmptyString
  else if (cp <? 2048)%N then
    String (b (192 + cp / 64)%N) (String (b (128 + cp mod 64)%N) EmptyString)
  else if (cp <? 65536)%N then
    String (b (224 + cp / 4096)%N)
      (String (b (128 + cp / 64 mod 64)%N)
         (String (b (128 + cp mod 64)%N) EmptyString))
  else
    String (b (240 + cp / 262144)%N)
      (String (b (128 + cp / 4096 mod 64)%N)
         (String (b (128 + cp / 64 mod 64)%N)
            (String (b (128 + cp mod 64)%N) EmptyString))).

(** The body of a string literal, after its opening quote: the decoded
    bytes and the text after the closing quote. A [\u] escape of a
    surrogate that has no partner decodes to U+FFFD. *)
Fixpoint jsonString (fuel : nat) (s : string) : option (string * string) :=
  match fuel with
  | O => None
  | S fuel' =>
      match s with
      | EmptyString => None
      | String c rest =>
          if Ascii.eqb c GoStrings.dquote then Some (EmptyString, rest)
          else if (GoStrings.code c <? 32)%N then None
          else if Ascii.eqb c GoStrings.backslash then
            match rest with
            | EmptyString => None
            | String e rest' =>
                let simple (ch : ascii) :=
                  '(str, tail) ← jsonString fuel' rest'; Some (String ch str, tail) in
                if Ascii.eqb e GoStrings.dquote then simple GoStrings.dquote
                else if Ascii.eqb e GoStrings.backslash then simple GoStrings.backslash
                else if Ascii.eqb e "/" then simple "/"%char
                else if Ascii.eqb e "b" then simple (GoStrings.byte 8)
                else if Ascii.eqb e "f" then simple (GoStrings.byte 12)
                else if Ascii.eqb e "n" then simple (GoStrings.byte 10)
                else if Ascii.eqb e "r" then simple (GoStrings.byte 13)
                else if Ascii.eqb e "t" then simple (GoStrings.byte 9)
                else if Ascii.eqb e "u" then
                  '(cp, after) ← hex4 rest';
                  let lone :=
                    '(str, tail) ← jsonString fuel' after;
                    Some (utf8Encode
                            (if ((55296 <=? cp) && (cp <? 57344))%N then 65533%N else cp)
                          +:+ str, tail) in
                  if ((55296 <=? cp) && (cp <? 56320))%N then
                    match after with
                    | String b1 (String b2 after') =>
                        if Ascii.eqb b1 GoStrings.backslash && Ascii.eqb b2 "u" then
                          match hex4 after' with
                          | Some (lo, after'') =>
                              if ((56320 <=? lo) && (lo <? 57344))%N then
                                '(str, tail) ← jsonString fuel' after'';
                                Some (utf8Encode
                                        (65536 + (cp - 55296) * 1024 + (lo - 56320))%N
                                      +:+ str, tail)
                              else lone
                          | None => None
                          end
                        else lone
                    | _ => lone
                    end
                  else lone
                else None
            end
          else
            '(str, tail) ← jsonString fuel' rest; Some (String c str, tail)
      end
  end.

(** A JSON number: an optional minus sign, an integer part without a
    superfluous leading zero, an optional fraction and an optional
    exponent, converted as [strconv.ParseFloat] does; a literal out of the
    range of [float64] is an error. *)
Definition jsonNumber (s : string) : option (spec_float * string) :=
  let (neg, body) :=
    match s with
    | String c s' => if Ascii.eqb c "-" then (true, s') else (false, s)
    | EmptyString => (false, s)
    end in
  let wellFormed :=
    match body with
    | String d0 (String d1 _) =>
        isDigit d0 && negb (Ascii.eqb d0 "0" && isDigit d1)
    | String d0 EmptyString => isDigit d0
    | EmptyString => false
    end in
  if negb wellFormed then None
  else
    '(m, e10, rest) ← readDecimal false body;
    let fractionOk :=
      (* a point must be followed by a digit *)
      let '(_, _, afterInt) := readDigits 0 0 body in
      match afterInt with
      | String c (String d _) => negb (Ascii.eqb c ".") || isDigit d
      | String c EmptyString => negb (Ascii.eqb c ".")
      | EmptyString => true
      end in
    let f := decimalToFloat neg m e10 in
    if fractionOk && isFinite f then Some (f, rest) else None.

Fixpoint jsonValue (fuel : nat) (s : string) {struct fuel}
  : option (Value * string) :=
  match fuel with
  | O => None
  | S fuel' =>
      let s := skipWs s in
      match s with
      | EmptyString => None
      | String c rest =>
          if Ascii.eqb c "{" then
            match skipWs rest with
            | String c' rest' =>
                if Ascii.eqb c' "}" then Some (VObject ∅, rest')
                else jsonMembers fuel' ∅ rest
            | EmptyString => None
            end
          else if Ascii.eqb c "[" then
            match skipWs rest with
            | String c' rest' =>
                if Ascii.eqb c' "]" then Some (VArray [], rest')
                else jsonElements fuel' [] rest
            | EmptyString => None
            end
          else if Ascii.eqb c GoStrings.dquote then
            '(str, tail) ← jsonString (S (GoStrings.len rest)) rest;
            Some (VString str, tail)
          else if GoStrings.HasPrefix s "true" then
            Some (VBool true, GoStrings.sliceFrom 4 s)
          else if GoStrings.HasPrefix s "false" then
            Some (VBool false, GoStrings.sliceFrom 5 s)
          else if GoStrings.HasPrefix s "null" then
            Some (VNil, GoStrings.sliceFrom 4 s)
          else
            '(f, tail) ← jsonNumber s; Some (VNumber f, tail)
      end
  end
with jsonMembers (fuel : nat) (acc : gmap string Value) (s : string)
    {struct fuel} : option (Value * string) :=
  match fuel with
  | O => None
  | S fuel' =>
      match skipWs s with
      | String q rest =>
          if Ascii.eqb q GoStrings.dquote then
            '(key, s1) ← jsonString (S (GoStrings.len rest)) rest;
            s2 ← expect ":" (skipWs s1);
            '(v, s3) ← jsonValue fuel' s2;
            match skipWs s3 with
            | String d s4 =>
                if Ascii.eqb d "," then jsonMembers fuel' (<[key := v]> acc) s4
                else if Ascii.eqb d "}" then Some (VObject (<[key := v]> acc), s4)
                else None
            | EmptyString => None
            end
          else None
      | EmptyString => None
      end
  end
with jsonElements (fuel : nat) (acc : list Value) (s : string)
    {struct fuel} : option (Value * string) :=
  match fuel with
  | O => None
  | S fuel' =>
      '(v, s1) ← jsonValue fuel' s;
      match skipWs s1 with
      | String d s2 =>
          if Ascii.eqb d "," then jsonElements fuel' (acc ++ [v]) s2
          else if Ascii.eqb d "]" then Some (VArray (acc ++ [v]), s2)
          else None
      | EmptyString => None
      end
  end.

(** [json.Unmarshal] into a nil [LogEntry]: an object becomes a map (the
    last of several equal keys wins), [null] leaves the map nil without an
    error, and any other value or text is an error. Input that is not
    valid UTF-8 is outside this function, and so is the wording of the
    errors. *)
Definition ref_json_Unmarshal (line : string) : Result LogEntry :=
  match jsonValue (2 * GoStrings.len line + 2) line with
  | Some (v, tail) =>
      if String.eqb (skipWs tail) "" then
        match v with
        | VObject m => Ok (Some m)
        | VNil => Ok None
        | _ => Err "json: cannot unmarshal value into Go value of type parser.LogEntry"
        end
      else Err "invalid character after top-level value"
  | None => Err "invalid character in JSON input"
  end.

#[export] Instance refJSONDecoder : GoJSONDecoder := {
  json_Unmarshal := ref_json_Unmarshal
}.

(** *** Regular expressions and Unicode *)

(** [regexp] for patterns without metacharacters: such a pattern matches
    the strings that contain it. *)
#[export] Instance refRegexp : GoRegexp := {
  Regexp := string;
  regexp_Compile := fun pattern => Ok pattern;
  regexp_MatchString := fun pattern s =>
    match GoStrings.Index s pattern with Some _ => true | None => false end
}.

Definition upperByte (c : ascii) : ascii :=
  let n := GoStrings.code c in
  if ((97 <=? n) && (n <=? 122))%N then GoStrings.byte (n - 32) else c.

Definition lowerByte (c : ascii) : ascii :=
  let n := GoStrings.code c in
  if ((65 <=? n) && (n <=? 90))%N then GoStrings.byte (n + 32) else c.

Fixpoint mapBytes (f : ascii -> ascii) (s : string) : string :=
  match s with
  | String c s' => String (f c) (mapBytes f s')
  | EmptyString => EmptyString
  end.

(** The bytes that start a rune of well-formed UTF-8. *)
Fixpoint countRuneStarts (s : string) : nat :=
  match s with
  | String c s' =>
      (if ((128 <=? GoStrings.code c) && (GoStrings.code c <? 192))%N then 0 else 1)
      + countRuneStarts s'
  | EmptyString => 0
  end.

(** Case mapping for ASCII text, rune counts for well-formed UTF-8. *)
#[export] Instance refUnicode : GoUnicode := {
  strings_ToUpper := mapBytes upperByte;
  strings_ToLower := mapBytes lowerByte;
  utf8_RuneCountInString := countRuneStarts
}.

(** *** JSON encoding *)

Definition hexDigit (n : N) : ascii :=
  GoStrings.byte (if (n <? 10)%N then 48 + n else 87 + n).

(** The bytes of a string between the quotes of a JSON string, as
    [encoding/json] writes them with HTML escaping on: a backslash before
    a double quote and a backslash, the short escapes of line feed,
    carriage return and tab, and [\u00XX] for the other control bytes and
    for [<], [>] and [&]. Bytes above 127 are copied, which is what the
    encoder does for well-formed UTF-8 other than U+2028 and U+2029. *)
Fixpoint jsonEscape (s : string) : string :=
  match s with
  | EmptyString => EmptyString
  | String c s' =>
      let n := GoStrings.code c in
      let rest := jsonEscape s' in
      if ((n =? 34) || (n =? 92))%N then String GoStrings.backslash (String c rest)
      else if (n =? 10)%N then "\n" +:+ rest
      else if (n =? 13)%N then "\r" +:+ rest
      else if (n =? 9)%N then "\t" +:+ rest
      else if ((n <? 32) || (n =? 60) || (n =? 62) || (n =? 38))%N then
        "\u00" +:+ String (hexDigit (n / 16)) (String (hexDigit (n mod 16)) rest)
      else String c rest
  end.

Definition jsonQuote (s : string) : string :=
  String GoStrings.dquote (jsonEscape s) +:+ String GoStrings.dquote EmptyString.

(** A [float64]: an integer of magnitude below [2^53] as its decimal
    digits; the values JSON cannot hold are an error. Any other number is
    printed as [ref_fmt_float64] prints it, which is not always what
    [encoding/json] prints. *)
Definition jsonNumberText (f : spec_float) : Result string :=
  match f with
  | S754_nan | S754_infinity _ =>
      Err ("json: unsupported value: " +:+ ref_fmt_float64 f)
  | S754_zero _ => Ok (ref_fmt_float64 f)
  | S754_finite s m e =>
      let integral :=
        match e with
        | Zneg p => (Zpos m mod 2 ^ Zpos p =? 0)%Z
        | _ => true
        end in
      let n := match e with
               | Zneg p => (Zpos m / 2 ^ Zpos p)%Z
               | _ => (Zpos m * 2 ^ e)%Z
               end in
      if integral && (n <? 2 ^ 53)%Z
      then Ok ((if s then "-" else "") +:+ GoInt.itoa n)
      else Ok (ref_fmt_float64 f)
  end.

(** The first error of a list of results, or all their values. *)
Fixpoint allOk {A : Type} (l : list (Result A)) : Result (list A) :=
  match l with
  | [] => Ok []
  | Err e :: _ => Err e
  | Ok a :: l' =>
      match allOk l' with
      | Ok rest => Ok (a :: rest)
      | Err e => Err e
      end
  end.

Fixpoint repeatString (s : string) (n : nat) : string :=
  match n with
  | O => EmptyString
  | S n' => s +:+ repeatString s n'
  end.

(** The line break and indentation of [MarshalIndent] at a nesting depth;
    nothing for [Marshal]. *)
Definition jsonBreak (layout : option (string * string)) (depth : nat) : string :=
  match layout with
  | Some (prefix, indent) =>
      String GoStrings.newline (prefix +:+ repeatString indent depth)
  | None => EmptyString
  end.

(** The items of an object or an array between its brackets. *)
Definition jsonBracket (layout : option (string * string)) (depth : nat)
    (open close : string) (items : list string) : string :=
  match items with
  | [] => open +:+ close
  | _ =>
      open +:+ jsonBreak layout (S depth)
      +:+ GoStrings.Join items ("," +:+ jsonBreak layout (S depth))
      +:+ jsonBreak layout depth +:+ close
  end.

Fixpoint jsonText (layout : option (string * string)) (depth : nat) (v : Value)
  : Result string :=
  match v with
  | VString s => Ok (jsonQuote s)
  | VNumber f => jsonNumberText f
  | VBool true => Ok "true"
  | VBool false => Ok "false"
  | VNil => Ok "null"
  | VObject m =>
      let members :=
        sortStable (fun a b => GoStrings.lt a.1 b.1)
          (map_to_list (jsonText layout (S depth) <$> m)) in
      match allOk (map (fun kv : string * Result string =>
                          match kv.2 with
                          | Ok text =>
                              Ok (jsonQuote kv.1 +:+ ":"
                                  +:+ (match layout with Some _ => " " | None => "" end) +:+ text)
                          | Err e => Err e
                          end) members) with
      | Ok items => Ok (jsonBracket layout depth "{" "}" items)
      | Err e => Err e
      end
  | VArray l =>
      match allOk (map (jsonText layout (S depth)) l) with
      | Ok items => Ok (jsonBracket layout depth "[" "]" items)
      | Err e => Err e
      end
  end.

(** [json.Marshal] and [json.MarshalIndent] of a record; the nil map is
    [null]. *)
Definition ref_json_Marshal (entry : LogEntry) : Result string :=
  match entry with
  | Some m => jsonText None 0 (VObject m)
  | None => Ok "null"
  end.

Definition ref_json_MarshalIndent (entry : LogEntry) (prefix indent : string)
  : Result string :=
  match entry with
  | Some m => jsonText (Some (prefix, indent)) 0 (VObject m)
  | None => Ok "null"
  end.

#[export] Instance refJSONEncoder : GoJSONEncoder := {
  json_Marshal := ref_json_Marshal;
  json_MarshalIndent := ref_json_MarshalIndent
}.

End RefRuntime.

(** * The vocabulary of the properties *)

Import Runtime.

(** ** Scanning a logfmt line *)

(** [scans entry remaining entry' remaining']: from the state
    [(entry, remaining)] at the head of the loop of [parseLogfmt], zero or
    more passes lead to the state [(entry', remaining')] at the head of the
    loop. *)
Inductive scans :
  gmap string Value -> string -> gmap string Value -> string -> Prop :=
| scans_here entry remaining : scans entry remaining entry remaining
| scans_pass entry remaining entry1 remaining1 entry2 remaining2 :
    remaining <> EmptyString ->
    parser.parseLogfmt_step entry remaining = parser.Continue entry1 remaining1 ->
    scans entry1 remaining1 entry2 remaining2 ->
    scans entry remaining entry2 remaining2.

(** The scan of [line] reaches the state [(entry, remaining)]. *)
Definition reaches (line : string) (entry : gmap string Value)
    (remaining : string) : Prop :=
  scans ∅ line entry remaining.

(** The token [s] starts with: its bytes up to the first white-space
    byte. *)
Fixpoint firstToken (s : string) : string :=
  match s with
  | EmptyString => EmptyString
  | String c s' =>
      if GoStrings.asciiSpace c then EmptyString else String c (firstToken s')
  end.

(** Position [i] of [s] holds a double quote that closes the quoted value
    opened at position 0: it is not the opening quote and the byte before
    it is not a backslash. *)
Definition closesAt (s : string) (i : nat) : Prop :=
  1 <= i /\ String.get i s = Some GoStrings.dquote
  /\ String.get (i - 1) s <> Some GoStrings.backslash.

(** [s] opens a quoted value that no quote closes before the end of the
    line. *)
Definition unterminated (s : string) : Prop :=
  GoStrings.HasPrefix s (String GoStrings.dquote EmptyString) = true
  /\ forall i, ~ closesAt s i.

(** ** Statistics *)

Section StatsVocabulary.

Context `{GoFloat}.

(** The label an entry is counted under: the string form of the field's
    value, or the reserved label when the entry has no such field. *)
Definition countedUnder (field : string) (e : LogEntry) (label : string) : bool :=
  match fields e !! field with
  | Some v => String.eqb (Sprintf_v v) label
  | None => String.eqb "(none)" label
  end.

(** How many of the entries match the filter and are counted under
    [label]. *)
Definition occurrences (match_ : LogEntry -> bool) (field : string)
    (entries : list LogEntry) (label : string) : nat :=
  length (List.filter (fun e => match_ e && countedUnder field e label) entries).

End StatsVocabulary.

(** The six entries of the specification's example. *)
Definition exampleLevels : list LogEntry :=
  map (fun s : string => Some {["level" := VString s]})
    ["info"; "error"; "info"; "info"; "warn"; "warn"].

(** ** The merge order *)

(** Two times are the same instant (their locations may differ). *)
Definition sameInstant (u v : Time) : bool :=
  ((sec u =? sec v) && (nsec u =? nsec v))%Z.

Section MergeVocabulary.

Import main.

Context `{GoFloat} `{GoTimeParse}.

(** No canonical timestamp field of the entry holds a value that
    [parseTimestampForSort] can use. *)
Definition timestampless (e : LogEntry) : Prop :=
  forall key, In key ["time"; "ts"; "timestamp"] ->
    match fields e !! key with
    | Some v => valueTimestamp v = None
    | None => True
    end.

(** The entries carry the time [parseTimestampForSort] gives them, as
    [loadEntries] builds them. *)
Definition loaded (all : list mergedEntry) : Prop :=
  forall me, In me all -> (parseTimestampForSort (entry me)).1 = Done (t me).

End MergeVocabulary.

(** ** Who changes a record *)

(** A computation that leaves the record as it found it, whatever it
    returns. *)
Definition readOnly {A : Type} (c : EntryM A) : Prop :=
  forall entry, (c entry).2 = entry.

(** A computation that returns a value and leaves the record as it found
    it. *)
Definition reads {A : Type} (c : EntryM A) : Prop :=
  forall entry, exists a, c entry = (Done a, entry).

(** ** Lines and plain text *)

(** A line the parsers skip: nothing is left of it after trimming. *)
Definition blank (text : string) : bool :=
  String.eqb (GoStrings.TrimSpace text) "".

(** Every byte of [s] passes the test [p]. *)
Fixpoint allBytes (p : ascii -> bool) (s : string) : bool :=
  match s with
  | EmptyString => true
  | String c s' => p c && allBytes p s'
  end.

(** A printable ASCII byte other than the space and the double quote: a
    byte that the logfmt formatter writes as it is and that ends no
    unquoted value. *)
Definition plainByte (c : ascii) : bool :=
  ((33 <=? GoStrings.code c) && (GoStrings.code c <=? 126))%N
  && negb (Ascii.eqb c GoStrings.dquote).

(** A value of plain bytes, and a key of plain bytes without [=]. *)
Definition plainValue (s : string) : bool := allBytes plainByte s.

Definition plainKey (s : string) : bool :=
  allBytes (fun c => plainByte c && negb (Ascii.eqb c GoStrings.equals)) s.

Definition plainPair (kv : string * string) : bool :=
  plainKey kv.1 && plainValue kv.2.

(** The logfmt text of a list of pairs: [k=v] joined by single spaces. *)
Definition renderLine (kvs : list (string * string)) : string :=
  GoStrings.Join (map (fun kv => kv.1 +:+ "=" +:+ kv.2) kvs) " ".

(** The record a list of pairs builds when they are assigned in order. *)
Definition assignAll (kvs : list (string * string)) (entry : gmap string Value)
  : gmap string Value :=
  foldl (fun m kv => <[kv.1 := VString kv.2]> m) entry kvs.

(** The values assigned to [k], in order. *)
Definition valuesOf (k : string) (kvs : list (string * string)) : list string :=
  map snd (List.filter (fun kv => String.eqb kv.1 k) kvs).

(** The last and the first byte of a string. *)
Fixpoint lastByte (s : string) : option ascii :=
  match s with
  | EmptyString => None
  | String c EmptyString => Some c
  | String _ s' => lastByte s'
  end.

Definition firstByte (s : string) : option ascii :=
  match s with
  | EmptyString => None
  | String c _ => Some c
  end.

(** A byte that neither is white space nor starts or ends a white-space
    rune of several bytes. *)
Definition edge (c : ascii) : bool :=
  negb (GoStrings.asciiSpace c) && (GoStrings.code c <? 128)%N.

Definition edgeOrNone (c : option ascii) : bool :=
  match c with
  | Some c => edge c
  | None => true
  end.

(** [s] has no white space to trim at either end. *)
Definition tight (s : string) : bool :=
  edgeOrNone (firstByte s) && edgeOrNone (lastByte s).

(** [s] ends with a backslash. *)
Definition endsWithBackslash (s : string) : bool :=
  match lastByte s with
  | Some c => Ascii.eqb c GoStrings.backslash
  | None => false
  end.

(** The lines of a text, one after the other. *)
Definition concatLines (lines : list string) : string :=
  fold_right String.append EmptyString lines.

(** ** What the formatters write *)

Section FormatVocabulary.

Context `{GoFloat}.

(** The text of one field in the output of [LogfmtFormatter]. *)
Definition logfmtPart (entry : LogEntry) (k : string) : string :=
  let v := Sprintf_v_lookup (fields entry !! k) in
  k +:+ "=" +:+
  (if formatter.needsQuotes v
   then String GoStrings.dquote (formatter.escapeQuotes v)
        +:+ String GoStrings.dquote EmptyString
   else v).

(** The text of one extra field in the output of [TextFormatter]. *)
Definition textPair (entry : LogEntry) (k : string) : string :=
  k +:+ "=" +:+ Sprintf_v_lookup (fields entry !! k).

End FormatVocabulary.

(** The record has the field [k]. *)
Definition present (entry : LogEntry) (k : string) : bool :=
  match fields entry !! k with
  | Some _ => true
  | None => false
  end.

(** The extras as [TextFormatter.Format] appends them to the line. *)
Definition extrasText (color : bool) (extras : list string) : string :=
  match extras with
  | [] => EmptyString
  | _ =>
      if color
      then " " +:+ formatter.colorGray +:+ GoStrings.Join extras " "
           +:+ formatter.colorReset
      else " " +:+ GoStrings.Join extras " "
  end.

(** Every value of the record is a string of plain bytes under a plain
    key. *)
Definition plainRecord (m : gmap string Value) : Prop :=
  forall k v, m !! k = Some v ->
    plainKey k = true /\ exists s, v = VString s /\ plainValue s = true.

(** ** Tables and compiled filters *)

(** The sum of the counts of a table, and of the counters of a map. *)
Definition totalCount (rows : list main.statEntry) : Z :=
  fold_right Z.add 0%Z (map main.Count rows).

Definition sumOf (counts : gmap string Z) : Z :=
  fold_right Z.add 0%Z (map snd (map_to_list counts)).

Section FilterVocabulary.

Context `{GoFloat} `{GoRegexp}.

(** A filter that [NewFieldFilter] returned for some expression. *)
Definition compiled (flt : filter.Filter) : Prop :=
  exists expression f,
    flt = filter.OfFieldFilter f /\ filter.NewFieldFilter expression = Ok f.

(** The composite filter returns true on the entry. *)
Definition passes (composite : filter.CompositeFilter) (entry : LogEntry) : bool :=
  match (filter.CompositeFilter_Match composite entry).1 with
  | Done true => true
  | _ => false
  end.

(** A text that ends with a line feed. *)
Definition endsLine (chunk : string) : Prop :=
  exists body, chunk = body +:+ String GoStrings.newline EmptyString.

End FilterVocabulary.

(** * Properties *)

(** ** Strings *)

Section StringFacts.

Import GoStrings.

Lemma append_cons (c : ascii) (s t : string) :
  String c s +:+ t = String c (s +:+ t).
Proof. reflexivity. Qed.

Lemma append_assoc (a b c : string) : (a +:+ b) +:+ c = a +:+ (b +:+ c).
Proof.
  induction a as [|x a IH]; [reflexivity|].
  rewrite !append_cons, IH. reflexivity.
Qed.

Lemma append_empty_r (a : string) : a +:+ "" = a.
Proof.
  induction a as [|x a IH]; [reflexivity|].
  rewrite append_cons, IH. reflexivity.
Qed.

Lemma len_sliceFrom (n : nat) (s : string) : len (sliceFrom n s) = len s - n.
Proof.
  revert s. induction n as [|n IH]; intros [|c s]; simpl; auto.
Qed.

Lemma sliceTo_sliceFrom (n : nat) (s : string) : sliceTo n s +:+ sliceFrom n s = s.
Proof.
  revert s. induction n as [|n IH]; intros [|c s]; simpl; auto.
  rewrite append_cons, IH. reflexivity.
Qed.

Lemma len_rev_app (s t : string) :
  String.length (String.rev_app s t) = String.length s + String.length t.
Proof.
  revert t. induction s as [|c s IH]; intros t; simpl; [reflexivity|].
  rewrite IH. simpl. lia.
Qed.

Lemma len_rev (s : string) : len (String.rev s) = len s.
Proof. unfold len, String.rev. rewrite len_rev_app. simpl. lia. Qed.

Lemma len_trimWith (width : string -> nat) (fuel : nat) (s : string) :
  len (trimWith width fuel s) <= len s.
Proof.
  revert s. induction fuel as [|fuel IH]; intros s; cbn [trimWith]; [lia|].
  destruct (width s) as [|w]; [lia|].
  specialize (IH (sliceFrom (S w) s)).
  pose proof (len_sliceFrom (S w) s). lia.
Qed.

(** The trimming loops end because no white space is left, not because
    their passes run out. *)
Lemma trimWith_done (width : string -> nat) (fuel : nat) (s : string) :
  width EmptyString = 0 -> len s <= fuel ->
  width (trimWith width fuel s) = 0.
Proof.
  intros Hempty. revert s.
  induction fuel as [|fuel IH]; intros s Hlen; cbn [trimWith].
  - destruct s; [exact Hempty | simpl in Hlen; lia].
  - destruct (width s) as [|w] eqn:Hw; [exact Hw|].
    apply IH. pose proof (len_sliceFrom (S w) s).
    destruct s; [congruence | simpl in *; lia].
Qed.

Lemma TrimLeftSpace_done (s : string) : spaceWidth (TrimLeftSpace s) = 0.
Proof. apply trimWith_done; [reflexivity | lia]. Qed.

Lemma TrimRightSpace_done (s : string) :
  spaceWidthBack (trimWith spaceWidthBack (len s) (String.rev s)) = 0.
Proof. apply trimWith_done; [reflexivity | rewrite len_rev; lia]. Qed.

Lemma len_TrimSpace (s : string) : len (TrimSpace s) <= len s.
Proof.
  unfold TrimSpace, TrimRightSpace, TrimLeftSpace.
  rewrite len_rev.
  etransitivity; [apply len_trimWith|].
  rewrite len_rev. apply len_trimWith.
Qed.

Lemma IndexByte_lt (s : string) (c : ascii) (i : nat) :
  IndexByte s c = Some i -> i < len s.
Proof.
  revert i. induction s as [|d s IH]; intros i; simpl; [discriminate|].
  destruct (Ascii.eqb d c).
  - intros [= <-]. lia.
  - destruct (IndexByte s c) as [j|]; [|discriminate].
    intros [= <-]. specialize (IH j eq_refl). lia.
Qed.

End StringFacts.

(** ** Computations on a record *)

Lemma reads_readOnly {A : Type} (c : EntryM A) : reads c -> readOnly c.
Proof. intros Hc entry. destruct (Hc entry) as [a ->]. reflexivity. Qed.

Lemma readOnly_ret {A : Type} (a : A) : readOnly (ret a).
Proof. intros entry. reflexivity. Qed.

Lemma readOnly_panic {A : Type} (msg : string) : readOnly (panic (A := A) msg).
Proof. intros entry. reflexivity. Qed.

Lemma readOnly_bind {A B : Type} (c : EntryM A) (k : A -> EntryM B) :
  readOnly c -> (forall a, readOnly (k a)) -> readOnly (bind c k).
Proof.
  intros Hc Hk entry. unfold bind. specialize (Hc entry).
  destruct (c entry) as [[a|msg] entry']; cbn [snd] in Hc; subst entry'.
  - apply Hk.
  - reflexivity.
Qed.

Lemma reads_ret {A : Type} (a : A) : reads (ret a).
Proof. intros entry. exists a. reflexivity. Qed.

Lemma reads_bind {A B : Type} (c : EntryM A) (k : A -> EntryM B) :
  reads c -> (forall a, reads (k a)) -> reads (bind c k).
Proof.
  intros Hc Hk entry. unfold bind.
  destruct (Hc entry) as [a ->]. apply Hk.
Qed.

Lemma reads_lookupField (key : string) : reads (lookupField key).
Proof. intros entry. eexists. reflexivity. Qed.

Lemma reads_rangeKeys : reads rangeKeys.
Proof. intros entry. eexists. reflexivity. Qed.

Lemma reads_readEntry : reads readEntry.
Proof. intros entry. eexists. reflexivity. Qed.

Create HintDb frame discriminated.

#[global] Hint Resolve reads_ret reads_lookupField reads_rangeKeys reads_readEntry
  readOnly_ret readOnly_panic reads_readOnly : frame.

(** ** The logfmt parser *)

Section LogfmtFacts.

Import GoStrings parser.

(** A pass that continues leaves a shorter text to scan: the key's [=] at
    least is consumed. *)
Lemma step_continue_shrinks entry remaining entry' remaining' :
  parseLogfmt_step entry remaining = Continue entry' remaining' ->
  len remaining' < len remaining.
Proof.
  unfold parseLogfmt_step. cbv zeta.
  pose proof (len_TrimSpace remaining) as Ht.
  destruct (String.eqb (TrimSpace remaining) ""); [discriminate|].
  destruct (IndexByte (TrimSpace remaining) equals) as [eqIdx|] eqn:Heq;
    [|discriminate].
  apply IndexByte_lt in Heq.
  pose proof (len_sliceFrom (S eqIdx) (TrimSpace remaining)) as H1.
  assert (Hq : forall n, len (sliceFrom n (sliceFrom (S eqIdx) (TrimSpace remaining)))
                         < len remaining).
  { intros n. rewrite len_sliceFrom. lia. }
  destruct (HasPrefix _ _).
  - destruct (_ <=? _); [discriminate|].
    intros [= _ <-]. apply (Hq (S _)).
  - destruct (IndexByte (sliceFrom (S eqIdx) (TrimSpace remaining)) space);
      intros [= _ <-].
    + apply (Hq (S _)).
    + simpl. lia.
Qed.

(** The loop gives the same result for every number of passes that is at
    least the length of the text. *)
Lemma loop_fuel (fuel1 fuel2 : nat) entry remaining :
  len remaining <= fuel1 -> len remaining <= fuel2 ->
  parseLogfmt_loop fuel1 entry remaining = parseLogfmt_loop fuel2 entry remaining.
Proof.
  revert fuel2 entry remaining.
  induction fuel1 as [|fuel1 IH]; intros fuel2 entry remaining H1 H2.
  - destruct remaining; simpl in H1; [|lia]. destruct fuel2; reflexivity.
  - destruct fuel2 as [|fuel2].
    + destruct remaining; simpl in H2; [|lia]. reflexivity.
    + simpl. destruct (String.eqb remaining ""); [reflexivity|].
      destruct (parseLogfmt_step entry remaining) as [e' r'| |] eqn:Hstep;
        try reflexivity.
      apply step_continue_shrinks in Hstep. apply IH; lia.
Qed.

(** [parseLogfmt] returns on every line. *)
Lemma parseLogfmt_total (line : string) :
  exists result, parseLogfmt line = Some result.
Proof.
  unfold parseLogfmt.
  assert (Hgen : forall fuel entry remaining, len remaining <= fuel ->
            exists result, parseLogfmt_loop fuel entry remaining = Some result).
  { induction fuel as [|fuel IH]; intros entry remaining Hlen.
    - destruct remaining; simpl in Hlen; [|lia]. simpl. eauto.
    - simpl. destruct (String.eqb remaining ""); [eauto|].
      destruct (parseLogfmt_step entry remaining) as [e' r'| |] eqn:Hstep; eauto.
      apply step_continue_shrinks in Hstep. apply IH. lia. }
  apply Hgen. lia.
Qed.

(** The loop from a state is the loop from any state its scan reaches. *)
Lemma scans_loop fuel entry remaining entry' remaining' :
  scans entry remaining entry' remaining' ->
  len remaining <= fuel ->
  parseLogfmt_loop fuel entry remaining
  = parseLogfmt_loop (len remaining') entry' remaining'.
Proof.
  intros Hscan. revert fuel.
  induction Hscan as [e r|e r e1 r1 e2 r2 Hne Hstep _ IH]; intros fuel Hfuel.
  - apply loop_fuel; lia.
  - destruct fuel as [|fuel].
    + destruct r; [congruence | simpl in Hfuel; lia].
    + simpl. destruct (String.eqb_spec r ""); [congruence|].
      rewrite Hstep. apply IH.
      apply step_continue_shrinks in Hstep. lia.
Qed.

Lemma scanQuoted_no_close (prev : ascii) (rest : string) (idx : nat) :
  (forall i, ~ closesAt (String prev rest) i) ->
  scanQuoted prev rest idx = idx + len rest.
Proof.
  revert prev idx.
  induction rest as [|c rest IH]; intros prev idx Hno; simpl; [lia|].
  assert (Hrec : scanQuoted c rest (S idx) = S idx + len rest).
  { apply IH. intros i (Hi & Hget & Hprev).
    apply (Hno (S i)). repeat split; [lia | exact Hget |].
    destruct i as [|i]; [lia|]. simpl in *. rewrite Nat.sub_0_r in *. exact Hprev. }
  destruct (Ascii.eqb_spec c dquote) as [->|Hc]; simpl.
  - destruct (Ascii.eqb_spec prev backslash) as [->|Hp]; simpl.
    + rewrite Hrec. unfold len. lia.
    + exfalso. apply (Hno 1). repeat split; [lia|]. simpl. congruence.
  - rewrite Hrec. unfold len. lia.
Qed.

Lemma unterminated_closingQuote (s : string) :
  unterminated s -> len s <= closingQuote s.
Proof.
  intros [Hprefix Hno]. destruct s as [|q rest]; [discriminate|].
  unfold closingQuote. rewrite scanQuoted_no_close by exact Hno.
  simpl. lia.
Qed.

(** C2, as the code has it: when the scan of a line is at a point where
    the rest of the line, trimmed, is not empty and contains no [=] at
    all, that whole rest becomes one field name mapped to [true] and the
    scan ends with the entry built so far plus that field. *)
Theorem flag_is_rest_of_line_without_equals
    (line : string) (entry : gmap string Value) (remaining : string) :
  reaches line entry remaining ->
  TrimSpace remaining <> EmptyString ->
  IndexByte (TrimSpace remaining) equals = None ->
  parseLogfmt line
  = Some (Ok (Some (<[TrimSpace remaining := VBool true]> entry))).
Proof.
  intros Hreach Hne Hnoeq. unfold parseLogfmt.
  rewrite (scans_loop _ _ _ _ _ Hreach) by lia.
  destruct remaining as [|c rest]; [exfalso; apply Hne; reflexivity|].
  cbn [len String.length parseLogfmt_loop String.eqb].
  unfold parseLogfmt_step. cbv zeta.
  destruct (String.eqb_spec (TrimSpace (String c rest)) ""); [congruence|].
  rewrite Hnoeq. reflexivity.
Qed.


Lemma flag_is_rest_of_line_witness :
  parseLogfmt "a=1 verbose debug"
  = Some (Ok (Some (<["verbose debug" := VBool true]> (<["a" := VString "1"]> ∅)))).
Proof.
  apply (flag_is_rest_of_line_without_equals
           "a=1 verbose debug" (<["a" := VString "1"]> ∅) "verbose debug").
  - eapply scans_pass; [discriminate | vm_compute; reflexivity | apply scans_here].
  - vm_compute. discriminate.
  - vm_compute. reflexivity.
Defined.

(** C2 as the specification words it is not what the code does: a first
    token without [=] does not end the scan when an [=] comes later in the
    line. On [verbose level=info] the result is the single field
    [verbose level] with the string value [info]. *)
Lemma flag_token_before_later_equals :
  ~ (forall (line : string) (entry : gmap string Value) (remaining : string),
        reaches line entry remaining ->
        TrimSpace remaining <> EmptyString ->
        IndexByte (firstToken (TrimSpace remaining)) equals = None ->
        parseLogfmt line
        = Some (Ok (Some (<[TrimSpace remaining := VBool true]> entry)))).
Proof.
  intros claim.
  specialize (claim "verbose level=info" ∅ "verbose level=info" (scans_here _ _)).
  assert (Hrun : parseLogfmt "verbose level=info"
                 = Some (Ok (Some {["verbose level" := VString "info"]})))
    by (vm_compute; reflexivity).
  rewrite Hrun in claim.
  assert (Hne : TrimSpace "verbose level=info" <> EmptyString)
    by (vm_compute; discriminate).
  specialize (claim Hne eq_refl).
  apply (f_equal (fun r => match r with
                           | Some (Ok (Some m)) => m !! "verbose level"
                           | _ => None
                           end)) in claim.
  vm_compute in claim. discriminate claim.
Qed.


End LogfmtFacts.

(** ** The format sniffer *)

Section SniffFacts.

Import GoStrings GoIO main.

(** The scanner's passes never run out on the data of a reader: every
    token consumes its line feed. *)
Lemma scanLines_fuel (maxTokenSize : N) (fuel1 fuel2 : nat) (data : string) :
  len data < fuel1 -> len data < fuel2 ->
  scanLines maxTokenSize fuel1 data = scanLines maxTokenSize fuel2 data.
Proof.
  revert fuel2 data. induction fuel1 as [|fuel1 IH]; intros fuel2 data H1 H2; [lia|].
  destruct fuel2 as [|fuel2]; [lia|]. cbn [scanLines].
  destruct (IndexByte data newline) as [i|] eqn:Hidx; [|reflexivity].
  destruct (_ <? _)%N; [|reflexivity].
  apply IndexByte_lt in Hidx. pose proof (len_sliceFrom (S i) data).
  rewrite (IH fuel2); [reflexivity | lia | lia].
Qed.

(** Putting a line that was read back before the rest of the reader gives
    the reader as it was before the read. *)
Lemma MultiReader_ReadString (br : Reader) :
  MultiReader (ReadString br).1.1 (ReadString br).2 = br.
Proof.
  destruct br as [p f]. unfold ReadString, MultiReader. cbn [pending failure].
  destruct (IndexByte p newline) as [i|]; cbn [fst snd pending failure].
  - rewrite (sliceTo_sliceFrom (S i) p). reflexivity.
  - rewrite append_empty_r. reflexivity.
Qed.

(** [sniffFormat] returns on every reader: every pass that does not return
    has consumed a line. *)
Lemma sniffFormat_total (r : Reader) : exists s, sniffFormat r = Some s.
Proof.
  unfold sniffFormat.
  assert (Hgen : forall fuel br, len (pending br) < fuel ->
            exists s, sniffLoop fuel br = Some s).
  { induction fuel as [|fuel IH]; intros br Hlen; [lia|].
    cbn [sniffLoop].
    destruct br as [p f]. unfold ReadString. cbn [pending failure] in *.
    destruct (IndexByte p newline) as [i|] eqn:Hidx.
    - destruct (negb _); [destruct (HasPrefix _ _); eauto|].
      apply IH. cbn [pending].
      apply IndexByte_lt in Hidx.
      pose proof (len_sliceFrom (S i) p). lia.
    - destruct (negb _); [destruct (HasPrefix _ _); eauto|].
      destruct f; eauto. }
  apply Hgen. lia.
Qed.

(** When the first line of the input is not blank, the returned reader
    yields the whole input. *)
Lemma sniffFormat_first_line_kept (r : Reader) :
  TrimSpace (ReadString r).1.1 <> EmptyString ->
  exists fmt, sniffFormat r = Some (mkSniffed fmt (Some r) None).
Proof.
  intros Hne. unfold sniffFormat. cbn [sniffLoop].
  pose proof (MultiReader_ReadString r) as Hback.
  destruct (ReadString r) as [[line readErr] br'].
  cbn [fst snd] in *.
  destruct (String.eqb_spec (TrimSpace line) ""); [congruence|].
  cbn [negb]. rewrite Hback.
  destruct (HasPrefix _ _); eauto.
Qed.

(** In general the returned reader yields a suffix of the input: the lines
    read before the first non-blank line are not put back. *)
Lemma sniffLoop_suffix (fuel : nat) (br : Reader) (s : Sniffed) :
  sniffLoop fuel br = Some s -> err s = None ->
  exists rd skipped,
    reader s = Some rd /\ pending br = skipped +:+ pending rd.
Proof.
  revert br. induction fuel as [|fuel IH]; intros br; [discriminate|].
  cbn [sniffLoop].
  pose proof (MultiReader_ReadString br) as Hback.
  destruct (ReadString br) as [[line readErr] br'] eqn:Hread.
  cbn [fst snd] in *.
  destruct (negb _).
  - rewrite Hback.
    destruct (HasPrefix _ _); intros [= <-] _; exists br, EmptyString; auto.
  - destruct readErr.
    + intros Hloop Herr. destruct (IH _ Hloop Herr) as (rd & skipped & Hrd & Hp).
      exists rd, (line +:+ skipped). split; [exact Hrd|].
      rewrite append_assoc, <- Hp. rewrite <- Hback at 1. reflexivity.
    + intros [= <-] _. exists br', line. split; [reflexivity|].
      rewrite <- Hback at 1. reflexivity.
    + intros [= <-]. discriminate.
Qed.

(** C1 fails on the code: on an input that starts with two empty lines,
    the reader [sniffFormat] returns yields the input without them. *)
Theorem sniffFormat_drops_leading_blank_lines :
  let line := "level=error" +:+ String newline EmptyString in
  let input := String newline (String newline line) in
  (exists rd,
      sniffFormat (NewReader input) = Some (mkSniffed "logfmt" (Some rd) None)
      /\ ReadAll rd = (line, None))
  /\ line <> input.
Proof.
  split; [|discriminate].
  eexists. split; vm_compute; reflexivity.
Qed.

End SniffFacts.

(** ** Sorting *)

Section SortFacts.

Context {A : Type} (less : A -> A -> bool).

Lemma insertSorted_perm (x : A) (l : list A) :
  Permutation (insertSorted less x l) (x :: l).
Proof.
  induction l as [|y l IH]; simpl; [reflexivity|].
  destruct (less y x); [|reflexivity].
  rewrite IH. apply perm_swap.
Qed.

Lemma sortStable_perm (l : list A) : Permutation (sortStable less l) l.
Proof.
  induction l as [|x l IH]; simpl; [reflexivity|].
  rewrite insertSorted_perm. constructor. exact IH.
Qed.

(** Stability: elements that the order does not separate keep their
    relative order. *)
Lemma insertSorted_filter (keep : A -> bool) (x : A) (l : list A) :
  (forall y, In y l -> keep x = true -> keep y = true -> less y x = false) ->
  List.filter keep (insertSorted less x l)
  = if keep x then x :: List.filter keep l else List.filter keep l.
Proof.
  induction l as [|y l IH]; intros Hsame; simpl; [reflexivity|].
  destruct (less y x) eqn:Hyx.
  - simpl. rewrite IH by (intros z Hz; apply Hsame; right; exact Hz).
    destruct (keep x) eqn:Hx; [|reflexivity].
    destruct (keep y) eqn:Hy; [|reflexivity].
    rewrite Hsame in Hyx; [discriminate | left; reflexivity | reflexivity | exact Hy].
  - simpl. reflexivity.
Qed.

Lemma sortStable_stable (keep : A -> bool) (l : list A) :
  (forall x y, keep x = true -> keep y = true -> less y x = false) ->
  List.filter keep (sortStable less l) = List.filter keep l.
Proof.
  intros Hsame. induction l as [|x l IH]; simpl; [reflexivity|].
  rewrite insertSorted_filter by (intros; apply Hsame; assumption).
  rewrite IH. reflexivity.
Qed.

(** A stable sort has one possible result. When elements that the order
    does not separate are [tied], two sorted lists that list the tied
    elements of every class in the same order are equal: what
    [sort.SliceStable] promises determines what it returns. *)
Lemma stable_sorted_unique (tied : A -> A -> bool) (l1 l2 : list A) :
  (forall x, tied x x = true) ->
  (forall x y, less x y = false -> less y x = false -> tied x y = true) ->
  Permutation l1 l2 ->
  StronglySorted (fun a b => less b a = false) l1 ->
  StronglySorted (fun a b => less b a = false) l2 ->
  (forall x, List.filter (tied x) l1 = List.filter (tied x) l2) ->
  l1 = l2.
Proof.
  intros Hrefl Htied. revert l2.
  induction l1 as [|a l1 IH]; intros l2 Hperm H1 H2 Hsame.
  - apply Permutation_nil in Hperm. congruence.
  - destruct l2 as [|b l2].
    { symmetry in Hperm. apply Permutation_nil in Hperm. discriminate. }
    inversion H1 as [|? ? H1' Ha]; subst.
    inversion H2 as [|? ? H2' Hb]; subst.
    rewrite List.Forall_forall in Ha, Hb.
    assert (Hab : tied a b = true).
    { assert (Hin_a : In a (b :: l2))
        by (apply (Permutation_in _ Hperm); left; reflexivity).
      assert (Hin_b : In b (a :: l1))
        by (apply (Permutation_in _ (Permutation_sym Hperm)); left; reflexivity).
      destruct Hin_a as [->|Hin_a]; [apply Hrefl|].
      destruct Hin_b as [->|Hin_b]; [apply Hrefl|].
      apply Htied; [apply Hb | apply Ha]; assumption. }
    pose proof (Hsame a) as Hheads. cbn [List.filter] in Hheads.
    rewrite Hrefl, Hab in Hheads. injection Hheads as <- _.
    f_equal. apply IH; [|assumption|assumption|].
    + eapply Permutation_cons_inv. exact Hperm.
    + intros x. specialize (Hsame x). cbn [List.filter] in Hsame.
      destruct (tied x a); [injection Hsame as ->|]; congruence.
Qed.

Section Ordered.

Hypothesis less_asym : forall a b, less a b = true -> less b a = false.

Hypothesis notless_trans :
  forall a b c, less b a = false -> less c b = false -> less c a = false.

Lemma insertSorted_sorted (x : A) (l : list A) :
  StronglySorted (fun a b => less b a = false) l ->
  StronglySorted (fun a b => less b a = false) (insertSorted less x l).
Proof.
  induction 1 as [|y l Hsorted IH Hall]; simpl.
  - repeat constructor.
  - destruct (less y x) eqn:Hyx.
    + constructor; [exact IH|].
      rewrite List.Forall_forall in *. intros z Hz.
      apply (Permutation_in _ (insertSorted_perm x l)) in Hz.
      destruct Hz as [<-|Hz]; [apply less_asym; exact Hyx | apply Hall; exact Hz].
    + constructor; [constructor; assumption|].
      constructor; [exact Hyx|].
      rewrite List.Forall_forall in *. intros z Hz.
      apply (notless_trans x y z); [exact Hyx | apply Hall; exact Hz].
Qed.

Lemma sortStable_sorted (l : list A) :
  StronglySorted (fun a b => less b a = false) (sortStable less l).
Proof.
  induction l as [|x l IH]; simpl; [constructor|].
  apply insertSorted_sorted. exact IH.
Qed.

End Ordered.

(** In a strongly sorted list an earlier position holds a smaller-or-equal
    element. *)
Lemma StronglySorted_positions (R : A -> A -> Prop) (l : list A) (i j : nat) (a b : A) :
  StronglySorted R l -> l !! i = Some a -> l !! j = Some b -> i < j -> R a b.
Proof.
  intros Hsorted. revert i j.
  induction Hsorted as [|x l _ IH Hall]; intros i j Hi Hj Hlt; [discriminate|].
  destruct j as [|j]; [lia|]. simpl in Hj.
  destruct i as [|i].
  - injection Hi as <-. rewrite List.Forall_forall in Hall. apply Hall.
    apply list_elem_of_In. eapply list_elem_of_lookup_2. exact Hj.
  - simpl in Hi. apply (IH i j); [assumption | assumption | lia].
Qed.

(** Two strongly sorted lists with the same elements are equal when the
    order is asymmetric: the result of sorting rows that are pairwise
    ordered depends on neither the order they were listed in nor the
    sorting algorithm. *)
Lemma sorted_rows_unique (R : A -> A -> Prop) (l1 l2 : list A) :
  (forall a b, R a b -> R b a -> False) ->
  Permutation l1 l2 -> StronglySorted R l1 -> StronglySorted R l2 -> l1 = l2.
Proof.
  intros Hasym. revert l2.
  induction l1 as [|a l1 IH]; intros l2 Hperm H1 H2.
  - apply Permutation_nil in Hperm. congruence.
  - destruct l2 as [|b l2].
    { symmetry in Hperm. apply Permutation_nil in Hperm. discriminate. }
    inversion H1 as [|? ? H1' Ha]; subst.
    inversion H2 as [|? ? H2' Hb]; subst.
    rewrite List.Forall_forall in Ha, Hb.
    assert (Hab : a = b).
    { assert (Hin_a : In a (b :: l2))
        by (apply (Permutation_in _ Hperm); left; reflexivity).
      assert (Hin_b : In b (a :: l1))
        by (apply (Permutation_in _ (Permutation_sym Hperm)); left; reflexivity).
      destruct Hin_a as [Heq|Hin_a]; [congruence|].
      destruct Hin_b as [Heq|Hin_b]; [congruence|].
      exfalso. apply (Hasym a b); [apply Ha | apply Hb]; assumption. }
    subst b. f_equal. apply IH; [|assumption|assumption].
    eapply Permutation_cons_inv. exact Hperm.
Qed.

End SortFacts.

Lemma StronglySorted_weaken {A : Type} (R R' : A -> A -> Prop) (l : list A) :
  (forall a b, R a b -> R' a b) -> StronglySorted R l -> StronglySorted R' l.
Proof.
  intros Himpl. induction 1 as [|x l _ IH Hall]; constructor; [exact IH|].
  rewrite List.Forall_forall in Hall |- *. intros y Hy. apply Himpl, Hall, Hy.
Qed.

(** Dropping elements keeps a list sorted. *)
Lemma filter_sorted {A : Type} (R : A -> A -> Prop) (keep : A -> bool) (l : list A) :
  StronglySorted R l -> StronglySorted R (List.filter keep l).
Proof.
  induction 1 as [|x l _ IH Hall]; simpl; [constructor|].
  destruct (keep x); [|exact IH].
  constructor; [exact IH|].
  rewrite List.Forall_forall in Hall |- *. intros y Hy.
  apply Hall. apply filter_In in Hy. tauto.
Qed.

(** ** The order of strings *)

Section StringOrder.

Lemma ascii_compare_refl (c : ascii) : Ascii.compare c c = Eq.
Proof. unfold Ascii.compare. apply N.compare_refl. Qed.

Lemma string_compare_refl (s : string) : String.compare s s = Eq.
Proof.
  induction s as [|c s IH]; simpl; [reflexivity|].
  rewrite ascii_compare_refl. exact IH.
Qed.

Lemma string_compare_trans (a b c : string) :
  String.compare a b = Lt -> String.compare b c = Lt -> String.compare a c = Lt.
Proof.
  revert b c. induction a as [|x a IH]; intros [|y b] [|z c]; simpl;
    try discriminate; try reflexivity.
  unfold Ascii.compare.
  destruct (N.compare_spec (N_of_ascii x) (N_of_ascii y)) as [Hxy|Hxy|Hxy];
    try discriminate;
    destruct (N.compare_spec (N_of_ascii y) (N_of_ascii z)) as [Hyz|Hyz|Hyz];
    try discriminate; intros H1 H2.
  - rewrite Hxy, Hyz, N.compare_refl. eapply IH; eassumption.
  - rewrite Hxy. apply N.compare_lt_iff in Hyz. rewrite Hyz. reflexivity.
  - rewrite <- Hyz. apply N.compare_lt_iff in Hxy. rewrite Hxy. reflexivity.
  - assert (Hxz : (N_of_ascii x < N_of_ascii z)%N) by lia.
    apply N.compare_lt_iff in Hxz. rewrite Hxz. reflexivity.
Qed.

Lemma lt_asym (a b : string) : GoStrings.lt a b = true -> GoStrings.lt b a = false.
Proof.
  unfold GoStrings.lt, String.ltb. rewrite (String.compare_antisym a b).
  destruct (String.compare b a); simpl; congruence.
Qed.

Lemma lt_trans (a b c : string) :
  GoStrings.lt a b = true -> GoStrings.lt b c = true -> GoStrings.lt a c = true.
Proof.
  unfold GoStrings.lt, String.ltb.
  destruct (String.compare a b) eqn:Hab; try discriminate.
  destruct (String.compare b c) eqn:Hbc; try discriminate.
  rewrite (string_compare_trans a b c Hab Hbc). reflexivity.
Qed.

Lemma lt_total (a b : string) :
  a <> b -> GoStrings.lt a b = true \/ GoStrings.lt b a = true.
Proof.
  intros Hne. unfold GoStrings.lt, String.ltb.
  rewrite (String.compare_antisym b a).
  destruct (String.compare a b) eqn:Hab; simpl; auto.
  apply String.compare_eq_iff in Hab. contradiction.
Qed.

End StringOrder.

(** ** Statistics *)

Section StatsFacts.

Import main.

Context `{GoFloat}.

Lemma wrap_small (z : Z) : (0 <= z < 2 ^ 63)%Z -> GoInt.wrap z = z.
Proof.
  intros Hz. unfold GoInt.wrap.
  rewrite Z.mod_small by lia. lia.
Qed.

Lemma countedUnder_statKey (field : string) (e : LogEntry) (label : string) :
  countedUnder field e label = String.eqb (statKey field e) label.
Proof. unfold countedUnder, statKey. destruct (fields e !! field); reflexivity. Qed.

(** The counters after the first loop of [collectStats]: each label holds
    what it held before plus its occurrences, as long as the counters stay
    below [2^63]. *)
Lemma tally_lookup (match_ : LogEntry -> bool) (field : string)
    (entries : list LogEntry) (counts : gmap string Z) (seen : Z) (label : string) :
  (0 <= seen)%Z ->
  (seen + Z.of_nat (length entries) < 2 ^ 63)%Z ->
  (forall k c, counts !! k = Some c -> (0 < c <= seen)%Z) ->
  tally match_ field entries counts !! label
  = let total := (default 0 (counts !! label)
                  + Z.of_nat (occurrences match_ field entries label))%Z in
    if (total =? 0)%Z then None else Some total.
Proof.
  revert counts seen.
  induction entries as [|e entries IH]; intros counts seen Hseen Hbound Hinv.
  - cbn [tally occurrences List.filter length]. cbv zeta.
    destruct (counts !! label) as [c|] eqn:Hc; cbn [default from_option id].
    + specialize (Hinv _ _ Hc). rewrite Z.add_0_r.
      destruct (Z.eqb_spec c 0); [lia | reflexivity].
    + reflexivity.
  - cbn [tally]. unfold occurrences. cbn [List.filter].
    cbn [length] in Hbound.
    destruct (match_ e) eqn:Hm; cbn [andb].
    + assert (Hincr : GoInt.incr (default 0%Z (counts !! statKey field e))
                      = (default 0 (counts !! statKey field e) + 1)%Z).
      { unfold GoInt.incr. apply wrap_small.
        destruct (counts !! statKey field e) as [c|] eqn:Hc; cbn [default from_option id].
        - specialize (Hinv _ _ Hc). lia.
        - lia. }
      rewrite (IH _ (seen + 1)%Z); [|lia|lia|].
      * cbv zeta. rewrite countedUnder_statKey.
        destruct (String.eqb_spec (statKey field e) label) as [Heq|Hne].
        -- subst label. rewrite lookup_insert_eq, Hincr.
           cbn [default from_option id length].
           fold (occurrences match_ field entries (statKey field e)).
           replace (default 0 (counts !! statKey field e) + 1
                    + Z.of_nat (occurrences match_ field entries (statKey field e)))%Z
             with (default 0 (counts !! statKey field e)
                   + Z.of_nat (S (occurrences match_ field entries (statKey field e))))%Z
             by lia.
           reflexivity.
        -- rewrite lookup_insert_ne by exact Hne. reflexivity.
      * intros k c. rewrite Hincr.
        destruct (decide (statKey field e = k)) as [->|Hne].
        -- rewrite lookup_insert_eq. intros [= <-].
           destruct (counts !! k) as [c|] eqn:Hc; cbn [default from_option id].
           ++ specialize (Hinv _ _ Hc). lia.
           ++ lia.
        -- rewrite lookup_insert_ne by exact Hne. intros Hc.
           specialize (Hinv _ _ Hc). lia.
    + rewrite (IH _ seen); [reflexivity | lia | lia | exact Hinv].
Qed.

Lemma statLess_spec (a b : statEntry) :
  statLess a b = true
  <-> (Count b < Count a)%Z
      \/ (Count a = Count b /\ GoStrings.lt (Value a) (Value b) = true).
Proof.
  unfold statLess.
  destruct (Z.eqb_spec (Count a) (Count b)) as [Heq|Hne]; cbn [negb].
  - split; [intros Hlt; right; auto | intros [Hlt|[_ Hlt]]; [lia | exact Hlt]].
  - rewrite Z.ltb_lt. split; [auto | intros [Hlt|[Heq _]]; [exact Hlt | lia]].
Qed.

Lemma lt_false (a b : string) :
  GoStrings.lt a b = false -> a = b \/ GoStrings.lt b a = true.
Proof.
  intros Hab. destruct (String.eqb_spec a b) as [|Hne]; [left; assumption|].
  destruct (lt_total a b Hne) as [Hlt|Hlt]; [congruence | right; exact Hlt].
Qed.

Lemma statLess_asym (a b : statEntry) :
  statLess a b = true -> statLess b a = false.
Proof.
  intros Hab. apply not_true_iff_false. intros Hba.
  apply statLess_spec in Hab, Hba.
  destruct Hab as [Hab|[Hc Hab]], Hba as [Hba|[Hc' Hba]]; try lia.
  apply lt_asym in Hab. congruence.
Qed.

Lemma statLess_notless_trans (a b c : statEntry) :
  statLess b a = false -> statLess c b = false -> statLess c a = false.
Proof.
  intros Hba Hcb. apply not_true_iff_false. intros Hca.
  apply not_true_iff_false in Hba, Hcb.
  rewrite statLess_spec in Hba, Hcb, Hca.
  assert (Hab_c : (Count b <= Count a)%Z) by lia.
  assert (Hbc_c : (Count c <= Count b)%Z) by lia.
  destruct Hca as [Hca|[Hcount Hca]]; [lia|].
  assert (Hba' : GoStrings.lt (Value b) (Value a) = false).
  { apply not_true_iff_false. intros Hlt. apply Hba. right. split; [lia|exact Hlt]. }
  assert (Hcb' : GoStrings.lt (Value c) (Value b) = false).
  { apply not_true_iff_false. intros Hlt. apply Hcb. right. split; [lia|exact Hlt]. }
  destruct (lt_false _ _ Hba') as [Heq|Hlt].
  - rewrite Heq in Hcb'. congruence.
  - pose proof (lt_trans _ _ _ Hca Hlt). congruence.
Qed.

Lemma statLess_total (a b : statEntry) :
  Value a <> Value b -> statLess b a = false -> statLess a b = true.
Proof.
  intros Hne Hba. apply not_true_iff_false in Hba.
  rewrite statLess_spec in Hba. apply statLess_spec.
  destruct (Z.lt_trichotomy (Count a) (Count b)) as [Hlt|[Heq|Hgt]].
  - exfalso. apply Hba. left. exact Hlt.
  - right. split; [exact Heq|].
    destruct (lt_total _ _ Hne) as [Hlt|Hlt]; [exact Hlt|].
    exfalso. apply Hba. right. split; [lia | exact Hlt].
  - left. exact Hgt.
Qed.

(** Rows that are sorted up to ties and pairwise different in a key are
    strictly sorted. *)
Lemma sorted_strict {A B : Type} (R R' : A -> A -> Prop) (key : A -> B) (l : list A) :
  (forall a b, R a b -> key a <> key b -> R' a b) ->
  StronglySorted R l -> NoDup (map key l) -> StronglySorted R' l.
Proof.
  intros Hstrict. induction 1 as [|x l _ IH Hall]; intros Hnodup; [constructor|].
  cbn [map] in Hnodup. apply NoDup_cons in Hnodup as [Hnotin Hnodup].
  constructor; [apply IH; exact Hnodup|].
  rewrite List.Forall_forall in *. intros y Hy.
  apply Hstrict; [apply Hall; exact Hy|].
  intros Heq. apply Hnotin. rewrite Heq.
  apply list_elem_of_In. apply in_map. exact Hy.
Qed.

(** The rows of [collectStats] are strictly sorted, and any sorted listing
    of the counters is that list of rows: the result depends on neither the
    order in which the map is ranged over nor the sorting algorithm. *)
Lemma collectStats_strictly_sorted
    (entries : list LogEntry) (match_ : LogEntry -> bool) (field : string) :
  StronglySorted (fun a b => statLess a b = true)
    (collectStats entries match_ field).
Proof.
  unfold collectStats.
  set (rows := map (fun kv : string * Z => mkStatEntry kv.1 kv.2)
                 (map_to_list (tally match_ field entries ∅))).
  apply (sorted_strict (fun a b => statLess b a = false) _ Value).
  - intros a b Hnot Hne. apply statLess_total; assumption.
  - apply sortStable_sorted; [apply statLess_asym | apply statLess_notless_trans].
  - rewrite (Permutation_map Value (sortStable_perm statLess rows)).
    unfold rows. rewrite map_map. cbn [Value].
    apply NoDup_fst_map_to_list.
Qed.

Lemma collectStats_unique
    (entries : list LogEntry) (match_ : LogEntry -> bool) (field : string)
    (rows : list statEntry) :
  Permutation rows
    (map (fun kv : string * Z => mkStatEntry kv.1 kv.2)
       (map_to_list (tally match_ field entries ∅))) ->
  StronglySorted (fun a b => statLess a b = true) rows ->
  rows = collectStats entries match_ field.
Proof.
  intros Hperm Hsorted.
  apply (sorted_rows_unique (fun a b => statLess a b = true)).
  - intros a b Hab Hba. apply statLess_asym in Hab. congruence.
  - rewrite Hperm. symmetry. apply sortStable_perm.
  - exact Hsorted.
  - apply collectStats_strictly_sorted.
Qed.

(** C6: [collectStats] has one row per label that occurs, holding the
    number of matching entries counted under it (the string form of the
    field's value, or the reserved label for an entry without the field);
    the rows are in decreasing order of count and, among equal counts, in
    increasing order of label; the specification's example gives
    [info 3, warn 2, error 1]. The counts are exact for fewer than [2^63]
    entries. *)
Theorem collectStats_tally_and_order
    (entries : list LogEntry) (match_ : LogEntry -> bool) (field : string) :
  (Z.of_nat (length entries) < 2 ^ 63)%Z ->
  (forall label n,
      In (mkStatEntry label n) (collectStats entries match_ field)
      <-> n = Z.of_nat (occurrences match_ field entries label) /\ (0 < n)%Z)
  /\ StronglySorted
       (fun a b => (Count b < Count a)%Z
                   \/ (Count a = Count b /\ GoStrings.lt (Value a) (Value b) = true))
       (collectStats entries match_ field)
  /\ collectStats exampleLevels (fun _ => true) "level"
     = [mkStatEntry "info" 3; mkStatEntry "warn" 2; mkStatEntry "error" 1].
Proof.
  intros Hbound. unfold collectStats.
  set (counts := tally match_ field entries ∅).
  set (rows := map (fun kv : string * Z => mkStatEntry kv.1 kv.2) (map_to_list counts)).
  assert (Hperm : Permutation (sortStable statLess rows) rows)
    by apply sortStable_perm.
  split; [|split].
  - intros label n.
    assert (Hcount : counts !! label
                     = if (Z.of_nat (occurrences match_ field entries label) =? 0)%Z
                       then None
                       else Some (Z.of_nat (occurrences match_ field entries label))).
    { unfold counts. rewrite (tally_lookup _ _ _ _ 0%Z); [|lia|lia|].
      - cbv zeta. rewrite lookup_empty. reflexivity.
      - intros k c. rewrite lookup_empty. discriminate. }
    assert (Hrow : In (mkStatEntry label n) rows <-> counts !! label = Some n).
    { unfold rows. rewrite in_map_iff. split.
      - intros ([k c] & [= <- <-] & Hin).
        apply list_elem_of_In, elem_of_map_to_list in Hin. exact Hin.
      - intros Hl. exists (label, n). split; [reflexivity|].
        apply list_elem_of_In, elem_of_map_to_list. exact Hl. }
    split.
    + intros Hin. apply (Permutation_in _ Hperm) in Hin.
      apply Hrow in Hin. rewrite Hcount in Hin.
      destruct (Z.eqb_spec (Z.of_nat (occurrences match_ field entries label)) 0);
        [discriminate|].
      injection Hin as <-. lia.
    + intros [-> Hpos]. apply (Permutation_in _ (Permutation_sym Hperm)).
      apply Hrow. rewrite Hcount.
      destruct (Z.eqb_spec (Z.of_nat (occurrences match_ field entries label)) 0);
        [lia | reflexivity].
  - pose proof (collectStats_strictly_sorted entries match_ field) as Hstrict.
    unfold collectStats in Hstrict. fold counts rows in Hstrict.
    eapply StronglySorted_weaken; [|exact Hstrict].
    intros a b Hab. apply statLess_spec. exact Hab.
  - vm_compute. reflexivity.
Qed.

End StatsFacts.

Lemma collectStats_witness :
  main.collectStats (H := RefRuntime.refFloat) exampleLevels (fun _ => true) "level"
  = [main.mkStatEntry "info" 3; main.mkStatEntry "warn" 2; main.mkStatEntry "error" 1].
Proof.
  refine (proj2 (proj2 (collectStats_tally_and_order
                          (H := RefRuntime.refFloat)
                          exampleLevels (fun _ => true) "level" _))).
  vm_compute. reflexivity.
Defined.

(** ** The merge order *)

Section MergeFacts.

Import main.

Context `{GoFloat} `{GoTimeParse}.

Lemma Before_asym (a b : mergedEntry) :
  mergedLess a b = true -> mergedLess b a = false.
Proof. unfold mergedLess, Before. lia. Qed.

Lemma Before_notless_trans (a b c : mergedEntry) :
  mergedLess b a = false -> mergedLess c b = false -> mergedLess c a = false.
Proof. unfold mergedLess, Before. lia. Qed.

Lemma sameInstant_not_Before (tau : Time) (a b : mergedEntry) :
  sameInstant tau (t a) = true -> sameInstant tau (t b) = true ->
  mergedLess b a = false.
Proof. unfold sameInstant, mergedLess, Before. lia. Qed.

Lemma timestampFrom_unusable (keys : list string) (e : LogEntry) :
  (forall key, In key keys ->
     match fields e !! key with
     | Some v => valueTimestamp v = None
     | None => True
     end) ->
  timestampFrom keys e = (Done zeroTime, e).
Proof.
  induction keys as [|key keys IH]; intros Hno; [reflexivity|].
  cbn [timestampFrom]. unfold bind, lookupField.
  pose proof (Hno key (or_introl eq_refl)) as Hkey.
  destruct (fields e !! key) as [v|].
  - rewrite Hkey. apply IH. intros k Hk. apply Hno. right. exact Hk.
  - apply IH. intros k Hk. apply Hno. right. exact Hk.
Qed.

Lemma timestampFrom_reads (keys : list string) : reads (timestampFrom keys).
Proof.
  induction keys as [|key keys IH]; cbn [timestampFrom]; [auto with frame|].
  apply reads_bind; [auto with frame|].
  intros [val|]; [|exact IH].
  destruct (valueTimestamp val); [auto with frame | exact IH].
Qed.

(** What [loadEntries] builds: the entries in the order they were parsed,
    each with the field [_source] added and with the time
    [parseTimestampForSort] gives it. *)
Lemma loadParsed_loaded (source : string) (entries : list LogEntry)
    (all : list mergedEntry) :
  loadParsed source entries = Done all ->
  loaded all
  /\ map entry all
     = map (fun e : LogEntry => Some (<["_source" := VString source]> (fields e)))
         entries.
Proof.
  revert all. induction entries as [|e entries IH]; intros all; cbn [loadParsed].
  - intros [= <-]. split; [intros me [] | reflexivity].
  - destruct (tagEntry source e) as [[parsedTime|msg] e'] eqn:Htag; [|discriminate].
    destruct (loadParsed source entries) as [rest|msg]; [|discriminate].
    destruct (IH rest eq_refl) as [IHloaded IHmap].
    unfold tagEntry, bind, storeField in Htag.
    destruct e as [m|]; [|discriminate].
    destruct (timestampFrom_reads ["time"; "ts"; "timestamp"]
                (Some (<["_source" := VString source]> m))) as [parsed Hparse].
    fold parseTimestampForSort in Hparse. rewrite Hparse in Htag.
    injection Htag as <- <-.
    intros [= <-]. split.
    + intros me [<-|Hin]; [|apply IHloaded; exact Hin].
      cbn [entry t]. rewrite Hparse. reflexivity.
    + cbn [map entry fields]. rewrite IHmap. reflexivity.
Qed.

(** The order is the one every stable sort by [Before] produces. *)
Lemma mergeOrder_unique (all out : list mergedEntry) :
  Permutation out all ->
  StronglySorted (fun a b => Before (t b) (t a) = false) out ->
  (forall tau,
      List.filter (fun me => sameInstant tau (t me)) out
      = List.filter (fun me => sameInstant tau (t me)) all) ->
  out = mergeOrder all.
Proof.
  intros Hperm Hsorted Hstable.
  apply (stable_sorted_unique mergedLess (fun x y => sameInstant (t x) (t y))).
  - intros x. unfold sameInstant. lia.
  - intros x y. unfold mergedLess, Before, sameInstant. lia.
  - rewrite Hperm. symmetry. apply sortStable_perm.
  - exact Hsorted.
  - apply sortStable_sorted; [apply Before_asym | apply Before_notless_trans].
  - intros x. rewrite (Hstable (t x)). symmetry. apply sortStable_stable.
    intros a b Ha Hb. exact (sameInstant_not_Before (t x) a b Ha Hb).
Qed.

Lemma filter_filter_comm {A : Type} (p q : A -> bool) (l : list A) :
  List.filter p (List.filter q l) = List.filter q (List.filter p l).
Proof.
  induction l as [|x l IH]; [reflexivity|]. cbn [List.filter].
  destruct (q x) eqn:Hq, (p x) eqn:Hp; cbn [List.filter];
    rewrite ?Hq, ?Hp, IH; reflexivity.
Qed.

(** C7, as the code has it: the merge pipeline sends the loaded entries on
    in the order of a stable sort by parsed time: the same entries, no
    entry later than one that follows it, and entries of the same instant
    in the order they were loaded; the entries that pass the filter are
    emitted in that order. An entry without a usable timestamp carries the
    zero time (January 1 of year 1), so it comes before every entry whose
    time is after the zero time. *)
Theorem merge_order_is_stable_sort (all : list mergedEntry) :
  loaded all ->
  Permutation (mergeOrder all) all
  /\ StronglySorted (fun a b => Before (t b) (t a) = false) (mergeOrder all)
  /\ (forall tau,
        List.filter (fun me => sameInstant tau (t me)) (mergeOrder all)
        = List.filter (fun me => sameInstant tau (t me)) all)
  /\ (forall match_,
        StronglySorted (fun a b => Before (t b) (t a) = false) (emitted match_ all)
        /\ forall tau,
             List.filter (fun me => sameInstant tau (t me)) (emitted match_ all)
             = List.filter (fun me => sameInstant tau (t me))
                 (List.filter (fun me => match_ (entry me)) all))
  /\ (forall me, In me all -> timestampless (entry me) -> t me = zeroTime)
  /\ (forall i j a b,
        mergeOrder all !! i = Some a -> mergeOrder all !! j = Some b ->
        t a = zeroTime -> Before zeroTime (t b) = true -> i < j).
Proof.
  intros Hloaded.
  assert (Hsorted : StronglySorted (fun a b => mergedLess b a = false)
                      (mergeOrder all)).
  { apply sortStable_sorted; [apply Before_asym | apply Before_notless_trans]. }
  assert (Hstable : forall tau,
             List.filter (fun me => sameInstant tau (t me)) (mergeOrder all)
             = List.filter (fun me => sameInstant tau (t me)) all).
  { intros tau. apply sortStable_stable.
    intros x y Hx Hy. exact (sameInstant_not_Before tau x y Hx Hy). }
  split; [apply sortStable_perm|].
  split; [exact Hsorted|].
  split; [exact Hstable|].
  split; [|split].
  - intros match_. unfold emitted. split.
    + apply filter_sorted. exact Hsorted.
    + intros tau. rewrite filter_filter_comm, Hstable. apply filter_filter_comm.
  - intros me Hin Hless. specialize (Hloaded me Hin).
    unfold parseTimestampForSort in Hloaded.
    rewrite (timestampFrom_unusable _ _ Hless) in Hloaded.
    injection Hloaded as <-. reflexivity.
  - intros i j a b Hi Hj Hzero Hafter.
    destruct (Nat.lt_trichotomy i j) as [Hlt|[Heq|Hgt]]; [exact Hlt| |].
    + subst j. rewrite Hi in Hj. injection Hj as <-.
      rewrite Hzero in Hafter. discriminate Hafter.
    + pose proof (StronglySorted_positions _ _ _ _ _ _ Hsorted Hj Hi Hgt) as Hba.
      unfold mergedLess in Hba. rewrite Hzero in Hba. congruence.
Qed.

End MergeFacts.

Lemma merge_order_witness :
  let all :=
    [main.mkMergedEntry (Some {["time" := VString "1970-01-01T00:00:00Z"]})
       (mkTime 62135596800 0 0);
     main.mkMergedEntry (Some {["msg" := VString "started"]}) zeroTime] in
  loaded (H := RefRuntime.refFloat) (H0 := RefRuntime.refTimeParse) all
  /\ Permutation (main.mergeOrder all) all
  /\ StronglySorted (fun a b => Before (main.t b) (main.t a) = false)
       (main.mergeOrder all).
Proof.
  cbv zeta.
  assert (Hloaded :
            loaded (H := RefRuntime.refFloat) (H0 := RefRuntime.refTimeParse)
              [main.mkMergedEntry (Some {["time" := VString "1970-01-01T00:00:00Z"]})
                 (mkTime 62135596800 0 0);
               main.mkMergedEntry (Some {["msg" := VString "started"]}) zeroTime]).
  { intros me [<-|[<-|[]]]; vm_compute; reflexivity. }
  split; [exact Hloaded|].
  pose proof (merge_order_is_stable_sort
                (H := RefRuntime.refFloat) (H0 := RefRuntime.refTimeParse)
                _ Hloaded) as (Hperm & Hsorted & _).
  split; [exact Hperm | exact Hsorted].
Defined.

(** C7 as the specification words it is not what the code does: a record
    without a timestamp is not always first. A timestamp of year 0 parses
    to a time before the zero time, and its record is sent on before a
    record that has no timestamp at all. *)
Lemma year_zero_precedes_timestampless :
  let plain : LogEntry := Some {["msg" := VString "started"]} in
  let ancient : LogEntry := Some {["time" := VString "0000-01-01T00:00:00Z"]} in
  exists a b,
    main.loadParsed (H := RefRuntime.refFloat) (H0 := RefRuntime.refTimeParse)
      "app.log" [plain; ancient] = Done [a; b]
    /\ timestampless (H := RefRuntime.refFloat) (H0 := RefRuntime.refTimeParse)
         (main.entry a)
    /\ main.valueTimestamp (H := RefRuntime.refFloat) (H0 := RefRuntime.refTimeParse)
         (VString "0000-01-01T00:00:00Z") = Some (main.t b)
    /\ main.mergeOrder [a; b] = [b; a].
Proof.
  do 2 eexists. split; [vm_compute; reflexivity|].
  split; [|split; vm_compute; reflexivity].
  intros key [<-|[<-|[<-|[]]]]; vm_compute; exact I.
Qed.

(** ** The filter compiler and [Match] *)

Section FilterFacts.

Import GoStrings filter.

Context `{GoFloat} `{GoRegexp}.

Lemma prefix_split (p s : string) :
  String.prefix p s = true -> s = p +:+ sliceFrom (len p) s.
Proof.
  revert s. induction p as [|c p IH]; intros s; [reflexivity|].
  destruct s as [|d s]; cbn [String.prefix]; [discriminate|].
  destruct (ascii_dec c d) as [->|]; [|discriminate].
  intros Hp. rewrite append_cons. cbn [len String.length sliceFrom].
  f_equal. apply IH. exact Hp.
Qed.

(** [Index] finds an occurrence: the text is what stands before it, the
    string sought, and what stands after it. *)
Lemma Index_split (s sub : string) (i : nat) :
  Index s sub = Some i ->
  s = sliceTo i s +:+ sub +:+ sliceFrom (i + len sub) s.
Proof.
  revert i. induction s as [|c s IH]; intros i.
  - cbn [Index]. destruct (String.prefix sub "") eqn:Hp; [|discriminate].
    intros [= <-]. apply prefix_split in Hp. exact Hp.
  - cbn [Index]. destruct (String.prefix sub (String c s)) eqn:Hp.
    + intros [= <-]. apply prefix_split in Hp. exact Hp.
    + destruct (Index s sub) as [j|]; [|discriminate].
      intros [= <-]. cbn [sliceTo sliceFrom Nat.add].
      rewrite append_cons. f_equal. apply IH. reflexivity.
Qed.

(** No occurrence starts before the one [Index] finds. *)
Lemma Index_leftmost (s sub : string) (i j : nat) :
  Index s sub = Some i -> j < i -> String.prefix sub (sliceFrom j s) = false.
Proof.
  revert i j. induction s as [|c s IH]; intros i j.
  - cbn [Index]. destruct (String.prefix sub ""); [|discriminate].
    intros [= <-]. lia.
  - cbn [Index]. destruct (String.prefix sub (String c s)) eqn:Hp.
    + intros [= <-]. lia.
    + destruct (Index s sub) as [k|] eqn:Hk; [|discriminate].
      intros [= <-] Hlt. destruct j as [|j]; [exact Hp|].
      cbn [sliceFrom]. apply (IH k); [reflexivity | lia].
Qed.

Lemma tryOperators_skip (expression : string) (skipped ops : list string) :
  List.Forall (fun op => Index expression op = None) skipped ->
  tryOperators expression (skipped ++ ops) = tryOperators expression ops.
Proof.
  induction 1 as [|op skipped Hop _ IH]; [reflexivity|].
  cbn [app tryOperators]. rewrite Hop. exact IH.
Qed.

(** C4: [NewFieldFilter] takes the first operator of the list
    [!=, ~, >=, <=, =, >, <] that occurs in the expression, whatever its
    position, and splits at its leftmost occurrence into field, operator
    and value (for [~] the value must compile as a regular expression);
    an expression in which none occurs is an error; and the two examples
    of the specification. *)
Theorem NewFieldFilter_operator_priority :
  operators = ["!="; "~"; ">="; "<="; "="; ">"; "<"]
  /\ (forall expression earlier op later idx,
        operators = earlier ++ op :: later ->
        List.Forall (fun o => Index expression o = None) earlier ->
        Index expression op = Some idx ->
        let field := sliceTo idx expression in
        let value := sliceFrom (idx + len op) expression in
        expression = field +:+ op +:+ value
        /\ (forall j, j < idx -> String.prefix op (sliceFrom j expression) = false)
        /\ NewFieldFilter expression
           = if String.eqb op "~" then
               match regexp_Compile value with
               | Ok compiled => Ok (mkFieldFilter (Some compiled) field op value)
               | Err err => Err ("invalid regex in filter: " +:+ err)
               end
             else Ok (mkFieldFilter None field op value))
  /\ (forall expression,
        List.Forall (fun o => Index expression o = None) operators ->
        NewFieldFilter expression
        = Err ("invalid filter expression: " +:+ expression))
  /\ NewFieldFilter "level!=error" = Ok (mkFieldFilter None "level" "!=" "error")
  /\ NewFieldFilter "count>=10" = Ok (mkFieldFilter None "count" ">=" "10").
Proof.
  split; [reflexivity|]. split; [|split; [|split; reflexivity]].
  - intros expression earlier op later idx Hops Hearlier Hidx. cbv zeta.
    split; [apply Index_split; exact Hidx|].
    split; [intros j Hj; apply (Index_leftmost _ _ _ _ Hidx Hj)|].
    unfold NewFieldFilter. rewrite Hops.
    rewrite (tryOperators_skip _ _ _ Hearlier).
    cbn [tryOperators]. rewrite Hidx.
    destruct (String.eqb op "~"); [|reflexivity].
    destruct (regexp_Compile _); reflexivity.
  - intros expression Hnone. unfold NewFieldFilter.
    rewrite <- (app_nil_r operators).
    rewrite (tryOperators_skip _ _ _ Hnone). reflexivity.
Qed.

(** C5: on a record without the filter's field, [Match] is false for
    every operator, and for every [FieldFilter] value, compiled or not. *)
Theorem missing_field_never_matches (f : FieldFilter) (entry : LogEntry) :
  fields entry !! Field f = None ->
  FieldFilter_Match f entry = (Done false, entry).
Proof.
  intros Hmissing. unfold FieldFilter_Match, bind, lookupField.
  rewrite Hmissing. reflexivity.
Qed.

End FilterFacts.

Lemma missing_field_witness :
  filter.FieldFilter_Match (H := RefRuntime.refFloat) (H0 := RefRuntime.refRegexp)
    (filter.mkFieldFilter None "level" "!=" "error")
    (Some {["msg" := VString "started"]})
  = (Done false, Some {["msg" := VString "started"]}).
Proof.
  apply (missing_field_never_matches
           (H := RefRuntime.refFloat) (H0 := RefRuntime.refRegexp)
           (filter.mkFieldFilter None "level" "!=" "error")
           (Some {["msg" := VString "started"]})).
  vm_compute. reflexivity.
Defined.

(** ** Who changes a record *)

Section FrameFacts.

Import filter formatter main.

Context `{GoFloat} `{GoTimeParse} `{GoJSONEncoder} `{GoRegexp} `{GoUnicode}.

Lemma FieldFilter_Match_readOnly (f : FieldFilter) : readOnly (FieldFilter_Match f).
Proof.
  unfold FieldFilter_Match.
  apply readOnly_bind; [auto with frame|].
  intros [value|]; [|auto with frame].
  unfold compareWith.
  repeat match goal with
         | |- readOnly (if ?b then _ else _) => destruct b
         end;
    try destruct (re f); auto with frame.
Qed.

Lemma Filter_Match_readOnly : forall flt : Filter, readOnly (Filter_Match flt).
Proof.
  fix IH 1. intros [f|fs]; cbn [Filter_Match].
  - apply FieldFilter_Match_readOnly.
  - revert fs. fix IHfs 1. intros [|g fs].
    + apply readOnly_ret.
    + apply readOnly_bind; [apply IH|].
      intros matched. destruct (negb matched); [apply readOnly_ret | apply IHfs].
Qed.

Lemma extractString_reads (keys : list string) : reads (extractString keys).
Proof.
  induction keys as [|key keys IH]; cbn [extractString]; [auto with frame|].
  apply reads_bind; [auto with frame|].
  intros [val|]; [auto with frame | exact IH].
Qed.

Lemma requestedExtras_reads (fieldList : list string) :
  reads (requestedExtras fieldList).
Proof.
  induction fieldList as [|field rest IH]; cbn [requestedExtras]; [auto with frame|].
  apply reads_bind; [auto with frame|]. intros found.
  apply reads_bind; [exact IH|]. intros extras.
  destruct found; auto with frame.
Qed.

Lemma renderPairs_reads (keys : list string) : reads (renderPairs keys).
Proof.
  induction keys as [|k rest IH]; cbn [renderPairs]; [auto with frame|].
  apply reads_bind; [auto with frame|]. intros found.
  apply reads_bind; [exact IH|]. intros extras. auto with frame.
Qed.

Lemma logfmtParts_reads (keys : list string) : reads (logfmtParts keys).
Proof.
  induction keys as [|k rest IH]; cbn [logfmtParts]; [auto with frame|].
  apply reads_bind; [auto with frame|]. intros found.
  apply reads_bind; [exact IH|]. intros parts. cbv zeta. auto with frame.
Qed.

Lemma JSONFormatter_Format_reads (f : JSONFormatter) (w : GoIO.Writer) :
  reads (JSONFormatter_Format f w).
Proof.
  unfold JSONFormatter_Format.
  apply reads_bind; [auto with frame|]. intros entry.
  destruct (if Pretty f then _ else _); auto with frame.
Qed.

Lemma TextFormatter_Format_reads (f : TextFormatter) (w : GoIO.Writer) :
  reads (TextFormatter_Format f w).
Proof.
  unfold TextFormatter_Format.
  apply reads_bind; [apply extractString_reads|]. intros timestamp.
  apply reads_bind; [apply extractString_reads|]. intros level.
  apply reads_bind; [apply extractString_reads|]. intros message.
  cbv zeta.
  apply reads_bind; [|intros extras; auto with frame].
  destruct (0 <? length (Fields f)); [apply requestedExtras_reads|].
  apply reads_bind; [auto with frame|]. intros all. apply renderPairs_reads.
Qed.

Lemma LogfmtFormatter_Format_reads (w : GoIO.Writer) :
  reads (LogfmtFormatter_Format w).
Proof.
  unfold LogfmtFormatter_Format.
  apply reads_bind; [auto with frame|]. intros keys.
  apply reads_bind; [apply logfmtParts_reads|]. intros parts. auto with frame.
Qed.

(** C9: evaluating a [FieldFilter] or a [CompositeFilter] and rendering
    with any of the three formatters leave the record as it was, key for
    key and value for value; [loadEntries], in merge mode, adds the field
    [_source] to each record and changes nothing else. *)
Theorem only_loadEntries_changes_a_record (entry : LogEntry) :
  (forall f : FieldFilter, (FieldFilter_Match f entry).2 = entry)
  /\ (forall cf : CompositeFilter, (CompositeFilter_Match cf entry).2 = entry)
  /\ (forall (jf : JSONFormatter) (w : GoIO.Writer),
        (JSONFormatter_Format jf w entry).2 = entry)
  /\ (forall (tf : TextFormatter) (w : GoIO.Writer),
        (TextFormatter_Format tf w entry).2 = entry)
  /\ (forall w : GoIO.Writer, (LogfmtFormatter_Format w entry).2 = entry)
  /\ (forall (source : string) (m : gmap string Runtime.Value),
        entry = Some m ->
        (tagEntry source entry).2 = Some (<["_source" := VString source]> m)).
Proof.
  repeat split.
  - intros f. apply FieldFilter_Match_readOnly.
  - intros cf. apply Filter_Match_readOnly.
  - intros jf w. apply reads_readOnly, JSONFormatter_Format_reads.
  - intros tf w. apply reads_readOnly, TextFormatter_Format_reads.
  - intros w. apply reads_readOnly, LogfmtFormatter_Format_reads.
  - intros source m ->. unfold tagEntry, bind, storeField.
    apply (reads_readOnly _ (timestampFrom_reads _)).
Qed.

(** C10: for a record without any of the fields [time], [ts] and
    [timestamp], what [TextFormatter.Format] writes starts with the gray
    escape sequence, fifteen spaces and the reset sequence, whether
    [Color] is set or not. *)
Theorem blank_timestamp_is_colored
    (f : TextFormatter) (w : GoIO.Writer) (entry : LogEntry) :
  fields entry !! "time" = None ->
  fields entry !! "ts" = None ->
  fields entry !! "timestamp" = None ->
  GoIO.refuses w = None ->
  exists (w' : GoIO.Writer) (rest : string),
    TextFormatter_Format f w entry = (Done (w', None), entry)
    /\ GoIO.written w'
       = GoIO.written w
         +:+ (String GoStrings.escape "[90m" +:+ GoStrings.spaces 15
              +:+ String GoStrings.escape "[0m")
         +:+ rest.
Proof.
  intros Htime Hts Htimestamp Hw.
  unfold TextFormatter_Format.
  assert (Hstamp : extractString ["time"; "ts"; "timestamp"] entry
                   = (Done EmptyString, entry)).
  { cbn [extractString]. unfold bind, lookupField.
    rewrite Htime, Hts, Htimestamp. reflexivity. }
  unfold bind at 1. rewrite Hstamp.
  unfold bind at 1.
  destruct (extractString_reads ["level"; "lvl"; "severity"] entry) as [level ->].
  unfold bind at 1.
  destruct (extractString_reads ["message"; "msg"; "text"] entry) as [message ->].
  cbv zeta. unfold bind at 1.
  assert (Hextras : exists extras,
             (if 0 <? length (Fields f) then requestedExtras (Fields f)
              else all <- rangeKeys ;;
                   renderPairs
                     (sortStable GoStrings.lt
                        (List.filter (fun k => negb (canonical k)) all))) entry
             = (Done extras, entry)).
  { destruct (0 <? length (Fields f)); [apply requestedExtras_reads|].
    apply reads_bind; [apply reads_rangeKeys|]. intros all. apply renderPairs_reads. }
  destruct Hextras as [extras ->].
  unfold ret, GoIO.Write. rewrite Hw.
  eexists. eexists. split; [reflexivity|].
  cbn [GoIO.written]. unfold formatTimestamp. cbn [String.eqb].
  unfold colorGray, colorReset.
  rewrite !append_assoc. reflexivity.
Qed.

End FrameFacts.

Lemma blank_timestamp_witness :
  let entry : LogEntry := Some {["level" := VString "error"; "msg" := VString "x"]} in
  exists (w' : GoIO.Writer) (rest : string),
    formatter.TextFormatter_Format
      (H := RefRuntime.refFloat) (H0 := RefRuntime.refTimeParse)
      (H2 := RefRuntime.refUnicode)
      (formatter.mkTextFormatter false []) (GoIO.mkWriter "" None) entry
    = (Done (w', None), entry)
    /\ GoIO.written w'
       = "" +:+ (String GoStrings.escape "[90m" +:+ GoStrings.spaces 15
                 +:+ String GoStrings.escape "[0m")
         +:+ rest.
Proof.
  apply (blank_timestamp_is_colored
           (H := RefRuntime.refFloat) (H0 := RefRuntime.refTimeParse)
           (H3 := RefRuntime.refUnicode)
           (formatter.mkTextFormatter false []) (GoIO.mkWriter "" None)
           (Some {["level" := VString "error"; "msg" := VString "x"]}));
    vm_compute; reflexivity.
Defined.

(** The line written for that record with colors disabled: the level is
    plain, the timestamp placeholder is not. *)
Example text_line_without_timestamp :
  (formatter.TextFormatter_Format
     (H := RefRuntime.refFloat) (H0 := RefRuntime.refTimeParse)
     (H2 := RefRuntime.refUnicode)
     (formatter.mkTextFormatter false []) (GoIO.mkWriter "" None)
     (Some {["level" := VString "error"; "msg" := VString "x"]})).1
  = Done (GoIO.mkWriter
            (String GoStrings.escape "[90m" +:+ GoStrings.spaces 15
             +:+ String GoStrings.escape "[0m" +:+ " [ERROR] x"
             +:+ String GoStrings.newline "")
            None,
          None).
Proof. vm_compute. reflexivity. Qed.

(** ** The JSON parser *)

Section JSONFacts.

Import parser.

Context `{GoJSONDecoder}.

(** A line that [json.Unmarshal] rejects yields one error with the line's
    number and no entry, and the lines after it are parsed as usual. *)
Lemma rejected_line_is_one_error
    (lineNum : Z) (text : string) (tokens : list string) (cause : error) :
  GoStrings.TrimSpace text <> EmptyString ->
  json_Unmarshal (GoStrings.TrimSpace text) = Err cause ->
  JSONParser_lines lineNum (text :: tokens)
  = emitError (lineError (GoInt.incr lineNum) cause)
      (JSONParser_lines (GoInt.incr lineNum) tokens).
Proof.
  intros Hne Herr. cbn [JSONParser_lines]. cbv zeta.
  destruct (String.eqb_spec (GoStrings.TrimSpace text) ""); [congruence|].
  rewrite Herr. reflexivity.
Qed.

(** A line that [json.Unmarshal] accepts is sent on as an entry, whatever
    it decoded to. *)
Lemma accepted_line_is_one_entry
    (lineNum : Z) (text : string) (tokens : list string) (entry : LogEntry) :
  GoStrings.TrimSpace text <> EmptyString ->
  json_Unmarshal (GoStrings.TrimSpace text) = Ok entry ->
  JSONParser_lines lineNum (text :: tokens)
  = emitEntry entry (JSONParser_lines (GoInt.incr lineNum) tokens).
Proof.
  intros Hne Hok. cbn [JSONParser_lines]. cbv zeta.
  destruct (String.eqb_spec (GoStrings.TrimSpace text) ""); [congruence|].
  rewrite Hok. reflexivity.
Qed.

(** C3 fails on the code for the line [null]: [json.Unmarshal] sets a map
    to nil for the JSON value [null] and reports no error, so the parser
    sends a nil entry on and reports nothing. *)
Theorem null_line_is_sent_as_nil_entry :
  json_Unmarshal "null" = Ok None ->
  JSONParser_Parse (GoIO.NewReader "null") = ([None], []).
Proof.
  intros Hnull. unfold JSONParser_Parse.
  change (GoIO.Scanner_tokens (1024 * 1024)%N (GoIO.NewReader "null"))
    with (["null"], @None error).
  cbn [JSONParser_lines]. cbv zeta.
  change (GoStrings.TrimSpace "null") with "null".
  cbn [String.eqb Ascii.eqb Bool.eqb]. rewrite Hnull. reflexivity.
Qed.

End JSONFacts.

Lemma null_line_witness :
  parser.JSONParser_Parse (H := RefRuntime.refJSONDecoder) (GoIO.NewReader "null")
  = ([None], []).
Proof.
  apply (null_line_is_sent_as_nil_entry (H := RefRuntime.refJSONDecoder)).
  vm_compute. reflexivity.
Defined.

(** In merge mode the nil entry stops the program: [loadEntries] assigns
    the field [_source] to it. *)
Example nil_entry_panics_in_loadEntries :
  main.loadParsed (H := RefRuntime.refFloat) (H0 := RefRuntime.refTimeParse)
    "app.log" [None]
  = Panic "assignment to entry in nil map".
Proof. reflexivity. Qed.

(** * Further properties

    Properties of the code beyond the claims of the specification, marked
    X1 to X27: what the parsers do with every line, what a compiled filter
    can and cannot do, what the formatters write and what the parser reads
    back of it, and how the loops of [main] end. *)

(** ** Plain text and [TrimSpace] *)

Section PlainText.

Import GoStrings.

Lemma rev_app_app (s t u : string) :
  String.rev_app (s +:+ t) u = String.rev_app t (String.rev_app s u).
Proof.
  revert u. induction s as [|c s IH]; intros u; [reflexivity|].
  rewrite append_cons. cbn [String.rev_app]. apply IH.
Qed.

Lemma rev_app_rev_app (s t u : string) :
  String.rev_app (String.rev_app s t) u = String.rev_app t (s +:+ u).
Proof.
  revert t u. induction s as [|c s IH]; intros t u; [reflexivity|].
  cbn [String.rev_app]. rewrite IH. rewrite append_cons. reflexivity.
Qed.

Lemma rev_involutive (s : string) : String.rev (String.rev s) = s.
Proof.
  unfold String.rev. rewrite rev_app_rev_app. cbn [String.rev_app].
  apply append_empty_r.
Qed.

Lemma lastByte_cons (c : ascii) (s : string) :
  lastByte (String c s) = Some (default c (lastByte s)).
Proof.
  revert c. induction s as [|d s IH]; intros c; [reflexivity|].
  change (lastByte (String c (String d s))) with (lastByte (String d s)).
  rewrite IH. cbn [default from_option id]. reflexivity.
Qed.

Lemma lastByte_app (a b : string) :
  lastByte (a +:+ b)
  = match lastByte b with Some c => Some c | None => lastByte a end.
Proof.
  induction a as [|c a IH].
  - change ("" +:+ b) with b. destruct (lastByte b); reflexivity.
  - rewrite append_cons, !lastByte_cons, IH.
    destruct (lastByte b); [reflexivity|].
    destruct (lastByte a); reflexivity.
Qed.

Lemma firstByte_rev_app (s acc : string) :
  firstByte (String.rev_app s acc)
  = match lastByte s with Some c => Some c | None => firstByte acc end.
Proof.
  revert acc. induction s as [|c s IH]; intros acc; [reflexivity|].
  cbn [String.rev_app]. rewrite IH, lastByte_cons.
  destruct (lastByte s); reflexivity.
Qed.

Lemma firstByte_rev (s : string) : firstByte (String.rev s) = lastByte s.
Proof.
  unfold String.rev. rewrite firstByte_rev_app. destruct (lastByte s); reflexivity.
Qed.

Lemma spaceWidth_edge (c : ascii) (s : string) :
  edge c = true -> spaceWidth (String c s) = 0.
Proof.
  unfold edge. intros [Hsp Hlow]%andb_prop.
  apply negb_true_iff in Hsp. apply N.ltb_lt in Hlow.
  cbn [spaceWidth]. rewrite Hsp.
  destruct s as [|c1 s]; [reflexivity|]. cbv zeta.
  assert (H194 : (code c =? 194)%N = false) by (apply N.eqb_neq; lia).
  assert (H225 : (code c =? 225)%N = false) by (apply N.eqb_neq; lia).
  assert (H226 : (code c =? 226)%N = false) by (apply N.eqb_neq; lia).
  assert (H227 : (code c =? 227)%N = false) by (apply N.eqb_neq; lia).
  rewrite H194, H225, H226, H227. cbn [andb orb].
  destruct s; reflexivity.
Qed.

Lemma spaceWidthBack_edge (c : ascii) (r : string) :
  edge c = true -> spaceWidthBack (String c r) = 0.
Proof.
  unfold edge. intros [Hsp Hlow]%andb_prop.
  apply negb_true_iff in Hsp. apply N.ltb_lt in Hlow.
  cbn [spaceWidthBack]. rewrite Hsp.
  assert (H133 : (code c =? 133)%N = false) by (apply N.eqb_neq; lia).
  assert (H160 : (code c =? 160)%N = false) by (apply N.eqb_neq; lia).
  assert (H128 : (code c =? 128)%N = false) by (apply N.eqb_neq; lia).
  assert (H168 : (code c =? 168)%N = false) by (apply N.eqb_neq; lia).
  assert (H169 : (code c =? 169)%N = false) by (apply N.eqb_neq; lia).
  assert (H175 : (code c =? 175)%N = false) by (apply N.eqb_neq; lia).
  assert (H159 : (code c =? 159)%N = false) by (apply N.eqb_neq; lia).
  assert (Hge : (128 <=? code c)%N = false) by (apply N.leb_gt; lia).
  destruct r as [|c1 r]; [reflexivity|].
  cbn [spaceWidth]. cbv zeta.
  rewrite H133, H160, H128, H168, H169, H175, H159, Hge.
  cbn [andb orb]. rewrite !andb_false_r. cbn [orb].
  destruct (asciiSpace c1); cbn [Nat.eqb].
  - destruct r as [|c2 r]; [reflexivity|].
    destruct (asciiSpace c2); [reflexivity|].
    destruct ((code c2 =? 194)%N && ((code c1 =? 133)%N || (code c1 =? 160)%N));
      rewrite ?andb_false_r; reflexivity.
  - destruct r as [|c2 r]; [reflexivity|].
    destruct (asciiSpace c2); [reflexivity|].
    destruct ((code c2 =? 194)%N && ((code c1 =? 133)%N || (code c1 =? 160)%N));
      rewrite ?andb_false_r; reflexivity.
Qed.

(** [TrimSpace] leaves a text without white space at its ends as it is. *)
Lemma TrimSpace_tight (s : string) : tight s = true -> TrimSpace s = s.
Proof.
  unfold tight. intros [Hfirst Hlast]%andb_prop.
  assert (Hleft : TrimLeftSpace s = s).
  { unfold TrimLeftSpace. destruct s as [|c s]; [reflexivity|].
    cbn [len String.length trimWith].
    rewrite (spaceWidth_edge c s Hfirst). reflexivity. }
  unfold TrimSpace. rewrite Hleft. unfold TrimRightSpace.
  rewrite <- firstByte_rev in Hlast.
  assert (Hback : spaceWidthBack (String.rev s) = 0).
  { destruct (String.rev s) as [|c r]; [reflexivity|].
    apply spaceWidthBack_edge. exact Hlast. }
  destruct (len s); cbn [trimWith]; rewrite ?Hback; apply rev_involutive.
Qed.

Lemma plainByte_edge (c : ascii) : plainByte c = true -> edge c = true.
Proof.
  unfold plainByte, edge, asciiSpace.
  intros [[Hlo Hhi]%andb_prop _]%andb_prop.
  apply N.leb_le in Hlo, Hhi.
  apply andb_true_intro. split.
  - apply negb_true_iff. apply orb_false_intro.
    + apply andb_false_intro2. apply N.leb_gt. lia.
    + apply N.eqb_neq. lia.
  - apply N.ltb_lt. lia.
Qed.

Lemma allBytes_weaken (p q : ascii -> bool) (s : string) :
  (forall c, p c = true -> q c = true) -> allBytes p s = true -> allBytes q s = true.
Proof.
  intros Hpq. induction s as [|c s IH]; [reflexivity|]. cbn [allBytes].
  intros [Hc Hs]%andb_prop. rewrite (Hpq c Hc), (IH Hs). reflexivity.
Qed.

Lemma allBytes_lastByte (p : ascii -> bool) (s : string) (c : ascii) :
  allBytes p s = true -> lastByte s = Some c -> p c = true.
Proof.
  induction s as [|d s IH]; [discriminate|].
  cbn [allBytes]. intros [Hd Hs]%andb_prop. rewrite lastByte_cons.
  destruct (lastByte s) as [e|] eqn:He; cbn [default from_option id]; intros [= <-].
  - apply IH; [exact Hs | reflexivity].
  - exact Hd.
Qed.

Lemma IndexByte_absent (a : string) (c : ascii) :
  allBytes (fun d => negb (Ascii.eqb d c)) a = true -> IndexByte a c = None.
Proof.
  induction a as [|d a IH]; [reflexivity|]. cbn [allBytes IndexByte].
  intros [Hd Ha]%andb_prop. apply negb_true_iff in Hd. rewrite Hd, (IH Ha).
  reflexivity.
Qed.

Lemma IndexByte_first (a t : string) (c : ascii) :
  allBytes (fun d => negb (Ascii.eqb d c)) a = true ->
  IndexByte (a +:+ String c t) c = Some (len a).
Proof.
  induction a as [|d a IH].
  - intros _. change ("" +:+ String c t) with (String c t).
    cbn [IndexByte]. rewrite Ascii.eqb_refl. reflexivity.
  - cbn [allBytes]. intros [Hd Ha]%andb_prop. apply negb_true_iff in Hd.
    rewrite append_cons. cbn [IndexByte]. rewrite Hd, (IH Ha). reflexivity.
Qed.

Lemma sliceTo_app (a b : string) : sliceTo (len a) (a +:+ b) = a.
Proof.
  induction a as [|c a IH]; [reflexivity|].
  rewrite append_cons. cbn [len String.length sliceTo]. f_equal. exact IH.
Qed.

Lemma sliceFrom_app (a b : string) : sliceFrom (len a) (a +:+ b) = b.
Proof.
  induction a as [|c a IH]; [reflexivity|].
  rewrite append_cons. cbn [len String.length sliceFrom]. exact IH.
Qed.

Lemma sliceFrom_S_app (a b : string) (c : ascii) :
  sliceFrom (S (len a)) (a +:+ String c b) = b.
Proof.
  induction a as [|d a IH]; [reflexivity|].
  rewrite append_cons. cbn [len String.length sliceFrom]. exact IH.
Qed.

Lemma len_app (a b : string) : len (a +:+ b) = len a + len b.
Proof.
  induction a as [|c a IH]; [reflexivity|].
  rewrite append_cons. unfold len in *. cbn [String.length]. rewrite IH. reflexivity.
Qed.

End PlainText.

(** ** The logfmt parser on the text of plain pairs *)

Section LogfmtPairs.

Import GoStrings parser.

Lemma renderLine_cons (kv : string * string) (rest : list (string * string)) :
  renderLine (kv :: rest)
  = kv.1 +:+ String equals (kv.2 +:+ match rest with
                                     | [] => EmptyString
                                     | _ => String space (renderLine rest)
                                     end).
Proof.
  unfold renderLine. destruct rest as [|kv' rest]; cbn [map Join].
  - rewrite append_empty_r. reflexivity.
  - rewrite !append_assoc. reflexivity.
Qed.

Lemma plainKey_plain (k : string) : plainKey k = true -> allBytes plainByte k = true.
Proof.
  apply allBytes_weaken. intros c [Hc _]%andb_prop. exact Hc.
Qed.

Lemma plainByte_not (c d : ascii) :
  plainByte d = false -> plainByte c = true -> negb (Ascii.eqb c d) = true.
Proof.
  intros Hd Hc. apply negb_true_iff.
  destruct (Ascii.eqb_spec c d) as [->|]; [congruence | reflexivity].
Qed.

Lemma rendered_first (kv : string * string) (tail : string) :
  plainPair kv = true ->
  edgeOrNone (firstByte (kv.1 +:+ String equals tail)) = true.
Proof.
  intros [Hk _]%andb_prop. destruct kv as [[|c k] v]; [reflexivity|].
  cbn [fst allBytes plainKey] in *. rewrite append_cons. cbn [firstByte edgeOrNone].
  apply andb_prop in Hk as [[Hc _]%andb_prop _]. apply plainByte_edge. exact Hc.
Qed.

Lemma rendered_last (kv : string * string) (rest : list (string * string)) :
  plainPair kv = true -> forallb plainPair rest = true ->
  exists c, lastByte (renderLine (kv :: rest)) = Some c /\ edge c = true.
Proof.
  revert kv. induction rest as [|kv' rest IH]; intros kv Hkv Hrest.
  - rewrite renderLine_cons, append_empty_r, lastByte_app, lastByte_cons.
    apply andb_prop in Hkv as [_ Hv].
    destruct (lastByte kv.2) as [c|] eqn:Hc; cbn [default from_option id].
    + exists c. split; [reflexivity|].
      apply plainByte_edge. exact (allBytes_lastByte _ _ _ Hv Hc).
    + exists equals. split; reflexivity.
  - cbn [forallb] in Hrest. apply andb_prop in Hrest as [Hkv' Hrest].
    destruct (IH kv' Hkv' Hrest) as (c & Hc & Hedge).
    exists c. split; [|exact Hedge].
    rewrite renderLine_cons, lastByte_app, lastByte_cons, lastByte_app, lastByte_cons.
    rewrite Hc. reflexivity.
Qed.

Lemma rendered_tight (kv : string * string) (rest : list (string * string)) :
  plainPair kv = true -> forallb plainPair rest = true -> tight (renderLine (kv :: rest)) = true.
Proof.
  intros Hkv Hrest. unfold tight. apply andb_true_intro. split.
  - rewrite renderLine_cons. apply rendered_first. exact Hkv.
  - destruct (rendered_last kv rest Hkv Hrest) as (c & -> & Hedge). exact Hedge.
Qed.

Lemma plain_no_quote_prefix (v tail : string) :
  plainValue v = true ->
  HasPrefix (v +:+ match tail with
                   | EmptyString => EmptyString
                   | _ => String space tail
                   end) (String dquote EmptyString) = false.
Proof.
  intros Hv. unfold HasPrefix.
  destruct v as [|c v].
  - destruct tail; reflexivity.
  - rewrite append_cons. cbn [String.prefix].
    cbn [plainValue allBytes] in Hv. apply andb_prop in Hv as [Hc _].
    destruct (ascii_dec dquote c) as [<-|]; [discriminate Hc | reflexivity].
Qed.

(** One pass of the loop over the text of plain pairs consumes the first
    pair. *)
Lemma step_rendered (entry : gmap string Value) (kv : string * string)
    (rest : list (string * string)) :
  plainPair kv = true -> forallb plainPair rest = true ->
  parseLogfmt_step entry (renderLine (kv :: rest))
  = Continue (<[kv.1 := VString kv.2]> entry) (renderLine rest).
Proof.
  intros Hkv Hrest. unfold parseLogfmt_step. cbv zeta.
  rewrite (TrimSpace_tight _ (rendered_tight kv rest Hkv Hrest)).
  rewrite renderLine_cons.
  pose proof Hkv as [Hk Hv]%andb_prop.
  assert (Hne : String.eqb (kv.1 +:+ String equals
                              (kv.2 +:+ match rest with
                                        | [] => EmptyString
                                        | _ => String space (renderLine rest)
                                        end)) "" = false).
  { destruct kv.1; reflexivity. }
  rewrite Hne.
  rewrite IndexByte_first
    by (eapply allBytes_weaken; [|exact Hk];
        intros c [_ Hc]%andb_prop; exact Hc).
  rewrite sliceTo_app, sliceFrom_S_app.
  assert (Hspace : allBytes (fun d => negb (Ascii.eqb d space)) kv.2 = true).
  { eapply allBytes_weaken; [|exact Hv]. intros c. apply plainByte_not. reflexivity. }
  destruct rest as [|kv' rest].
  - rewrite append_empty_r.
    pose proof (plain_no_quote_prefix kv.2 EmptyString Hv) as Hq.
    rewrite append_empty_r in Hq. rewrite Hq.
    rewrite (IndexByte_absent _ _ Hspace). reflexivity.
  - pose proof (plain_no_quote_prefix kv.2 (renderLine (kv' :: rest)) Hv) as Hq.
    assert (Hnonempty : renderLine (kv' :: rest) <> EmptyString).
    { rewrite renderLine_cons. destruct kv'.1; discriminate. }
    destruct (renderLine (kv' :: rest)) as [|c line] eqn:Hline; [congruence|].
    rewrite Hq.
    rewrite (IndexByte_first _ _ _ Hspace), sliceTo_app, sliceFrom_S_app.
    reflexivity.
Qed.

Lemma loop_rendered (kvs : list (string * string)) :
  forall fuel entry,
    forallb plainPair kvs = true -> len (renderLine kvs) <= fuel ->
    parseLogfmt_loop fuel entry (renderLine kvs)
    = Some (Ok (Some (assignAll kvs entry))).
Proof.
  induction kvs as [|kv rest IH]; intros fuel entry Hplain Hfuel.
  - destruct fuel; reflexivity.
  - cbn [forallb] in Hplain. apply andb_prop in Hplain as [Hkv Hrest].
    pose proof (step_rendered entry kv rest Hkv Hrest) as Hstep.
    pose proof (step_continue_shrinks _ _ _ _ Hstep) as Hshrink.
    destruct fuel as [|fuel]; [lia|].
    cbn [parseLogfmt_loop]. rewrite Hstep.
    destruct (String.eqb_spec (renderLine (kv :: rest)) "") as [Hempty|_].
    { rewrite Hempty in Hshrink. cbn in Hshrink. lia. }
    rewrite IH; [reflexivity | exact Hrest | lia].
Qed.

Lemma assignAll_lookup (kvs : list (string * string)) :
  forall (entry : gmap string Value) (k : string),
    assignAll kvs entry !! k
    = match last (valuesOf k kvs) with
      | Some v => Some (VString v)
      | None => entry !! k
      end.
Proof.
  induction kvs as [|kv rest IH]; intros entry k; [reflexivity|].
  cbn [assignAll foldl]. fold (assignAll rest (<[kv.1 := VString kv.2]> entry)).
  rewrite IH. unfold valuesOf. cbn [List.filter].
  destruct (String.eqb_spec kv.1 k) as [Heq|Hne]; cbn [map].
  - rewrite last_cons.
    destruct (last (map snd (List.filter _ rest))); [reflexivity|].
    rewrite Heq, lookup_insert_eq. reflexivity.
  - destruct (last (map snd (List.filter _ rest))); [reflexivity|].
    rewrite lookup_insert_ne by exact Hne. reflexivity.
Qed.

(** X1: [parseLogfmt] reads the text of plain pairs back: the record holds
    every key with the value of its last occurrence, as a string. *)
Theorem parseLogfmt_reads_plain_pairs (kvs : list (string * string)) :
  forallb plainPair kvs = true ->
  exists m,
    parseLogfmt (renderLine kvs) = Some (Ok (Some m))
    /\ forall k, m !! k = VString <$> last (valuesOf k kvs).
Proof.
  intros Hplain. exists (assignAll kvs ∅). split.
  - unfold parseLogfmt. apply loop_rendered; [exact Hplain | lia].
  - intros k. rewrite assignAll_lookup.
    destruct (last (valuesOf k kvs)); [reflexivity | apply lookup_empty].
Qed.

End LogfmtPairs.

Lemma parseLogfmt_plain_pairs_witness :
  exists m,
    parser.parseLogfmt (renderLine [("a", "1"); ("b", "x=y"); ("a", "3")])
    = Some (Ok (Some m))
    /\ forall k, m !! k
                 = VString <$> last (valuesOf k [("a", "1"); ("b", "x=y"); ("a", "3")]).
Proof.
  apply (parseLogfmt_reads_plain_pairs [("a", "1"); ("b", "x=y"); ("a", "3")]).
  reflexivity.
Defined.

(** ** The loops of the two parsers *)

Section ParserLoops.

Import GoStrings parser.

Context `{GoJSONDecoder}.

Lemma step_fail_message entry remaining err :
  parseLogfmt_step entry remaining = Fail err -> err = "unterminated string value".
Proof.
  unfold parseLogfmt_step. cbv zeta.
  destruct (String.eqb _ ""); [discriminate|].
  destruct (IndexByte _ equals) as [eqIdx|]; [|discriminate].
  destruct (HasPrefix _ _).
  - destruct (_ <=? _); [intros [= <-]; reflexivity | discriminate].
  - destruct (IndexByte _ space); discriminate.
Qed.

Lemma loop_outcomes (fuel : nat) (entry : gmap string Value) (remaining : string) :
  len remaining <= fuel ->
  (exists m, parseLogfmt_loop fuel entry remaining = Some (Ok (Some m)))
  \/ parseLogfmt_loop fuel entry remaining = Some (Err "unterminated string value").
Proof.
  revert entry remaining.
  induction fuel as [|fuel IH]; intros entry remaining Hlen.
  - destruct remaining; simpl in Hlen; [|lia]. left. eexists. reflexivity.
  - cbn [parseLogfmt_loop]. destruct (String.eqb remaining ""); [eauto|].
    destruct (parseLogfmt_step entry remaining) as [e' r'|e'|err] eqn:Hstep.
    + apply IH. apply step_continue_shrinks in Hstep. lia.
    + eauto.
    + right. apply step_fail_message in Hstep. subst err. reflexivity.
Qed.

(** X2: [parseLogfmt] returns on every line, and returns either a record
    that is not nil or the error of an unterminated string; it has no
    other error. *)
Theorem parseLogfmt_entry_or_unterminated (line : string) :
  (exists m, parseLogfmt line = Some (Ok (Some m)))
  \/ parseLogfmt line = Some (Err "unterminated string value").
Proof. unfold parseLogfmt. apply loop_outcomes. lia. Qed.

Lemma emit_lengths (p : Parsed) (entry : LogEntry) (err : error) :
  length (emitEntry entry p).1 + length (emitEntry entry p).2
  = S (length p.1 + length p.2)
  /\ length (emitError err p).1 + length (emitError err p).2
     = S (length p.1 + length p.2).
Proof. unfold emitEntry, emitError. cbn [fst snd length]. lia. Qed.


Lemma JSONParser_lines_errors (tokens : list string) :
  forall (lineNum : Z) (err : error),
    (0 <= lineNum)%Z -> (lineNum + Z.of_nat (length tokens) < 2 ^ 63)%Z ->
    In err (JSONParser_lines lineNum tokens).2
    <-> exists (i : nat) (text : string) (cause : error),
          tokens !! i = Some text
          /\ blank text = false
          /\ json_Unmarshal (TrimSpace text) = Err cause
          /\ err = lineError (lineNum + Z.of_nat (S i)) cause.
Proof.
  induction tokens as [|text tokens IH]; intros lineNum err Hpos Hbound.
  - split; [intros [] | intros (i & text & cause & Hi & _); discriminate Hi].
  - cbn [length] in Hbound.
    assert (Hincr : GoInt.incr lineNum = (lineNum + 1)%Z).
    { unfold GoInt.incr. apply wrap_small. lia. }
    assert (Hrest : In err (JSONParser_lines (GoInt.incr lineNum) tokens).2
                    <-> exists i text' cause,
                          tokens !! i = Some text'
                          /\ blank text' = false
                          /\ json_Unmarshal (TrimSpace text') = Err cause
                          /\ err = lineError (lineNum + Z.of_nat (S (S i))) cause).
    { rewrite IH by lia. rewrite Hincr.
      split; intros (i & text' & cause & Hi & Hb & Hu & ->);
        exists i, text', cause; repeat split; try assumption; f_equal; lia. }
    assert (Hshift : (exists i text' cause,
                         tokens !! i = Some text'
                         /\ blank text' = false
                         /\ json_Unmarshal (TrimSpace text') = Err cause
                         /\ err = lineError (lineNum + Z.of_nat (S (S i))) cause)
                     -> exists i text' cause,
                          (text :: tokens) !! i = Some text'
                          /\ blank text' = false
                          /\ json_Unmarshal (TrimSpace text') = Err cause
                          /\ err = lineError (lineNum + Z.of_nat (S i)) cause).
    { intros (i & text' & cause & Hi & Hb & Hu & ->).
      exists (S i), text', cause. auto. }
    cbn [JSONParser_lines]. cbv zeta.
    destruct (String.eqb (TrimSpace text) "") eqn:Hblank.
    + rewrite Hrest. split; [exact Hshift|].
      intros ([|i] & text' & cause & Hi & Hb & Hu & ->).
      * injection Hi as <-. unfold blank in Hb. congruence.
      * exists i, text', cause. auto.
    + destruct (json_Unmarshal (TrimSpace text)) as [entry|cause0] eqn:Hdecode.
      * cbn [emitEntry snd]. rewrite Hrest. split; [exact Hshift|].
        intros ([|i] & text' & cause & Hi & Hb & Hu & ->).
        -- injection Hi as <-. congruence.
        -- exists i, text', cause. auto.
      * cbn [emitError snd In]. rewrite Hrest. split.
        -- intros [<-|Hin]; [|apply Hshift; exact Hin].
           exists 0, text, cause0. rewrite Hincr. auto.
        -- intros ([|i] & text' & cause & Hi & Hb & Hu & ->).
           ++ injection Hi as <-. left. rewrite Hincr.
              f_equal. congruence.
           ++ right. exists i, text', cause. auto.
Qed.

(** X4: the errors of [JSONParser.Parse] are the lines that
    [json.Unmarshal] rejects, each under its position in the input
    counted from 1, blank lines included, and after them the scanner's
    error when the scan failed. *)
Theorem JSONParser_errors_number_the_lines (r : GoIO.Reader) (err : error) :
  let scanned := GoIO.Scanner_tokens (1024 * 1024)%N r in
  (Z.of_nat (length scanned.1) < 2 ^ 63)%Z ->
  In err (JSONParser_Parse r).2
  <-> (exists (i : nat) (text : string) (cause : error),
         scanned.1 !! i = Some text
         /\ blank text = false
         /\ json_Unmarshal (TrimSpace text) = Err cause
         /\ err = lineError (Z.of_nat (S i)) cause)
      \/ (exists e, scanned.2 = Some e /\ err = "scanner error: " +:+ e).
Proof.
  cbv zeta. intros Hbound. unfold JSONParser_Parse.
  destruct (GoIO.Scanner_tokens (1024 * 1024)%N r) as [tokens scanErr].
  cbn [fst snd] in *.
  pose proof (JSONParser_lines_errors tokens 0 err ltac:(lia) ltac:(lia)) as Hlines.
  destruct (JSONParser_lines 0 tokens) as [entries errors]. cbn [fst snd] in *.
  rewrite in_app_iff, Hlines. cbn [Z.add].
  split; (intros [Hline|Hscan]; [left; exact Hline | right]).
  - destruct scanErr as [e|]; [|destruct Hscan].
    destruct Hscan as [<-|[]]. eauto.
  - destruct Hscan as (e & -> & ->). left. reflexivity.
Qed.

(** X5: [LogfmtParser.Parse] returns on every input; every line that is
    not blank yields exactly one entry or one error; no entry is the nil
    map; and every error is a line's unterminated string: the scanner's
    error is never reported. *)
Theorem LogfmtParser_accounts_for_every_line (r : GoIO.Reader) :
  let tokens := (GoIO.Scanner_tokens GoIO.MaxScanTokenSize r).1 in
  exists entries errors,
    LogfmtParser_Parse r = Some (entries, errors)
    /\ length entries + length errors
       = length (List.filter (fun text => negb (blank text)) tokens)
    /\ List.Forall (fun entry => entry <> None) entries
    /\ List.Forall
         (fun err => exists lineNum,
            err = lineError lineNum "unterminated string value") errors.
Proof.
  cbv zeta. unfold LogfmtParser_Parse.
  generalize (GoIO.Scanner_tokens GoIO.MaxScanTokenSize r).1 as tokens.
  generalize 0%Z as lineNum. intros lineNum tokens. revert lineNum.
  induction tokens as [|text tokens IH]; intros lineNum.
  - exists [], []. repeat split; constructor.
  - cbn [LogfmtParser_lines List.filter]. cbv zeta.
    change (String.eqb (TrimSpace text) "") with (blank text).
    destruct (IH (GoInt.incr lineNum)) as (entries & errors & -> & Hlen & He & Herr).
    destruct (blank text); cbn [negb].
    + exists entries, errors. auto.
    + unfold parseLogfmt.
      destruct (loop_outcomes (len (TrimSpace text)) ∅ (TrimSpace text)
                  (Nat.le_refl _)) as [[m ->]| ->].
      * exists (Some m :: entries), errors. cbn [fmap option_fmap option_map emitEntry fst snd length].
        repeat split; [lia | constructor; [discriminate | exact He] | exact Herr].
      * exists entries, (lineError (GoInt.incr lineNum) "unterminated string value" :: errors).
        cbn [fmap option_fmap option_map emitError fst snd length].
        repeat split; [lia | exact He | constructor; [eauto | exact Herr]].
Qed.

End ParserLoops.

Lemma JSONParser_errors_witness :
  let r := GoIO.NewReader ("{}" +:+ String GoStrings.newline
                             (String GoStrings.newline "oops")) in
  let scanned := GoIO.Scanner_tokens (1024 * 1024)%N r in
  In "line 3: invalid character in JSON input"
     (parser.JSONParser_Parse (H := RefRuntime.refJSONDecoder) r).2
  <-> (exists (i : nat) (text : string) (cause : error),
         scanned.1 !! i = Some text
         /\ blank text = false
         /\ json_Unmarshal (GoJSONDecoder := RefRuntime.refJSONDecoder)
              (GoStrings.TrimSpace text) = Err cause
         /\ "line 3: invalid character in JSON input"
            = parser.lineError (Z.of_nat (S i)) cause)
      \/ (exists e, scanned.2 = Some e
                    /\ "line 3: invalid character in JSON input"
                       = "scanner error: " +:+ e).
Proof.
  apply (JSONParser_errors_number_the_lines (H := RefRuntime.refJSONDecoder)
           (GoIO.NewReader ("{}" +:+ String GoStrings.newline
                              (String GoStrings.newline "oops")))).
  vm_compute. reflexivity.
Defined.

(** ** Compiled filters, operators and composites *)

Section FilterLaws.

Import GoStrings filter.

Context `{GoFloat} `{GoRegexp}.

Lemma Filter_Match_cons (f : Filter) (fs : list Filter) :
  Filter_Match (OfCompositeFilter (f :: fs))
  = (matched <- Filter_Match f ;;
     if negb matched then ret false else Filter_Match (OfCompositeFilter fs)).
Proof. reflexivity. Qed.

Lemma Filter_Match_result (flt : Filter) (entry : LogEntry) :
  Filter_Match flt entry = ((Filter_Match flt entry).1, entry).
Proof.
  pose proof (Filter_Match_readOnly flt entry) as Hro.
  destruct (Filter_Match flt entry) as [r e']. cbn [fst snd] in *. congruence.
Qed.

(** X6: a composite filter is the conjunction of its children, evaluated
    in order and stopping at the first that fails. *)
Theorem CompositeFilter_Match_is_short_circuit_and
    (cf : CompositeFilter) (entry : LogEntry) :
  ((CompositeFilter_Match cf entry).1 = Done true
   <-> List.Forall (fun f => (Filter_Match f entry).1 = Done true) (filters cf))
  /\ ((CompositeFilter_Match cf entry).1 = Done false
      <-> exists passed f rest,
            filters cf = passed ++ f :: rest
            /\ List.Forall (fun g => (Filter_Match g entry).1 = Done true) passed
            /\ (Filter_Match f entry).1 = Done false).
Proof.
  destruct cf as [fs]. unfold CompositeFilter_Match. cbn [filters].
  induction fs as [|f fs [IHt IHf]].
  - split.
    + split; [constructor | reflexivity].
    + split; [discriminate|].
      intros (passed & f & rest & Heq & _). destruct passed; discriminate.
  - rewrite Filter_Match_cons. unfold bind.
    rewrite (Filter_Match_result f entry).
    destruct (Filter_Match f entry).1 as [[|]|msg] eqn:Hf; cbn [negb].
    + split.
      * rewrite IHt. split.
        -- intros Hall. constructor; [exact Hf | exact Hall].
        -- intros Hall. inversion Hall; assumption.
      * rewrite IHf. split.
        -- intros (passed & g & rest & -> & Hpassed & Hg).
           exists (f :: passed), g, rest.
           split; [reflexivity|]. split; [|exact Hg].
           constructor; [exact Hf | exact Hpassed].
        -- intros (passed & g & rest & Heq & Hpassed & Hg).
           destruct passed as [|p passed]; cbn [app] in Heq;
             injection Heq as -> ->; [congruence|].
           inversion Hpassed; subst. eauto 6.
    + cbn [fst ret]. split.
      * split; [discriminate|]. intros Hall. inversion Hall; congruence.
      * split; [|reflexivity]. intros _.
        exists [], f, fs. split; [reflexivity|]. split; [constructor | exact Hf].
    + cbn [fst]. split.
      * split; [discriminate|]. intros Hall. inversion Hall; congruence.
      * split; [discriminate|].
        intros (passed & g & rest & Heq & Hpassed & Hg).
        destruct passed as [|p passed]; cbn [app] in Heq;
          injection Heq as -> ->; [congruence|].
        inversion Hpassed; congruence.
Qed.

(** What [compareWith] returns, operator by operator. *)
Lemma FieldFilter_Match_present (f : FieldFilter) (entry : LogEntry) (v : Runtime.Value) :
  fields entry !! Field f = Some v ->
  FieldFilter_Match f entry = compareWith f (Sprintf_v v) entry.
Proof.
  intros Hv. unfold FieldFilter_Match, bind, lookupField. rewrite Hv. reflexivity.
Qed.

(** X7: [Match] panics in exactly one situation: the operator is [~], no
    regular expression is attached, and the record has the field. *)
Theorem FieldFilter_Match_panics_iff (f : FieldFilter) (entry : LogEntry) :
  (exists msg, (FieldFilter_Match f entry).1 = Panic msg)
  <-> Operator f = "~" /\ re f = None /\ fields entry !! Field f <> None.
Proof.
  unfold FieldFilter_Match, bind, lookupField.
  destruct (fields entry !! Field f) as [v|] eqn:Hv.
  - unfold compareWith.
    destruct (String.eqb_spec (Operator f) "=") as [He|_].
    { rewrite He. split; [intros [msg Hm]; discriminate Hm | intros [Hop _]; discriminate Hop]. }
    destruct (String.eqb_spec (Operator f) "!=") as [He|_].
    { rewrite He. split; [intros [msg Hm]; discriminate Hm | intros [Hop _]; discriminate Hop]. }
    destruct (String.eqb_spec (Operator f) ">") as [He|_].
    { rewrite He. split; [intros [msg Hm]; discriminate Hm | intros [Hop _]; discriminate Hop]. }
    destruct (String.eqb_spec (Operator f) "<") as [He|_].
    { rewrite He. split; [intros [msg Hm]; discriminate Hm | intros [Hop _]; discriminate Hop]. }
    destruct (String.eqb_spec (Operator f) ">=") as [He|_].
    { rewrite He. split; [intros [msg Hm]; discriminate Hm | intros [Hop _]; discriminate Hop]. }
    destruct (String.eqb_spec (Operator f) "<=") as [He|_].
    { rewrite He. split; [intros [msg Hm]; discriminate Hm | intros [Hop _]; discriminate Hop]. }
    destruct (String.eqb_spec (Operator f) "~") as [He|Hne].
    + destruct (re f) as [compiled|].
      * split; [intros [msg Hm]; discriminate Hm | intros (_ & Hre & _); discriminate Hre].
      * split; [intros _; repeat split; [exact He | discriminate] | intros _; eexists; reflexivity].
    + split; [intros [msg Hm]; discriminate Hm | intros [Hop _]; contradiction].
  - split; [intros [msg Hm]; discriminate Hm | intros (_ & _ & Hf); congruence].
Qed.

Lemma Index_sliceTo (s sub : string) (i : nat) :
  Index s sub = Some i -> len (sliceTo i s) = i.
Proof.
  revert i. induction s as [|c s IH]; intros i; cbn [Index].
  - destruct (String.prefix sub ""); [|discriminate]. intros [= <-]. reflexivity.
  - destruct (String.prefix sub (String c s)); [intros [= <-]; reflexivity|].
    destruct (Index s sub) as [j|]; [|discriminate].
    intros [= <-]. cbn [sliceTo len String.length]. f_equal. apply IH. reflexivity.
Qed.

(** What [NewFieldFilter] returns when it returns a filter. *)
Lemma tryOperators_shape (expression : string) (ops : list string) (f : FieldFilter) :
  tryOperators expression ops = Ok f ->
  In (Operator f) ops
  /\ expression = Field f +:+ Operator f +:+ Value f
  /\ (forall j, j < len (Field f) ->
        String.prefix (Operator f) (sliceFrom j expression) = false)
  /\ (Operator f = "~" ->
      exists compiled, re f = Some compiled /\ regexp_Compile (Value f) = Ok compiled)
  /\ (Operator f <> "~" -> re f = None).
Proof.
  induction ops as [|op ops IH]; cbn [tryOperators]; [discriminate|].
  destruct (Index expression op) as [idx|] eqn:Hidx.
  - pose proof (Index_sliceTo _ _ _ Hidx) as Hlen.
    destruct (String.eqb_spec op "~") as [->|Hne].
    + destruct (regexp_Compile (sliceFrom _ expression)) as [compiled|e] eqn:Hc;
        [|discriminate].
      intros [= <-]. cbn [Operator Field Value re].
      split; [left; reflexivity|].
      split; [apply Index_split; exact Hidx|].
      split; [intros j Hj; apply (Index_leftmost _ _ _ _ Hidx); lia|].
      split; [intros _; eauto | congruence].
    + intros [= <-]. cbn [Operator Field Value re].
      split; [left; reflexivity|].
      split; [apply Index_split; exact Hidx|].
      split; [intros j Hj; apply (Index_leftmost _ _ _ _ Hidx); lia|].
      split; [congruence | reflexivity].
  - intros Hf. destruct (IH Hf) as (Hin & Hrest). split; [right; exact Hin | exact Hrest].
Qed.

Lemma compareWith_done (f : FieldFilter) (s : string) (entry : LogEntry) :
  (Operator f = "~" -> re f <> None) ->
  exists b, compareWith f s entry = (Done b, entry).
Proof.
  intros Hre. unfold compareWith.
  repeat match goal with
         | |- context [if String.eqb ?a ?b then _ else _] =>
             destruct (String.eqb_spec a b)
         end;
    try (eexists; reflexivity).
  destruct (re f); [eexists; reflexivity | exfalso; apply Hre; auto].
Qed.

Lemma compiled_has_regexp (expression : string) (f : FieldFilter) :
  NewFieldFilter expression = Ok f -> Operator f = "~" -> re f <> None.
Proof.
  intros Hf Hop. apply tryOperators_shape in Hf as (_ & _ & _ & Htilde & _).
  destruct (Htilde Hop) as (compiled & -> & _). discriminate.
Qed.

(** X8: the parts of a compiled filter spell the expression it was compiled
    from; its operator is one of the seven, no occurrence of it starts
    inside the field name, and a regular expression is attached exactly
    for [~]. *)
Theorem NewFieldFilter_parts_spell_expression
    (expression : string) (f : FieldFilter) :
  NewFieldFilter expression = Ok f ->
  expression = Field f +:+ Operator f +:+ Value f
  /\ In (Operator f) operators
  /\ (forall j, j < len (Field f) ->
        String.prefix (Operator f) (sliceFrom j expression) = false)
  /\ (re f <> None <-> Operator f = "~").
Proof.
  intros Hf. apply tryOperators_shape in Hf as (Hin & Hspell & Hleft & Htilde & Hother).
  repeat split; try assumption.
  - intros Hre. destruct (String.eqb_spec (Operator f) "~") as [|Hne]; [assumption|].
    elim Hre. apply Hother. exact Hne.
  - intros Hop. destruct (Htilde Hop) as (compiled & -> & _). discriminate.
Qed.

(** X9: [Match] of a filter that [NewFieldFilter] returned never panics: on
    every record it returns a boolean and leaves the record as it was. *)
Theorem compiled_filter_never_panics
    (expression : string) (f : FieldFilter) (entry : LogEntry) :
  NewFieldFilter expression = Ok f ->
  exists b, FieldFilter_Match f entry = (Done b, entry).
Proof.
  intros Hf. unfold FieldFilter_Match, bind, lookupField.
  destruct (fields entry !! Field f) as [v|]; [|eexists; reflexivity].
  apply compareWith_done. apply (compiled_has_regexp expression f Hf).
Qed.

Lemma leb_negb_ltb (a b : string) : GoStrings.le a b = negb (GoStrings.lt b a).
Proof.
  unfold GoStrings.le, GoStrings.lt, String.leb, String.ltb.
  rewrite (String.compare_antisym b a).
  destruct (String.compare a b); reflexivity.
Qed.

Lemma lt_irrefl (a : string) : GoStrings.lt a a = false.
Proof. unfold GoStrings.lt, String.ltb. rewrite string_compare_refl. reflexivity. Qed.

(** X10: on a record that has the field, exactly one of [<], [=] and [>]
    matches, [=] exactly when the string form of the field's value is the
    filter's value, and [>=], [!=] and [<=] are their negations. *)
Theorem comparison_operators_partition
    (field value : string) (entry : LogEntry) (v : Runtime.Value) :
  fields entry !! field = Some v ->
  let holds op := (FieldFilter_Match (mkFieldFilter None field op value) entry).1 in
  exists below same above : bool,
    holds "<" = Done below /\ holds "=" = Done same /\ holds ">" = Done above
    /\ holds ">=" = Done (negb below)
    /\ holds "!=" = Done (negb same)
    /\ holds "<=" = Done (negb above)
    /\ (same = true <-> Sprintf_v v = value)
    /\ (below, same, above) ∈ [(true, false, false); (false, true, false);
                               (false, false, true)].
Proof.
  intros Hv holds. subst holds. cbv beta.
  unfold FieldFilter_Match, bind, lookupField. cbn [Field]. rewrite Hv.
  unfold compareWith. cbn [Operator Value String.eqb Ascii.eqb Bool.eqb ret fst].
  exists (GoStrings.lt (Sprintf_v v) value), (String.eqb (Sprintf_v v) value),
         (GoStrings.lt value (Sprintf_v v)).
  repeat split; try reflexivity.
  - f_equal. apply leb_negb_ltb.
  - f_equal. apply leb_negb_ltb.
  - apply String.eqb_eq.
  - apply String.eqb_eq.
  - destruct (String.eqb_spec (Sprintf_v v) value) as [->|Hne].
    + rewrite lt_irrefl. set_solver.
    + destruct (lt_total _ _ Hne) as [Hlt|Hlt]; rewrite Hlt, (lt_asym _ _ Hlt);
        set_solver.
Qed.

Lemma Index_single (s : string) (c : ascii) :
  Index s (String c EmptyString) = IndexByte s c.
Proof.
  induction s as [|d s IH]; [reflexivity|].
  cbn [Index IndexByte String.prefix].
  destruct (ascii_dec c d) as [->|Hne].
  - rewrite Ascii.eqb_refl. destruct s; reflexivity.
  - destruct (Ascii.eqb_spec d c) as [->|_]; [contradiction|].
    rewrite IH. reflexivity.
Qed.

Lemma IndexByte_app (a b : string) (c : ascii) :
  IndexByte (a +:+ b) c = None <-> IndexByte a c = None /\ IndexByte b c = None.
Proof.
  induction a as [|d a IH]; [cbn; tauto|].
  rewrite append_cons. cbn [IndexByte].
  destruct (Ascii.eqb d c); [split; [discriminate | intros [? _]; discriminate]|].
  destruct (IndexByte (a +:+ b) c) as [i|], (IndexByte a c) as [j|].
  - split; [discriminate | intros [Hx _]; discriminate Hx].
  - split; [discriminate|]. intros [_ Hb].
    destruct IH as [_ IH]. discriminate IH. split; [reflexivity | exact Hb].
  - split; [|reflexivity]. intros _.
    destruct IH as [IH _]. destruct (IH eq_refl) as [Hx _]. discriminate Hx.
  - split; [intros _; apply IH; reflexivity | reflexivity].
Qed.

(** A text without the byte [c] has no occurrence of a string that holds
    [c]. *)
Lemma Index_without_byte (s sub : string) (c : ascii) :
  IndexByte s c = None -> IndexByte sub c <> None -> Index s sub = None.
Proof.
  intros Hs Hsub. destruct (Index s sub) as [i|] eqn:Hidx; [|reflexivity].
  apply Index_split in Hidx. rewrite Hidx in Hs.
  apply IndexByte_app in Hs as [_ Hs]. apply IndexByte_app in Hs as [Hs _].
  contradiction.
Qed.

Lemma tryOperators_invalid (expression : string) (ops : list string) :
  tryOperators expression ops = Err ("invalid filter expression: " +:+ expression)
  <-> List.Forall (fun op => Index expression op = None) ops.
Proof.
  induction ops as [|op ops IH]; cbn [tryOperators].
  - split; [constructor | reflexivity].
  - destruct (Index expression op) as [idx|] eqn:Hidx.
    + split.
      * destruct (String.eqb op "~"); [|discriminate].
        destruct (regexp_Compile _); discriminate.
      * intros Hall. inversion Hall; congruence.
    + rewrite IH. split.
      * intros Hall. constructor; assumption.
      * intros Hall. inversion Hall; assumption.
Qed.

(** X11: an expression is rejected as invalid exactly when it holds none of
    the bytes [=], [~], [>] and [<]. *)
Theorem NewFieldFilter_invalid_iff (expression : string) :
  NewFieldFilter expression = Err ("invalid filter expression: " +:+ expression)
  <-> (forall c, In c ["="; "~"; ">"; "<"]%char -> IndexByte expression c = None).
Proof.
  unfold NewFieldFilter. rewrite tryOperators_invalid. unfold operators. split.
  - intros Hall c Hc.
    rewrite List.Forall_forall in Hall.
    rewrite <- Index_single.
    destruct Hc as [<-|[<-|[<-|[<-|[]]]]]; apply Hall; cbn; tauto.
  - intros Hnone.
    repeat constructor.
    + apply (Index_without_byte _ _ "="%char); [apply Hnone; cbn; tauto | discriminate].
    + apply (Index_without_byte _ _ "~"%char); [apply Hnone; cbn; tauto | discriminate].
    + apply (Index_without_byte _ _ "="%char); [apply Hnone; cbn; tauto | discriminate].
    + apply (Index_without_byte _ _ "="%char); [apply Hnone; cbn; tauto | discriminate].
    + apply (Index_without_byte _ _ "="%char); [apply Hnone; cbn; tauto | discriminate].
    + apply (Index_without_byte _ _ ">"%char); [apply Hnone; cbn; tauto | discriminate].
    + apply (Index_without_byte _ _ "<"%char); [apply Hnone; cbn; tauto | discriminate].
Qed.

End FilterLaws.

Lemma NewFieldFilter_parts_witness :
  let f := filter.mkFieldFilter (H0 := RefRuntime.refRegexp) None "count" ">=" "10" in
  "count>=10" = filter.Field f +:+ filter.Operator f +:+ filter.Value f
  /\ In (filter.Operator f) filter.operators
  /\ (forall j, j < GoStrings.len (filter.Field f) ->
        String.prefix (filter.Operator f) (GoStrings.sliceFrom j "count>=10") = false)
  /\ (filter.re f <> None <-> filter.Operator f = "~").
Proof.
  apply (NewFieldFilter_parts_spell_expression (H0 := RefRuntime.refRegexp) "count>=10").
  reflexivity.
Defined.

Lemma compiled_filter_witness :
  exists b,
    filter.FieldFilter_Match (H := RefRuntime.refFloat) (H0 := RefRuntime.refRegexp)
      (filter.mkFieldFilter None "level" "=" "error")
      (Some {["level" := VString "error"]})
    = (Done b, Some {["level" := VString "error"]}).
Proof.
  apply (compiled_filter_never_panics
           (H := RefRuntime.refFloat) (H0 := RefRuntime.refRegexp) "level=error").
  reflexivity.
Defined.

Lemma comparison_operators_witness :
  let entry : LogEntry := Some {["level" := VString "info"]} in
  let holds op :=
    (filter.FieldFilter_Match (H := RefRuntime.refFloat) (H0 := RefRuntime.refRegexp)
       (filter.mkFieldFilter None "level" op "error") entry).1 in
  exists below same above : bool,
    holds "<" = Done below /\ holds "=" = Done same /\ holds ">" = Done above
    /\ holds ">=" = Done (negb below)
    /\ holds "!=" = Done (negb same)
    /\ holds "<=" = Done (negb above)
    /\ (same = true <-> "info" = "error")
    /\ (below, same, above) ∈ [(true, false, false); (false, true, false);
                               (false, false, true)].
Proof.
  apply (comparison_operators_partition
           (H := RefRuntime.refFloat) (H0 := RefRuntime.refRegexp)
           "level" "error" (Some {["level" := VString "info"]}) (VString "info")).
  reflexivity.
Defined.

(** ** What the formatters write *)

Section FormatterFacts.

Import GoStrings formatter.

Context `{GoFloat} `{GoTimeParse} `{GoJSONEncoder} `{GoUnicode}.

Lemma logfmtParts_spec (keys : list string) (entry : LogEntry) :
  logfmtParts keys entry = (Done (map (logfmtPart entry) keys), entry).
Proof.
  induction keys as [|k keys IH]; [reflexivity|].
  cbn [logfmtParts map]. unfold bind, lookupField. rewrite IH. reflexivity.
Qed.

Lemma renderPairs_spec (keys : list string) (entry : LogEntry) :
  renderPairs keys entry = (Done (map (textPair entry) keys), entry).
Proof.
  induction keys as [|k keys IH]; [reflexivity|].
  cbn [renderPairs map]. unfold bind, lookupField. rewrite IH. reflexivity.
Qed.

Lemma requestedExtras_spec (fieldList : list string) (entry : LogEntry) :
  requestedExtras fieldList entry
  = (Done (map (textPair entry) (List.filter (present entry) fieldList)), entry).
Proof.
  induction fieldList as [|k rest IH]; [reflexivity|].
  cbn [requestedExtras List.filter]. unfold bind, lookupField. rewrite IH.
  pose proof (eq_refl : present entry k = match fields entry !! k with
                                           | Some _ => true
                                           | None => false
                                           end) as Hpresent.
  pose proof (eq_refl : textPair entry k
                        = k +:+ "=" +:+ Sprintf_v_lookup (fields entry !! k)) as Hpair.
  destruct (fields entry !! k) as [v|]; rewrite Hpresent; cbn [map];
    rewrite ?Hpair; reflexivity.
Qed.

(** The keys of a record in the order the formatters write them: each
    once, in strictly increasing order. *)
Lemma sorted_keys (keep : string -> bool) (entry : LogEntry) :
  let keys := sortStable GoStrings.lt
                (List.filter keep (map fst (map_to_list (fields entry)))) in
  StronglySorted (fun a b => GoStrings.lt a b = true) keys
  /\ forall k, In k keys <-> is_Some (fields entry !! k) /\ keep k = true.
Proof.
  cbv zeta.
  set (listed := List.filter keep (map fst (map_to_list (fields entry)))).
  assert (Hperm : Permutation (sortStable GoStrings.lt listed) listed)
    by apply sortStable_perm.
  split.
  - apply (sorted_strict (fun a b => GoStrings.lt b a = false) _ id).
    + intros a b Hba Hne. destruct (lt_total a b Hne) as [Hlt|Hlt]; [exact Hlt|].
      unfold id in *. congruence.
    + apply sortStable_sorted.
      * apply lt_asym.
      * intros a b c Hba Hcb. apply not_true_iff_false. intros Hca.
        destruct (lt_false _ _ Hba) as [->|Hab]; [congruence|].
        destruct (lt_false _ _ Hcb) as [->|Hbc]; [congruence|].
        pose proof (lt_trans _ _ _ Hab Hbc) as Hac.
        apply lt_asym in Hac. congruence.
    + rewrite map_id, Hperm. unfold listed.
      apply NoDup_ListNoDup, List.NoDup_filter, NoDup_ListNoDup.
      apply NoDup_fst_map_to_list.
  - intros k.
    assert (Hsame : In k (sortStable GoStrings.lt listed) <-> In k listed)
      by (split; apply Permutation_in; [exact Hperm | symmetry; exact Hperm]).
    rewrite Hsame. unfold listed.
    rewrite filter_In, in_map_iff. split.
    + intros [([k' v] & <- & Hin) Hkeep]. split; [|exact Hkeep].
      exists v. apply elem_of_map_to_list, list_elem_of_In. exact Hin.
    + intros [[v Hv] Hkeep]. split; [|exact Hkeep].
      exists (k, v). split; [reflexivity|].
      apply list_elem_of_In, elem_of_map_to_list. exact Hv.
Qed.

Lemma LogfmtFormatter_Format_spec (w : GoIO.Writer) (entry : LogEntry) :
  LogfmtFormatter_Format w entry
  = (Done (GoIO.Write w
             (Join (map (logfmtPart entry)
                      (sortStable GoStrings.lt (map fst (map_to_list (fields entry)))))
                   " "
              +:+ String newline EmptyString)),
     entry).
Proof.
  unfold LogfmtFormatter_Format, bind, rangeKeys.
  rewrite logfmtParts_spec. reflexivity.
Qed.

Lemma filter_all {A : Type} (l : list A) : List.filter (fun _ => true) l = l.
Proof. induction l as [|x l IH]; [reflexivity|]. cbn [List.filter]. rewrite IH. reflexivity. Qed.

(** X12: [LogfmtFormatter.Format] writes the fields of the record, each
    once, in strictly increasing order of key, joined by single spaces and
    ended by a line feed; a value is quoted when it holds a space, a tab or
    a double quote. A record without fields, or the nil record, gives an
    empty line. *)
Theorem LogfmtFormatter_writes_sorted_fields (w : GoIO.Writer) (entry : LogEntry) :
  exists keys,
    StronglySorted (fun a b => GoStrings.lt a b = true) keys
    /\ (forall k, In k keys <-> is_Some (fields entry !! k))
    /\ LogfmtFormatter_Format w entry
       = (Done (GoIO.Write w (Join (map (logfmtPart entry) keys) " "
                              +:+ String newline EmptyString)),
          entry).
Proof.
  exists (sortStable GoStrings.lt (map fst (map_to_list (fields entry)))).
  pose proof (sorted_keys (fun _ => true) entry) as [Hsorted Hin].
  rewrite filter_all in Hsorted, Hin.
  split; [exact Hsorted|]. split; [|apply LogfmtFormatter_Format_spec].
  intros k. rewrite Hin. tauto.
Qed.

Lemma extractString_spec (keys : list string) (entry : LogEntry) :
  extractString keys entry = ((extractString keys entry).1, entry).
Proof. destruct (extractString_reads keys entry) as [s ->]. reflexivity. Qed.

(** X13: the line [TextFormatter.Format] writes: the clock column, the
    level column and the message, then the extra fields. Without a field
    list the extras are the fields of the record whose names are not
    canonical, each once, in strictly increasing order of name; with a
    field list they are the listed fields that the record has, in the
    order of the list, canonical names included. *)
Theorem TextFormatter_line_layout
    (color : bool) (fieldList : list string) (w : GoIO.Writer) (entry : LogEntry) :
  exists timestamp level message keys,
    extractString ["time"; "ts"; "timestamp"] entry = (Done timestamp, entry)
    /\ extractString ["level"; "lvl"; "severity"] entry = (Done level, entry)
    /\ extractString ["message"; "msg"; "text"] entry = (Done message, entry)
    /\ match fieldList with
       | [] =>
           StronglySorted (fun a b => GoStrings.lt a b = true) keys
           /\ forall k, In k keys
                        <-> is_Some (fields entry !! k) /\ canonical k = false
       | _ => keys = List.filter (present entry) fieldList
       end
    /\ TextFormatter_Format (mkTextFormatter color fieldList) w entry
       = (Done (GoIO.Write w
                  (formatTimestamp timestamp +:+ " "
                   +:+ colorizeLevel (mkTextFormatter color fieldList) level +:+ " "
                   +:+ message
                   +:+ extrasText color (map (textPair entry) keys)
                   +:+ String newline EmptyString)),
          entry).
Proof.
  destruct (extractString_reads ["time"; "ts"; "timestamp"] entry) as [timestamp Ht].
  destruct (extractString_reads ["level"; "lvl"; "severity"] entry) as [level Hl].
  destruct (extractString_reads ["message"; "msg"; "text"] entry) as [message Hm].
  exists timestamp, level, message.
  exists (match fieldList with
          | [] => sortStable GoStrings.lt
                    (List.filter (fun k => negb (canonical k))
                       (map fst (map_to_list (fields entry))))
          | _ => List.filter (present entry) fieldList
          end).
  split; [exact Ht|]. split; [exact Hl|]. split; [exact Hm|]. split.
  - destruct fieldList; [|reflexivity].
    pose proof (sorted_keys (fun k => negb (canonical k)) entry) as [Hsorted Hin].
    split; [exact Hsorted|]. intros k. rewrite Hin, negb_true_iff. tauto.
  - unfold TextFormatter_Format.
    unfold bind at 1. rewrite Ht.
    unfold bind at 1. rewrite Hl.
    unfold bind at 1. rewrite Hm.
    cbv zeta. unfold bind at 1. cbn [Fields Color].
    destruct fieldList as [|field more].
    + cbn [length Nat.ltb Nat.leb]. unfold bind, rangeKeys.
      rewrite renderPairs_spec. unfold ret.
      destruct (map (textPair entry) _) as [|p ps]; reflexivity.
    + cbn [length Nat.ltb Nat.leb]. rewrite requestedExtras_spec. unfold ret.
      destruct (map (textPair entry) _) as [|p ps]; reflexivity.
Qed.

Lemma twoDigits_len (z : Z) : (0 <= z < 100)%Z -> len (GoInt.twoDigits z) = 2.
Proof.
  intros Hz. rewrite <- (Z2Nat.id z) by lia.
  assert (Hn : Z.to_nat z < 100) by lia.
  generalize dependent (Z.to_nat z). clear. intros n Hn.
  do 100 (destruct n as [|n]; [vm_compute; reflexivity|]). lia.
Qed.

Lemma len_FormatClock (t : Time) : len (FormatClock t) = 8.
Proof.
  unfold FormatClock. cbv zeta.
  set (day := ((sec t + zoneOffset t) mod 86400)%Z).
  assert (Hday : (0 <= day < 86400)%Z) by (apply Z.mod_pos_bound; lia).
  rewrite !len_app, !twoDigits_len; [reflexivity | | |].
  - pose proof (Z.mod_pos_bound day 60). lia.
  - pose proof (Z.mod_pos_bound day 3600).
    assert (0 <= day mod 3600 / 60 < 60)%Z; [|lia].
    split; [apply Z.div_pos; lia | apply Z.div_lt_upper_bound; lia].
  - assert (0 <= day / 3600 < 24)%Z; [|lia].
    split; [apply Z.div_pos; lia | apply Z.div_lt_upper_bound; lia].
Qed.

Lemma len_sliceTo (n : nat) (s : string) : len (sliceTo n s) <= n.
Proof.
  revert s. induction n as [|n IH]; intros [|c s]; cbn [sliceTo len String.length];
    try lia.
  specialize (IH s). unfold len in IH. lia.
Qed.

Lemma sliceTo_all (n : nat) (s : string) : len s <= n -> sliceTo n s = s.
Proof.
  revert s. induction n as [|n IH]; intros [|c s]; cbn [sliceTo len String.length];
    try reflexivity; try lia.
  intros Hlen. f_equal. apply IH. unfold len. lia.
Qed.

(** X14: the clock column of a value that is not empty has at most 15
    bytes: it is a clock of 8 bytes, hours, minutes and seconds, or the
    first 15 bytes of the value. *)
Theorem formatTimestamp_width (c : ascii) (s : string) :
  let shown := formatTimestamp (String c s) in
  len shown <= 15
  /\ ((exists t, shown = FormatClock t) \/ shown = sliceTo 15 (String c s))
  /\ forall t, len (FormatClock t) = 8.
Proof.
  cbv zeta.
  assert (Hclock : forall t,
             len (FormatClock t) <= 15
             /\ ((exists t', FormatClock t = FormatClock t')
                 \/ FormatClock t = sliceTo 15 (String c s))).
  { intros t. rewrite len_FormatClock. split; [lia | eauto]. }
  assert (Hraw : let raw := if 15 <? len (String c s)
                            then sliceTo 15 (String c s) else String c s in
                 len raw <= 15
                 /\ ((exists t', raw = FormatClock t') \/ raw = sliceTo 15 (String c s))).
  { cbv zeta. destruct (Nat.ltb_spec 15 (len (String c s))) as [Hlong|Hshort].
    - split; [apply len_sliceTo | right; reflexivity].
    - split; [exact Hshort | right; symmetry; apply sliceTo_all; exact Hshort]. }
  apply and_assoc. split; [|apply len_FormatClock].
  unfold formatTimestamp. cbn [String.eqb].
  destruct (fmt_Sscanf_f (String c s)) as [f|];
    [destruct (float64_gt_1e9 f); [apply Hclock|]|];
    (destruct (time_Parse_RFC3339 (String c s)) as [t|e];
     [apply Hclock | apply Hraw]).
Qed.

Lemma TextFormatter_Format_writes (f : TextFormatter) (w : GoIO.Writer) (entry : LogEntry) :
  exists line,
    TextFormatter_Format f w entry
    = (Done (GoIO.Write w (line +:+ String newline EmptyString)), entry).
Proof.
  unfold TextFormatter_Format.
  unfold bind at 1.
  destruct (extractString_reads ["time"; "ts"; "timestamp"] entry) as [timestamp ->].
  unfold bind at 1.
  destruct (extractString_reads ["level"; "lvl"; "severity"] entry) as [level ->].
  unfold bind at 1.
  destruct (extractString_reads ["message"; "msg"; "text"] entry) as [message ->].
  cbv zeta. unfold bind at 1.
  assert (Hextras : exists extras,
             (if 0 <? length (Fields f) then requestedExtras (Fields f)
              else all <- rangeKeys ;;
                   renderPairs
                     (sortStable GoStrings.lt
                        (List.filter (fun k => negb (canonical k)) all))) entry
             = (Done extras, entry)).
  { destruct (0 <? length (Fields f)); [apply requestedExtras_reads|].
    apply reads_bind; [apply reads_rangeKeys|]. intros all. apply renderPairs_reads. }
  destruct Hextras as [extras ->]. unfold ret.
  eexists. rewrite <- !append_assoc. reflexivity.
Qed.

(** Every formatter hands one text that ends with a line feed to the
    writer, unless the JSON formatter fails to marshal the record. *)
Lemma Formatter_Format_writes (f : Formatter) (w : GoIO.Writer) (entry : LogEntry) :
  (exists body,
      Formatter_Format f w entry
      = (Done (GoIO.Write w (body +:+ String newline EmptyString)), entry))
  \/ (exists jf cause,
         f = OfJSONFormatter jf
         /\ Formatter_Format f w entry
            = (Done (w, Some ("failed to marshal JSON: " +:+ cause)), entry)).
Proof.
  destruct f as [jf|tf|]; cbn [Formatter_Format].
  - unfold JSONFormatter_Format, bind, readEntry.
    destruct (if Pretty jf then _ else _) as [data|cause]; [left | right]; eauto.
  - left. apply TextFormatter_Format_writes.
  - left. rewrite LogfmtFormatter_Format_spec. eauto.
Qed.

(** What a call of [Format] leaves: the writer as it was and an error, or
    the writer with one more chunk. *)
Lemma Formatter_Format_outcome
    (f : Formatter) (w : GoIO.Writer) (entry : LogEntry) :
  exists w' err,
    Formatter_Format f w entry = (Done (w', err), entry)
    /\ match err with
       | None =>
           GoIO.refuses w = None
           /\ exists body,
                w' = GoIO.mkWriter
                       (GoIO.written w +:+ body +:+ String newline EmptyString) None
       | Some e =>
           w' = w
           /\ (GoIO.refuses w = Some e
               \/ exists jf cause,
                    f = OfJSONFormatter jf
                    /\ e = "failed to marshal JSON: " +:+ cause)
       end.
Proof.
  destruct (Formatter_Format_writes f w entry) as [[body ->]|(jf & cause & -> & ->)].
  - unfold GoIO.Write. destruct (GoIO.refuses w) as [e|] eqn:Hw.
    + exists w, (Some e). split; [reflexivity|]. split; [reflexivity | left; reflexivity].
    + eexists _, None. split; [reflexivity|]. split; [reflexivity | eauto].
  - eexists w, (Some _). split; [reflexivity|]. split; [reflexivity | right; eauto].
Qed.


End FormatterFacts.

(** ** From the logfmt formatter back through the logfmt parser *)

Section LogfmtRoundTrip.

Import GoStrings parser formatter.

Context `{GoFloat}.

Lemma needsQuotes_plain (v : string) : plainValue v = true -> needsQuotes v = false.
Proof.
  induction v as [|c v IH]; [reflexivity|].
  cbn [plainValue allBytes needsQuotes]. intros [Hc Hv]%andb_prop.
  rewrite (IH Hv).
  destruct (Ascii.eqb_spec c space) as [->|_]; [discriminate Hc|].
  destruct (Ascii.eqb_spec c (byte 9)) as [->|_]; [discriminate Hc|].
  destruct (Ascii.eqb_spec c dquote) as [->|_]; [discriminate Hc|].
  reflexivity.
Qed.

Lemma assignAll_keyed (f : string -> string) (keys : list string) :
  forall (entry : gmap string Value) (k : string),
    assignAll (map (fun k => (k, f k)) keys) entry !! k
    = if existsb (String.eqb k) keys then Some (VString (f k)) else entry !! k.
Proof.
  induction keys as [|a keys IH]; intros entry k; [reflexivity|].
  cbn [map assignAll foldl existsb fst snd].
  fold (assignAll (map (fun k => (k, f k)) keys) (<[a := VString (f a)]> entry)).
  rewrite IH.
  destruct (existsb (String.eqb k) keys); [rewrite orb_true_r; reflexivity|].
  rewrite orb_false_r.
  destruct (String.eqb_spec k a) as [->|Hne].
  - apply lookup_insert_eq.
  - apply lookup_insert_ne. congruence.
Qed.

Lemma allBytes_app (p : ascii -> bool) (a b : string) :
  allBytes p (a +:+ b) = allBytes p a && allBytes p b.
Proof.
  induction a as [|c a IH]; [reflexivity|].
  rewrite append_cons. cbn [allBytes]. rewrite IH. apply andb_assoc.
Qed.

Lemma rendered_no_newline (kvs : list (string * string)) :
  forallb plainPair kvs = true ->
  allBytes (fun c => negb (Ascii.eqb c newline)) (renderLine kvs) = true.
Proof.
  induction kvs as [|kv rest IH]; [reflexivity|].
  cbn [forallb]. intros [[Hk Hv]%andb_prop Hrest]%andb_prop.
  rewrite renderLine_cons, allBytes_app. cbn [allBytes].
  rewrite allBytes_app.
  assert (Hplain : forall s, allBytes plainByte s = true ->
                     allBytes (fun c => negb (Ascii.eqb c newline)) s = true).
  { intros s. apply allBytes_weaken. intros c. apply plainByte_not. reflexivity. }
  rewrite (Hplain _ (plainKey_plain _ Hk)), (Hplain _ Hv). cbn [andb negb].
  destruct rest as [|kv' rest]; [reflexivity|].
  cbn [allBytes]. rewrite (IH Hrest). reflexivity.
Qed.

(** The scanner delivers a line without line feed that ends the input
    with its line feed as one token. *)
Lemma scan_single_line (maxTokenSize : N) (line : string) :
  allBytes (fun c => negb (Ascii.eqb c newline)) line = true ->
  (N.of_nat (len line) < maxTokenSize)%N ->
  GoIO.Scanner_tokens maxTokenSize
    (GoIO.NewReader (line +:+ String newline EmptyString))
  = ([GoIO.dropCR line], None).
Proof.
  intros Hline Hfits. unfold GoIO.Scanner_tokens, GoIO.NewReader.
  cbn [GoIO.pending GoIO.failure GoIO.scanLines].
  rewrite (IndexByte_first _ _ _ Hline).
  apply N.ltb_lt in Hfits. rewrite Hfits.
  rewrite sliceFrom_S_app, sliceTo_app, len_app.
  replace (len line + len (String newline "")) with (S (len line))
    by (cbn [len String.length]; lia).
  cbn [GoIO.scanLines IndexByte len String.length].
  assert (Hzero : (N.of_nat 0 <? maxTokenSize)%N = true).
  { apply N.ltb_lt. apply N.ltb_lt in Hfits. lia. }
  rewrite Hzero. reflexivity.
Qed.

Lemma dropCR_edge (line : string) (c : ascii) :
  lastByte line = Some c -> edge c = true -> GoIO.dropCR line = line.
Proof.
  intros Hlast Hedge. unfold GoIO.dropCR.
  rewrite <- firstByte_rev in Hlast.
  destruct (String.rev line) as [|d r]; [reflexivity|].
  injection Hlast as ->.
  destruct (Ascii.eqb_spec c carriage) as [->|_]; [discriminate Hedge | reflexivity].
Qed.

(** X16: what [LogfmtFormatter.Format] writes for a record of plain string
    values under plain keys, [parseLogfmt] reads back as that record, and
    so does [LogfmtParser.Parse] when the record has a field and the line
    fits the scanner's buffer; the record without fields is written as
    an empty line, which the parser skips. *)
Theorem logfmt_output_parses_back (m : gmap string Value) (w : GoIO.Writer) :
  GoIO.refuses w = None ->
  plainRecord m ->
  exists line,
    LogfmtFormatter_Format w (Some m)
    = (Done (GoIO.mkWriter
               (GoIO.written w +:+ line +:+ String newline EmptyString) None,
             None),
       Some m)
    /\ parseLogfmt line = Some (Ok (Some m))
    /\ (m <> ∅ -> (N.of_nat (len line) < GoIO.MaxScanTokenSize)%N ->
        LogfmtParser_Parse (GoIO.NewReader (line +:+ String newline EmptyString))
        = Some ([Some m], []))
    /\ (m = ∅ ->
        LogfmtParser_Parse (GoIO.NewReader (line +:+ String newline EmptyString))
        = Some ([], [])).
Proof.
  intros Hw Hplain.
  set (keys := sortStable GoStrings.lt (map fst (map_to_list m))).
  set (text := fun k => Sprintf_v_lookup (m !! k)).
  set (pairs := map (fun k => (k, text k)) keys).
  pose proof (sorted_keys (fun _ => true) (Some m)) as [_ Hkeys].
  rewrite filter_all in Hkeys. cbn [fields] in Hkeys. fold keys in Hkeys.
  assert (Hkey : forall k, In k keys ->
                   plainKey k = true /\ plainValue (text k) = true
                   /\ m !! k = Some (VString (text k))).
  { intros k Hin. apply Hkeys in Hin as [[v Hv] _].
    destruct (Hplain k v Hv) as (Hk & s & -> & Hs).
    unfold text. rewrite Hv. auto. }
  assert (Hpairs : forallb plainPair pairs = true).
  { apply forallb_forall. intros kv Hin. unfold pairs in Hin.
    apply in_map_iff in Hin as (k & <- & Hin).
    destruct (Hkey k Hin) as (Hk & Hv & _).
    unfold plainPair. cbn [fst snd]. rewrite Hk, Hv. reflexivity. }
  assert (Hparts : map (logfmtPart (Some m)) keys
                   = map (fun kv : string * string => kv.1 +:+ "=" +:+ kv.2) pairs).
  { unfold pairs. rewrite map_map. apply map_ext_in. intros k Hin.
    destruct (Hkey k Hin) as (_ & Hv & Hlookup).
    unfold logfmtPart. cbn [fields fst snd]. cbv zeta. fold (text k).
    rewrite (needsQuotes_plain _ Hv). reflexivity. }
  assert (Hback : assignAll pairs ∅ = m).
  { apply map_eq. intros k. unfold pairs. rewrite assignAll_keyed.
    destruct (existsb (String.eqb k) keys) eqn:Hex.
    - apply existsb_exists in Hex as (k' & Hin & ->%String.eqb_eq).
      destruct (Hkey k' Hin) as (_ & _ & ->). reflexivity.
    - rewrite lookup_empty. destruct (m !! k) as [v|] eqn:Hv; [|reflexivity].
      assert (Hin : In k keys) by (apply Hkeys; eauto).
      assert (Htrue : existsb (String.eqb k) keys = true).
      { apply existsb_exists. exists k. split; [exact Hin | apply String.eqb_refl]. }
      congruence. }
  assert (Hparse : parseLogfmt (renderLine pairs) = Some (Ok (Some m))).
  { unfold parseLogfmt. rewrite loop_rendered; [rewrite Hback; reflexivity | exact Hpairs | lia]. }
  exists (renderLine pairs).
  split; [|split; [exact Hparse|split]].
  - rewrite LogfmtFormatter_Format_spec. cbn [fields]. fold keys.
    rewrite Hparts. unfold GoIO.Write. rewrite Hw. reflexivity.
  - intros Hne Hfits. unfold LogfmtParser_Parse.
    rewrite (scan_single_line _ _ (rendered_no_newline _ Hpairs) Hfits).
    destruct pairs as [|kv rest] eqn:Hp.
    { exfalso. apply Hne. rewrite <- Hback. reflexivity. }
    cbn [forallb] in Hpairs. apply andb_prop in Hpairs as [Hkv Hrest].
    destruct (rendered_last kv rest Hkv Hrest) as (c & Hlast & Hedge).
    rewrite (dropCR_edge _ c Hlast Hedge).
    cbn [fst LogfmtParser_lines]. cbv zeta.
    rewrite (TrimSpace_tight _ (rendered_tight kv rest Hkv Hrest)).
    destruct (String.eqb_spec (renderLine (kv :: rest)) "") as [Hempty|_].
    { rewrite Hempty in Hlast. discriminate Hlast. }
    rewrite Hparse. reflexivity.
  - intros Hempty.
    assert (Hnil : pairs = []).
    { destruct pairs as [|[k v] rest] eqn:Hp; [reflexivity|]. exfalso.
      assert (Hin : In k keys).
      { assert (Hin' : In (k, v) (map (fun k => (k, text k)) keys))
          by (fold pairs; rewrite Hp; left; reflexivity).
        apply in_map_iff in Hin' as (k' & [= -> _] & Hin'). exact Hin'. }
      apply Hkeys in Hin as [[x Hx] _]. rewrite Hempty, lookup_empty in Hx.
      discriminate Hx. }
    rewrite Hnil. reflexivity.
Qed.

End LogfmtRoundTrip.

Lemma logfmt_round_trip_witness :
  let m : gmap string Value := {["level" := VString "info"; "msg" := VString "ok"]} in
  exists line,
    formatter.LogfmtFormatter_Format (H := RefRuntime.refFloat)
      (GoIO.mkWriter "" None) (Some m)
    = (Done (GoIO.mkWriter ("" +:+ line +:+ String GoStrings.newline EmptyString) None,
             None),
       Some m)
    /\ parser.parseLogfmt line = Some (Ok (Some m))
    /\ (m <> ∅ -> (N.of_nat (GoStrings.len line) < GoIO.MaxScanTokenSize)%N ->
        parser.LogfmtParser_Parse
          (GoIO.NewReader (line +:+ String GoStrings.newline EmptyString))
        = Some ([Some m], []))
    /\ (m = ∅ ->
        parser.LogfmtParser_Parse
          (GoIO.NewReader (line +:+ String GoStrings.newline EmptyString))
        = Some ([], [])).
Proof.
  apply (logfmt_output_parses_back (H := RefRuntime.refFloat)
           {["level" := VString "info"; "msg" := VString "ok"]}
           (GoIO.mkWriter "" None)).
  - reflexivity.
  - intros k v Hkv.
    apply lookup_insert_Some in Hkv as [[<- <-]|[_ Hkv]].
    { split; [reflexivity | exists "info"; split; reflexivity]. }
    apply lookup_singleton_Some in Hkv as [<- <-].
    split; [reflexivity | exists "ok"; split; reflexivity].
Defined.

Section QuotedValues.

Import GoStrings parser formatter.

Context `{GoFloat}.

Lemma len_cons (c : ascii) (s : string) : len (String c s) = S (len s).
Proof. reflexivity. Qed.

(** The scan of an escaped value followed by the closing quote: it stops
    at the closing quote, unless a backslash stands before it. *)
Lemma scanQuoted_escaped (v : string) :
  forall (prev : ascii) (idx : nat) (tail : string),
    scanQuoted prev (escapeQuotes v +:+ String dquote tail) idx
    = if Ascii.eqb (default prev (lastByte v)) backslash
      then scanQuoted dquote tail (S (idx + len (escapeQuotes v)))
      else idx + len (escapeQuotes v).
Proof.
  induction v as [|c v IH]; intros prev idx tail.
  - cbn [escapeQuotes lastByte default from_option id len String.length].
    change ("" +:+ String dquote tail) with (String dquote tail).
    cbn [scanQuoted]. rewrite Ascii.eqb_refl, Nat.add_0_r.
    destruct (Ascii.eqb prev backslash); reflexivity.
  - rewrite lastByte_cons. cbn [escapeQuotes default from_option id].
    destruct (Ascii.eqb_spec c dquote) as [->|Hc].
    + rewrite !append_cons. cbn [scanQuoted].
      change (Ascii.eqb backslash dquote) with false.
      rewrite !Ascii.eqb_refl. cbn [andb negb].
      rewrite IH, !len_cons.
      replace (S (S idx) + len (escapeQuotes v)) with (idx + S (S (len (escapeQuotes v))))
        by lia.
      reflexivity.
    + rewrite append_cons. cbn [scanQuoted].
      destruct (Ascii.eqb_spec c dquote) as [|_]; [contradiction|]. cbn [andb].
      rewrite IH, len_cons.
      replace (S idx + len (escapeQuotes v)) with (idx + S (len (escapeQuotes v)))
        by lia.
      reflexivity.
Qed.

Lemma needsQuotes_nonempty (v : string) : needsQuotes v = true -> v <> EmptyString.
Proof. destruct v; [discriminate | discriminate]. Qed.

(** X17: a value that [LogfmtFormatter] writes between quotes is read
    back in its escaped form. [parseLogfmt] stores the bytes between the
    quotes as they are, so a double quote of the value comes back with
    the backslash the formatter put before it (a value without double
    quote comes back as it was); and when the value ends with a backslash
    the closing quote counts as escaped and the line is rejected as an
    unterminated string. *)
Theorem quoted_value_is_read_back_escaped (k v : string) :
  plainKey k = true ->
  needsQuotes v = true ->
  let entry : LogEntry := Some {[k := VString v]} in
  exists line,
    (LogfmtFormatter_Format (GoIO.mkWriter EmptyString None) entry).1
    = Done (GoIO.mkWriter (line +:+ String newline EmptyString) None, None)
    /\ parseLogfmt line
       = Some (if endsWithBackslash v then Err "unterminated string value"
               else Ok (Some {[k := VString (escapeQuotes v)]})).
Proof.
  intros Hk Hv entry. subst entry.
  set (quoted := String dquote (escapeQuotes v +:+ String dquote EmptyString)).
  exists (k +:+ String equals quoted). split.
  - rewrite LogfmtFormatter_Format_spec. cbn [fields fst].
    rewrite map_to_list_singleton. cbn [map fst sortStable insertSorted Join].
    unfold logfmtPart. cbn [fields]. rewrite lookup_singleton_eq.
    cbn [Sprintf_v_lookup Sprintf_v]. cbv zeta. rewrite Hv. reflexivity.
  - assert (Htight : tight (k +:+ String equals quoted) = true).
    { unfold tight. apply andb_true_intro. split.
      - apply (rendered_first (k, EmptyString)). unfold plainPair. cbn [fst snd].
        rewrite Hk. reflexivity.
      - rewrite lastByte_app, lastByte_cons. unfold quoted.
        rewrite lastByte_cons, lastByte_app. reflexivity. }
    assert (Hne : String.eqb (k +:+ String equals quoted) "" = false)
      by (destruct k; reflexivity).
    assert (Hstep : parseLogfmt_step ∅ (k +:+ String equals quoted)
                    = if endsWithBackslash v then Fail "unterminated string value"
                      else Continue {[k := VString (escapeQuotes v)]} EmptyString).
    { unfold parseLogfmt_step. cbv zeta.
      rewrite (TrimSpace_tight _ Htight), Hne.
      rewrite IndexByte_first
        by (eapply allBytes_weaken; [|exact Hk];
            intros c [_ Hc]%andb_prop; exact Hc).
      rewrite sliceTo_app, sliceFrom_S_app.
      assert (Hq : HasPrefix quoted (String dquote EmptyString) = true).
      { unfold HasPrefix, quoted. cbn [String.prefix].
        destruct (ascii_dec dquote dquote); [|contradiction].
        destruct (escapeQuotes v +:+ String dquote ""); reflexivity. }
      rewrite Hq.
      assert (Hlen : len quoted = S (S (len (escapeQuotes v)))).
      { unfold quoted. rewrite len_cons, len_app, len_cons. cbn [len String.length]. lia. }
      assert (Hclose : closingQuote quoted
                       = if endsWithBackslash v then S (S (len (escapeQuotes v)))
                         else S (len (escapeQuotes v))).
      { unfold closingQuote, quoted. rewrite scanQuoted_escaped. cbn [scanQuoted].
        unfold endsWithBackslash.
        destruct (lastByte v) as [c|] eqn:Hlast.
        - cbn [default from_option id]. destruct (Ascii.eqb c backslash); lia.
        - exfalso. apply (needsQuotes_nonempty v Hv).
          destruct v as [|c v']; [reflexivity|].
          rewrite lastByte_cons in Hlast. discriminate Hlast. }
      assert (Hvalue : slice 1 (S (len (escapeQuotes v))) quoted = escapeQuotes v).
      { unfold slice, quoted. cbn [sliceFrom].
        replace (S (len (escapeQuotes v)) - 1) with (len (escapeQuotes v)) by lia.
        apply sliceTo_app. }
      assert (Hrest : sliceFrom (S (S (len (escapeQuotes v)))) quoted = EmptyString).
      { unfold quoted. cbn [sliceFrom]. apply sliceFrom_S_app. }
      rewrite Hclose, Hlen.
      destruct (endsWithBackslash v).
      - rewrite Nat.leb_refl. reflexivity.
      - replace (S (S (len (escapeQuotes v))) <=? S (len (escapeQuotes v))) with false
          by (symmetry; apply Nat.leb_gt; lia).
        rewrite Hvalue, Hrest. reflexivity. }
    unfold parseLogfmt.
    destruct (len (k +:+ String equals quoted)) as [|fuel] eqn:Hlen.
    { rewrite len_app in Hlen. cbn [len String.length] in Hlen. lia. }
    cbn [parseLogfmt_loop]. rewrite Hne, Hstep.
    destruct (endsWithBackslash v); [reflexivity|].
    destruct fuel; reflexivity.
Qed.

End QuotedValues.

Lemma quoted_value_witness :
  let entry : LogEntry := Some {["msg" := VString ("say " +:+ String GoStrings.dquote "hi")]} in
  exists line,
    (formatter.LogfmtFormatter_Format (H := RefRuntime.refFloat)
       (GoIO.mkWriter EmptyString None) entry).1
    = Done (GoIO.mkWriter (line +:+ String GoStrings.newline EmptyString) None, None)
    /\ parser.parseLogfmt line
       = Some (if endsWithBackslash ("say " +:+ String GoStrings.dquote "hi")
               then Err "unterminated string value"
               else Ok (Some {["msg" := VString (formatter.escapeQuotes
                                                    ("say " +:+ String GoStrings.dquote "hi"))]})).
Proof.
  apply (quoted_value_is_read_back_escaped (H := RefRuntime.refFloat)
           "msg" ("say " +:+ String GoStrings.dquote "hi")); reflexivity.
Defined.

(** ** Timestamps: the column of the text formatter and the key of the merge *)

Section ExtractFacts.

Import formatter main.

Context `{GoFloat} `{GoTimeParse}.

(** X18: [extractString] returns the string form of the first of the keys
    that the record has, and the empty string when it has none of them.
    For the timestamp this is not the field the merge sorts by when that
    first field holds no readable time and a later one does. *)
Theorem extractString_first_present_key
    (entry : LogEntry) (absent later : list string) (key : string) (v : Runtime.Value) :
  List.Forall (fun k => fields entry !! k = None) absent ->
  fields entry !! key = Some v ->
  extractString (absent ++ key :: later) entry = (Done (Sprintf_v v), entry)
  /\ extractString absent entry = (Done EmptyString, entry).
Proof.
  induction 1 as [|k absent Hk _ IH]; intros Hv.
  - split; [|reflexivity].
    cbn [app extractString]. unfold bind, lookupField. rewrite Hv. reflexivity.
  - cbn [app extractString]. unfold bind, lookupField. rewrite Hk. apply IH. exact Hv.
Qed.

End ExtractFacts.

Lemma extractString_witness :
  let entry : LogEntry :=
    Some {["time" := VString "yesterday"; "ts" := VString "1704067200"]} in
  formatter.extractString (H := RefRuntime.refFloat) ([] ++ "time" :: ["ts"; "timestamp"]) entry
  = (Done "yesterday", entry)
  /\ formatter.extractString (H := RefRuntime.refFloat) [] entry = (Done EmptyString, entry).
Proof.
  apply (extractString_first_present_key (H := RefRuntime.refFloat)
           (Some {["time" := VString "yesterday"; "ts" := VString "1704067200"]})
           [] ["ts"; "timestamp"] "time" (VString "yesterday")).
  - constructor.
  - vm_compute. reflexivity.
Defined.

Section LoadMore.

Import main.

Context `{GoFloat} `{GoTimeParse}.

(** X19: [loadEntries] keeps the entries in the order they were parsed,
    sets the field [_source] of each to the source, replacing a value the
    record had under that name and nothing else, and pairs each with the
    time [parseTimestampForSort] gives the tagged record; it panics
    exactly when an entry is the nil map. *)
Theorem loadEntries_tags_in_order (source : string) (entries : list LogEntry) :
  match loadParsed source entries with
  | Done all =>
      List.Forall (fun e => e <> None) entries
      /\ map entry all
         = map (fun e : LogEntry => Some (<["_source" := VString source]> (fields e)))
             entries
      /\ List.Forall (fun me => (parseTimestampForSort (entry me)).1 = Done (t me)) all
  | Panic msg => In None entries /\ msg = "assignment to entry in nil map"
  end.
Proof.
  induction entries as [|e entries IH]; cbn [loadParsed].
  - repeat split; constructor.
  - unfold tagEntry, bind, storeField. destruct e as [m|].
    + destruct (timestampFrom_reads ["time"; "ts"; "timestamp"]
                  (Some (<["_source" := VString source]> m))) as [parsed Hparse].
      fold parseTimestampForSort in Hparse. rewrite Hparse.
      destruct (loadParsed source entries) as [rest|msg].
      * destruct IH as (Hnil & Hmap & Htimes). repeat split.
        -- constructor; [discriminate | exact Hnil].
        -- cbn [map entry fields]. rewrite Hmap. reflexivity.
        -- constructor; [cbn [entry t]; rewrite Hparse; reflexivity | exact Htimes].
      * destruct IH as [Hin Hmsg]. split; [right; exact Hin | exact Hmsg].
    + split; [left; reflexivity | reflexivity].
Qed.

(** X20: [parseTimestampForSort] takes the first of the fields [time], [ts]
    and [timestamp] whose value it can read as a time: a field before it
    that is present but unreadable is passed over. *)
Theorem parseTimestampForSort_first_usable_field
    (entry : LogEntry) (passed later : list string) (key : string)
    (v : Runtime.Value) (parsed : Time) :
  ["time"; "ts"; "timestamp"] = passed ++ key :: later ->
  List.Forall (fun k => match fields entry !! k with
                        | Some v' => valueTimestamp v' = None
                        | None => True
                        end) passed ->
  fields entry !! key = Some v ->
  valueTimestamp v = Some parsed ->
  parseTimestampForSort entry = (Done parsed, entry).
Proof.
  unfold parseTimestampForSort. generalize ["time"; "ts"; "timestamp"].
  intros keys ->. induction 1 as [|k passed Hk _ IH]; intros Hv Hparsed.
  - cbn [app timestampFrom]. unfold bind, lookupField. rewrite Hv, Hparsed. reflexivity.
  - cbn [app timestampFrom]. unfold bind, lookupField.
    destruct (fields entry !! k) as [v'|]; [rewrite Hk|]; apply IH; assumption.
Qed.

(** X21: the clock column of the text formatter shows the time the merge
    sorts by: for a value that is not empty, [formatTimestamp] prints the
    clock of the time [parseTimestampForSort] reads from that value, and
    the first 15 bytes of the value when it reads none. *)
Theorem clock_column_shows_sort_time (v : Runtime.Value) :
  Sprintf_v v <> EmptyString ->
  formatter.formatTimestamp (Sprintf_v v)
  = match valueTimestamp v with
    | Some parsed => FormatClock parsed
    | None => GoStrings.sliceTo 15 (Sprintf_v v)
    end.
Proof.
  intros Hne. unfold formatter.formatTimestamp, valueTimestamp. cbv zeta.
  destruct (String.eqb_spec (Sprintf_v v) "") as [|_]; [contradiction|].
  assert (Hraw : (if 15 <? GoStrings.len (Sprintf_v v)
                  then GoStrings.sliceTo 15 (Sprintf_v v) else Sprintf_v v)
                 = GoStrings.sliceTo 15 (Sprintf_v v)).
  { destruct (Nat.ltb_spec 15 (GoStrings.len (Sprintf_v v))); [reflexivity|].
    symmetry. apply sliceTo_all. assumption. }
  rewrite Hraw.
  destruct (fmt_Sscanf_f (Sprintf_v v)) as [f|];
    [destruct (float64_gt_1e9 f); [reflexivity|]|];
    destruct (time_Parse_RFC3339 (Sprintf_v v)); reflexivity.
Qed.

(** X22: merging input that is already in time order leaves it as it is;
    in particular merging twice is merging once. *)
Theorem mergeOrder_keeps_sorted_input (all : list mergedEntry) :
  StronglySorted (fun a b => Before (t b) (t a) = false) all ->
  mergeOrder all = all /\ mergeOrder (mergeOrder all) = mergeOrder all.
Proof.
  intros Hsorted.
  assert (Hfixed : forall l,
             StronglySorted (fun a b => Before (t b) (t a) = false) l ->
             mergeOrder l = l).
  { intros l Hl. symmetry. apply mergeOrder_unique; [reflexivity | exact Hl | reflexivity]. }
  split; [apply Hfixed; exact Hsorted|].
  apply Hfixed. apply sortStable_sorted; [apply Before_asym | apply Before_notless_trans].
Qed.

End LoadMore.

Lemma parseTimestampForSort_witness :
  let entry : LogEntry :=
    Some {["time" := VString "yesterday"; "ts" := VString "1704067200"]} in
  main.parseTimestampForSort (H := RefRuntime.refFloat) (H0 := RefRuntime.refTimeParse)
    entry
  = (Done (Unix 1704067200), entry).
Proof.
  apply (parseTimestampForSort_first_usable_field
           (H := RefRuntime.refFloat) (H0 := RefRuntime.refTimeParse)
           (Some {["time" := VString "yesterday"; "ts" := VString "1704067200"]})
           ["time"] ["timestamp"] "ts" (VString "1704067200") (Unix 1704067200)).
  - reflexivity.
  - constructor; [vm_compute; reflexivity | constructor].
  - vm_compute. reflexivity.
  - vm_compute. reflexivity.
Defined.

Lemma clock_column_witness :
  formatter.formatTimestamp (H := RefRuntime.refFloat) (H0 := RefRuntime.refTimeParse)
    "2024-01-15T09:30:00Z"
  = match main.valueTimestamp (H := RefRuntime.refFloat) (H0 := RefRuntime.refTimeParse)
            (VString "2024-01-15T09:30:00Z") with
    | Some parsed => FormatClock parsed
    | None => GoStrings.sliceTo 15 "2024-01-15T09:30:00Z"
    end.
Proof.
  apply (clock_column_shows_sort_time
           (H := RefRuntime.refFloat) (H0 := RefRuntime.refTimeParse)
           (VString "2024-01-15T09:30:00Z")).
  discriminate.
Defined.

Lemma mergeOrder_sorted_witness :
  let all :=
    [main.mkMergedEntry (Some {["msg" := VString "started"]}) zeroTime;
     main.mkMergedEntry (Some {["time" := VString "1970-01-01T00:00:00Z"]})
       (mkTime 62135596800 0 0);
     main.mkMergedEntry (Some {["time" := VString "1970-01-01T00:00:00Z";
                                "msg" := VString "again"]})
       (mkTime 62135596800 0 0)] in
  main.mergeOrder all = all /\ main.mergeOrder (main.mergeOrder all) = main.mergeOrder all.
Proof.
  apply mergeOrder_keeps_sorted_input.
  repeat constructor.
Defined.

(** ** Filtering and merging *)

Section MergeMore.

Import main.

Lemma filter_perm {A : Type} (p : A -> bool) (l l' : list A) :
  Permutation l l' -> Permutation (List.filter p l) (List.filter p l').
Proof.
  induction 1 as [|x l l' _ IH|x y l|l l' l'' _ IH1 _ IH2]; cbn [List.filter].
  - constructor.
  - destruct (p x); [constructor|]; exact IH.
  - destruct (p x), (p y); try reflexivity. apply perm_swap.
  - etransitivity; eassumption.
Qed.

(** X23: the merge pipeline sorts all the entries and then drops the ones
    the filter rejects; what it emits is what sorting only the entries
    the filter accepts would give. *)
Theorem filtering_commutes_with_merge
    (match_ : LogEntry -> bool) (all : list mergedEntry) :
  emitted match_ all = mergeOrder (List.filter (fun me => match_ (entry me)) all).
Proof.
  unfold emitted. apply mergeOrder_unique.
  - apply filter_perm. apply sortStable_perm.
  - apply filter_sorted.
    apply sortStable_sorted; [apply Before_asym | apply Before_notless_trans].
  - intros tau. rewrite filter_filter_comm.
    rewrite (sortStable_stable mergedLess (fun me => sameInstant tau (t me)))
      by (intros x y Hx Hy; exact (sameInstant_not_Before tau x y Hx Hy)).
    apply filter_filter_comm.
Qed.

End MergeMore.

(** ** The format sniffer, on every input *)

Section SniffMore.

Import GoStrings GoIO main.

Lemma sniffLoop_decides (fuel : nat) :
  forall (br : Reader) (s : Sniffed),
    sniffLoop fuel br = Some s ->
    exists skipped rest,
      List.Forall (fun line => blank line = true) skipped
      /\ pending br = concatLines skipped +:+ rest
      /\ match err s with
         | None =>
             let first := (ReadString (mkReader rest (failure br))).1.1 in
             reader s = Some (mkReader rest (failure br))
             /\ format s
                = (if blank first then "json"
                   else if HasPrefix (TrimSpace first) "{" then "json" else "logfmt")
             /\ (blank first = true -> rest = EmptyString /\ failure br = None)
         | Some message =>
             rest = EmptyString /\ reader s = None /\ format s = EmptyString
             /\ exists e, failure br = Some e
                          /\ message = "auto-detecting input format: " +:+ e
         end.
Proof.
  induction fuel as [|fuel IH]; intros br s; [discriminate|].
  cbn [sniffLoop].
  pose proof (MultiReader_ReadString br) as Hback.
  destruct (ReadString br) as [[line readErr] br'] eqn:Hread.
  cbn [fst snd] in Hback.
  change (String.eqb (TrimSpace line) "") with (blank line).
  destruct (blank line) eqn:Hblank; cbn [negb].
  - destruct readErr as [| |e].
    + intros Hloop.
      destruct (IH _ _ Hloop) as (skipped & rest & Hskipped & Hp & Hcase).
      assert (Hfail : failure br' = failure br) by (rewrite <- Hback; reflexivity).
      rewrite Hfail in Hcase.
      exists (line :: skipped), rest.
      split; [constructor; assumption|]. split; [|exact Hcase].
      cbn [concatLines fold_right]. fold (concatLines skipped).
      rewrite append_assoc, <- Hp. rewrite <- Hback at 1. reflexivity.
    + intros [= <-]. unfold ReadString in Hread.
      destruct (IndexByte (pending br) newline); [discriminate Hread|].
      destruct (failure br) as [e|] eqn:Hfail; [discriminate Hread|].
      injection Hread as <- <-.
      exists [pending br], EmptyString.
      split; [constructor; [exact Hblank | constructor]|].
      split; [cbn [concatLines fold_right]; rewrite !append_empty_r; reflexivity|].
      cbn [err reader format]. repeat split; reflexivity.
    + intros [= <-]. unfold ReadString in Hread.
      destruct (IndexByte (pending br) newline); [discriminate Hread|].
      destruct (failure br) as [e'|] eqn:Hfail; [|discriminate Hread].
      injection Hread as <- <- <-.
      exists [pending br], EmptyString.
      split; [constructor; [exact Hblank | constructor]|].
      split; [cbn [concatLines fold_right]; rewrite !append_empty_r; reflexivity|].
      cbn [err reader format]. repeat split; eauto.
  - rewrite Hback.
    assert (Hline : (ReadString br).1.1 = line) by (rewrite Hread; reflexivity).
    intros Hs. exists [], (pending br).
    split; [constructor|]. split; [reflexivity|].
    destruct br as [p f]. cbn [pending failure] in *.
    destruct (HasPrefix (TrimSpace line) "{") eqn:Hbrace; injection Hs as <-;
      cbn [reader err format]; cbv zeta; rewrite Hline, Hblank, ?Hbrace;
      repeat split; discriminate.
Qed.

(** X24: [sniffFormat] returns on every input. It passes over the blank
    lines the input starts with and decides on the first line that is not
    blank: [json] when that line, trimmed, starts with an opening brace,
    [logfmt] otherwise, and the reader it returns yields the input from
    that line on. When the input ends before such a line the format is
    [json] and the reader is at its end; when reading fails before such a
    line, the failure is returned with the prefix of [sniffFormat] and
    neither a format nor a reader. *)
Theorem sniffFormat_decides_on_first_nonblank_line (r : Reader) :
  exists s skipped rest,
    sniffFormat r = Some s
    /\ List.Forall (fun line => blank line = true) skipped
    /\ pending r = concatLines skipped +:+ rest
    /\ match err s with
       | None =>
           let first := (ReadString (mkReader rest (failure r))).1.1 in
           reader s = Some (mkReader rest (failure r))
           /\ format s
              = (if blank first then "json"
                 else if HasPrefix (TrimSpace first) "{" then "json" else "logfmt")
           /\ (blank first = true -> rest = EmptyString /\ failure r = None)
       | Some message =>
           rest = EmptyString /\ reader s = None /\ format s = EmptyString
           /\ exists e, failure r = Some e
                        /\ message = "auto-detecting input format: " +:+ e
       end.
Proof.
  destruct (sniffFormat_total r) as [s Hs].
  destruct (sniffLoop_decides _ _ _ Hs) as (skipped & rest & Hskipped & Hp & Hcase).
  exists s, skipped, rest. auto.
Qed.

End SniffMore.

(** ** The statistics table *)

Section StatsMore.

Import main.

Context `{GoFloat}.

Lemma sum_perm (l l' : list Z) :
  Permutation l l' -> fold_right Z.add 0%Z l = fold_right Z.add 0%Z l'.
Proof. induction 1; cbn [fold_right]; lia. Qed.

Lemma sumOf_insert_new (counts : gmap string Z) (k : string) (x : Z) :
  counts !! k = None -> sumOf (<[k := x]> counts) = (x + sumOf counts)%Z.
Proof.
  intros Hk. unfold sumOf.
  rewrite (sum_perm _ _ (Permutation_map snd (map_to_list_insert counts k x Hk))).
  reflexivity.
Qed.

Lemma sumOf_insert (counts : gmap string Z) (k : string) (x : Z) :
  sumOf (<[k := x]> counts) = (x + sumOf counts - default 0 (counts !! k))%Z.
Proof.
  destruct (counts !! k) as [y|] eqn:Hk; cbn [default from_option id].
  - rewrite <- insert_delete_eq.
    rewrite sumOf_insert_new by apply lookup_delete_eq.
    unfold sumOf at 2.
    rewrite <- (sum_perm _ _ (Permutation_map snd (map_to_list_delete counts k y Hk))).
    cbn [map fold_right snd]. fold (sumOf (delete k counts)). lia.
  - rewrite sumOf_insert_new by exact Hk. lia.
Qed.

Lemma tally_sum (match_ : LogEntry -> bool) (field : string) (entries : list LogEntry) :
  forall (counts : gmap string Z) (seen : Z),
    (0 <= seen)%Z ->
    (seen + Z.of_nat (length entries) < 2 ^ 63)%Z ->
    (forall k c, counts !! k = Some c -> (0 < c <= seen)%Z) ->
    sumOf (tally match_ field entries counts)
    = (sumOf counts + Z.of_nat (length (List.filter match_ entries)))%Z.
Proof.
  induction entries as [|e entries IH]; intros counts seen Hseen Hbound Hinv.
  - cbn [tally List.filter length]. lia.
  - cbn [tally List.filter]. cbn [length] in Hbound.
    destruct (match_ e).
    + assert (Hincr : GoInt.incr (default 0%Z (counts !! statKey field e))
                      = (default 0 (counts !! statKey field e) + 1)%Z).
      { unfold GoInt.incr. apply wrap_small.
        destruct (counts !! statKey field e) as [c|] eqn:Hc; cbn [default from_option id].
        - specialize (Hinv _ _ Hc). lia.
        - lia. }
      rewrite (IH _ (seen + 1)%Z); [|lia|lia|].
      * rewrite sumOf_insert, Hincr. cbn [length]. lia.
      * intros k c. rewrite Hincr.
        destruct (decide (statKey field e = k)) as [->|Hne].
        -- rewrite lookup_insert_eq. intros [= <-].
           destruct (counts !! k) as [c|] eqn:Hc; cbn [default from_option id].
           ++ specialize (Hinv _ _ Hc). lia.
           ++ lia.
        -- rewrite lookup_insert_ne by exact Hne. intros Hc.
           specialize (Hinv _ _ Hc). lia.
    + apply (IH _ seen); [lia | lia | exact Hinv].
Qed.

(** X25: the counts of the table [collectStats] returns add up to the
    number of entries that pass the filter: every such entry is counted
    once, under one label. *)
Theorem collectStats_counts_add_up
    (entries : list LogEntry) (match_ : LogEntry -> bool) (field : string) :
  (Z.of_nat (length entries) < 2 ^ 63)%Z ->
  totalCount (collectStats entries match_ field)
  = Z.of_nat (length (List.filter match_ entries)).
Proof.
  intros Hbound. unfold totalCount, collectStats.
  rewrite (sum_perm _ _ (Permutation_map Count (sortStable_perm statLess _))).
  rewrite map_map.
  change (fold_right Z.add 0%Z
            (map (fun kv : string * Z => Count (mkStatEntry kv.1 kv.2))
               (map_to_list (tally match_ field entries ∅))))
    with (sumOf (tally match_ field entries ∅)).
  rewrite (tally_sum _ _ _ _ 0%Z); [|lia|lia|].
  - unfold sumOf. rewrite map_to_list_empty. reflexivity.
  - intros k c. rewrite lookup_empty. discriminate.
Qed.

Lemma filter_length_perm {A : Type} (p : A -> bool) (l l' : list A) :
  Permutation l l' -> length (List.filter p l) = length (List.filter p l').
Proof.
  induction 1 as [|x l l' _ IH|x y l|l l' l'' _ IH1 _ IH2]; cbn [List.filter].
  - reflexivity.
  - destruct (p x); cbn [length]; rewrite IH; reflexivity.
  - destruct (p x), (p y); reflexivity.
  - congruence.
Qed.

(** X26: the table of [collectStats] does not depend on the order in which
    the entries arrive. *)
Theorem collectStats_ignores_arrival_order
    (entries entries' : list LogEntry) (match_ : LogEntry -> bool) (field : string) :
  (Z.of_nat (length entries) < 2 ^ 63)%Z ->
  Permutation entries entries' ->
  collectStats entries match_ field = collectStats entries' match_ field.
Proof.
  intros Hbound Hperm. unfold collectStats.
  assert (Hsame : tally match_ field entries ∅ = tally match_ field entries' ∅).
  { apply map_eq. intros label.
    rewrite !(tally_lookup _ _ _ _ 0%Z);
      try lia; try (intros k c; rewrite lookup_empty; discriminate).
    - cbv zeta. unfold occurrences.
      rewrite (filter_length_perm _ _ _ Hperm). reflexivity.
    - rewrite <- (Permutation_length Hperm). lia. }
  rewrite Hsame. reflexivity.
Qed.

End StatsMore.

Lemma collectStats_counts_witness :
  totalCount (main.collectStats (H := RefRuntime.refFloat) exampleLevels
                (fun e => match fields e !! "level" with
                          | Some (VString s) => negb (String.eqb s "warn")
                          | _ => true
                          end)
                "level")
  = Z.of_nat (length (List.filter
                        (fun e => match fields e !! "level" with
                          | Some (VString s) => negb (String.eqb s "warn")
                          | _ => true
                          end)
                        exampleLevels)).
Proof.
  apply (collectStats_counts_add_up (H := RefRuntime.refFloat)).
  vm_compute. reflexivity.
Defined.

Lemma collectStats_order_witness :
  main.collectStats (H := RefRuntime.refFloat) exampleLevels (fun _ => true) "level"
  = main.collectStats (H := RefRuntime.refFloat) (rev exampleLevels) (fun _ => true) "level".
Proof.
  apply (collectStats_ignores_arrival_order (H := RefRuntime.refFloat)).
  - vm_compute. reflexivity.
  - apply Permutation_rev.
Defined.

(** ** The loops of [main] *)

Section PipelineFacts.

Import filter formatter main.

Context `{GoFloat} `{GoTimeParse} `{GoJSONEncoder} `{GoRegexp} `{GoUnicode}.

Lemma buildFilters_compiled (expressions : list string) :
  forall filterList,
    buildFilters expressions = Ok filterList ->
    List.Forall compiled filterList /\ length filterList = length expressions.
Proof.
  induction expressions as [|expression rest IH]; intros filterList; cbn [buildFilters].
  - intros [= <-]. split; [constructor | reflexivity].
  - destruct (NewFieldFilter expression) as [f|e] eqn:Hf; [|discriminate].
    destruct (buildFilters rest) as [l|e]; [|discriminate].
    intros [= <-]. destruct (IH l eq_refl) as [Hall Hlen]. split.
    + constructor; [exists expression, f; auto | exact Hall].
    + cbn [length]. rewrite Hlen. reflexivity.
Qed.

Lemma compiled_composite_done (filterList : list Filter) (entry : LogEntry) :
  List.Forall compiled filterList ->
  exists b, CompositeFilter_Match (NewCompositeFilter filterList) entry = (Done b, entry).
Proof.
  unfold CompositeFilter_Match, NewCompositeFilter. cbn [filters].
  induction 1 as [|flt rest (expression & f & -> & Hf) _ IH].
  - exists true. reflexivity.
  - rewrite Filter_Match_cons. unfold bind. cbn [Filter_Match].
    assert (Hdone : exists b, FieldFilter_Match f entry = (Done b, entry)).
    { unfold FieldFilter_Match, bind, lookupField.
      destruct (fields entry !! Field f) as [v|]; [|eexists; reflexivity].
      apply compareWith_done. apply (compiled_has_regexp expression f Hf). }
    destruct Hdone as [b ->].
    destruct b; cbn [negb]; [exact IH | exists false; reflexivity].
Qed.

Lemma formatEntries_completes (composite : CompositeFilter) (fmt_ : Formatter)
    (entries : list LogEntry) :
  (forall entry, exists b, CompositeFilter_Match composite entry = (Done b, entry)) ->
  forall state,
    exists final reported chunks,
      formatEntries composite fmt_ state entries = Done final
      /\ stderr final = stderr state ++ reported
      /\ length chunks + length reported
         = length (List.filter (passes composite) entries)
      /\ exitCode final = match reported with [] => exitCode state | _ => 1%Z end
      /\ GoIO.written (stdout final)
         = GoIO.written (stdout state) +:+ concatLines chunks
      /\ List.Forall endsLine chunks
      /\ GoIO.refuses (stdout final) = GoIO.refuses (stdout state)
      /\ (GoIO.refuses (stdout state) = None ->
          (forall jf, fmt_ <> OfJSONFormatter jf) -> reported = [])
      /\ (GoIO.refuses (stdout state) <> None -> chunks = []).
Proof.
  intros Hmatch. induction entries as [|entry rest IH]; intros state.
  - exists state, [], []. cbn [formatEntries length List.filter concatLines fold_right].
    rewrite app_nil_r, append_empty_r. repeat split; auto.
  - cbn [formatEntries List.filter]. unfold passes at 1.
    destruct (Hmatch entry) as [[|] ->]; cbn [fst].
    + destruct (Formatter_Format_outcome fmt_ (stdout state) entry)
        as (out & err & -> & Hshape).
      destruct err as [e|].
      * destruct Hshape as [-> Hcause].
        destruct (IH (mkFinished (stdout state)
                        (stderr state
                         ++ ["Error formatting log: " +:+ e
                             +:+ String GoStrings.newline EmptyString]) 1))
          as (final & reported & chunks & -> & Herr & Hcount & Hcode & Hout & Hlines
              & Hrefuses & Hquiet & Hrefused).
        cbn [stdout stderr exitCode] in *.
        exists final, (("Error formatting log: " +:+ e
                        +:+ String GoStrings.newline EmptyString) :: reported), chunks.
        split; [reflexivity|]. split; [rewrite Herr, <- app_assoc; reflexivity|].
        split; [cbn [length]; lia|].
        split; [rewrite Hcode; destruct reported; reflexivity|].
        split; [exact Hout|]. split; [exact Hlines|]. split; [exact Hrefuses|].
        split; [|exact Hrefused].
        intros Hopen Hnojson. exfalso.
        destruct Hcause as [Hw|(jf & cause & -> & _)]; [congruence|].
        apply (Hnojson jf). reflexivity.
      * destruct Hshape as (Hopen & body & ->).
        destruct (IH (mkFinished
                        (GoIO.mkWriter
                           (GoIO.written (stdout state) +:+ body
                            +:+ String GoStrings.newline EmptyString) None)
                        (stderr state) (exitCode state)))
          as (final & reported & chunks & -> & Herr & Hcount & Hcode & Hout & Hlines
              & Hrefuses & Hquiet & Hrefused).
        cbn [stdout stderr exitCode GoIO.written GoIO.refuses] in *.
        exists final, reported,
          ((body +:+ String GoStrings.newline EmptyString) :: chunks).
        split; [reflexivity|]. split; [exact Herr|].
        split; [cbn [length]; lia|]. split; [exact Hcode|].
        split; [rewrite Hout; cbn [concatLines fold_right];
                rewrite !append_assoc; reflexivity|].
        split; [constructor; [exists body; reflexivity | exact Hlines]|].
        split; [congruence|].
        split; [intros _ Hnojson; apply Hquiet; [reflexivity | exact Hnojson]|].
        intros Hclosed. congruence.
    + destruct (IH state)
        as (final & reported & chunks & -> & Herr & Hcount & Hcode & Hout & Hlines
            & Hrefuses & Hquiet & Hrefused).
      exists final, reported, chunks.
      repeat split; assumption.
Qed.


End PipelineFacts.


(** ** Runs of the repository's tests

    Cases of the repository's test files, run on the model with the
    reference instances. *)

Section TestRuns.

Import GoStrings RefRuntime.

Let quoted (s : string) : string :=
  String dquote s +:+ String dquote EmptyString.

Let lines (l : list string) : string :=
  Join l (String newline EmptyString).

(** [TestParseLogfmt_BooleanFlag_NoEquals] and
    [TestParseLogfmt_BooleanFlag_StoresEntireRemaining]. *)
Example parseLogfmt_flags :
  parser.parseLogfmt "verbose" = Some (Ok (Some {["verbose" := VBool true]}))
  /\ parser.parseLogfmt "verbose debug"
     = Some (Ok (Some {["verbose debug" := VBool true]})).
Proof. split; vm_compute; reflexivity. Qed.

(** [TestParseLogfmt_MultipleKeyValues], [TestParseLogfmt_QuotedValue],
    [TestParseLogfmt_QuotedValueWithEscapedQuote] and
    [TestParseLogfmt_EmptyValue]. *)
Example parseLogfmt_pairs :
  parser.parseLogfmt "a=1 b=2 c=3"
  = Some (Ok (Some {["a" := VString "1"; "b" := VString "2"; "c" := VString "3"]}))
  /\ parser.parseLogfmt ("msg=" +:+ quoted "hello world" +:+ " level=info")
     = Some (Ok (Some {["msg" := VString "hello world"; "level" := VString "info"]}))
  /\ parser.parseLogfmt
       ("msg=" +:+ quoted ("say \" +:+ quoted "hello\"))
     = Some (Ok (Some {["msg" := VString ("say \" +:+ quoted "hello\")]}))
  /\ parser.parseLogfmt "key=" = Some (Ok (Some {["key" := VString ""]})).
Proof. repeat split; vm_compute; reflexivity. Qed.

(** [TestJSONParser_MixedValidAndInvalid]: the bad line is the second
    one. *)
Example JSONParser_mixed :
  let '(entries, errors) :=
    parser.JSONParser_Parse
      (GoIO.NewReader
         (lines ["{" +:+ quoted "level" +:+ ":" +:+ quoted "info" +:+ "}";
                 "not json";
                 "{" +:+ quoted "level" +:+ ":" +:+ quoted "warn" +:+ "}"])) in
  entries = [Some {["level" := VString "info"]}; Some {["level" := VString "warn"]}]
  /\ exists cause, errors = [parser.lineError 2 cause].
Proof. vm_compute. split; [reflexivity | eexists; reflexivity]. Qed.

(** [TestFieldFilter_Match_NumericField_StringComparison],
    [TestFieldFilter_Match_NilField_StringComparison] and
    [TestFieldFilter_Match_NotEqual_MissingField]. *)
Example FieldFilter_Match_runs :
  (filter.FieldFilter_Match (filter.mkFieldFilter None "count" "=" "42")
     (Some {["count" := VNumber (decimalToFloat false 42 0)]})).1 = Done true
  /\ (filter.FieldFilter_Match (filter.mkFieldFilter None "key" "=" "<nil>")
        (Some {["key" := VNil]})).1 = Done true
  /\ (filter.FieldFilter_Match (filter.mkFieldFilter None "level" "!=" "error")
        (Some {["msg" := VString "no level"]})).1 = Done false.
Proof. repeat split; vm_compute; reflexivity. Qed.

(** [TestCompositeFilter_NoFilters_MatchesEmptyEntry] and
    [TestCompositeFilter_TwoFilters_SecondMisses]. *)
Example CompositeFilter_Match_runs :
  (filter.CompositeFilter_Match (filter.NewCompositeFilter []) (Some ∅)).1
  = Done true
  /\ (filter.CompositeFilter_Match
        (filter.NewCompositeFilter
           [filter.OfFieldFilter (filter.mkFieldFilter None "level" "=" "error");
            filter.OfFieldFilter (filter.mkFieldFilter None "service" "=" "api")])
        (Some {["level" := VString "error"; "service" := VString "db"]})).1
     = Done false.
Proof. split; vm_compute; reflexivity. Qed.

(** The tests of [formatTimestamp]. *)
Example formatTimestamp_runs :
  formatter.formatTimestamp "2024-01-15T09:30:00Z" = "09:30:00"
  /\ formatter.formatTimestamp "2024-06-01T18:00:00+00:00" = "18:00:00"
  /\ formatter.formatTimestamp "1704067200" = "00:00:00"
  /\ formatter.formatTimestamp "1704067200.5" = "00:00:00"
  /\ formatter.formatTimestamp "123" = "123"
  /\ formatter.formatTimestamp "this-is-a-very-long-non-parseable-timestamp"
     = "this-is-a-very-".
Proof. repeat split; vm_compute; reflexivity. Qed.

(** [LogfmtFormatter]: sorted keys, and quotes around a value with a
    space. *)
Example LogfmtFormatter_run :
  (formatter.LogfmtFormatter_Format (GoIO.mkWriter "" None)
     (Some {["msg" := VString "hello world"; "level" := VString "info"]})).1
  = Done (GoIO.mkWriter
            ("level=info msg=" +:+ quoted "hello world"
             +:+ String newline EmptyString)
            None,
          None).
Proof. vm_compute. reflexivity. Qed.

(** [TestJSONFormatter_EmptyEntry] and the record of
    [TestJSONFormatter_AllFieldsPreserved]. *)
Example JSONFormatter_runs :
  (formatter.JSONFormatter_Format (formatter.mkJSONFormatter false)
     (GoIO.mkWriter "" None) (Some ∅)).1
  = Done (GoIO.mkWriter ("{}" +:+ String newline EmptyString) None, None)
  /\ (formatter.JSONFormatter_Format (formatter.mkJSONFormatter false)
        (GoIO.mkWriter "" None)
        (Some {["a" := VString "1"; "b" := VNumber (decimalToFloat false 2 0);
                "c" := VBool true]})).1
     = Done (GoIO.mkWriter
               ("{" +:+ quoted "a" +:+ ":" +:+ quoted "1" +:+ ","
                +:+ quoted "b" +:+ ":2," +:+ quoted "c" +:+ ":true}"
                +:+ String newline EmptyString)
               None,
             None).
Proof. split; vm_compute; reflexivity. Qed.

(** [TestSniffFormat_ReconstructedReaderContainsAllLines],
    [TestSniffFormat_LeadingBlankLines_JSON] and
    [TestSniffFormat_WhitespaceOnly_DefaultsToJSON]. *)
Example sniffFormat_runs :
  (let input := "level=info msg=first" +:+ String newline
                  ("level=error msg=second" +:+ String newline EmptyString) in
   main.sniffFormat (GoIO.NewReader input)
   = Some (main.mkSniffed "logfmt" (Some (GoIO.NewReader input)) None))
  /\ main.format
       <$> main.sniffFormat
             (GoIO.NewReader
                (String newline
                   (String newline
                      (String newline
                         ("{" +:+ quoted "level" +:+ ":" +:+ quoted "warn" +:+ "}"
                          +:+ String newline EmptyString)))))
     = Some "json"
  /\ main.format
       <$> main.sniffFormat
             (GoIO.NewReader
                ("   " +:+ String newline ("  " +:+ String newline EmptyString)))
     = Some "json".
Proof. repeat split; vm_compute; reflexivity. Qed.

(** [TestParseTimestampForSort_UnixEpoch],
    [TestParseTimestampForSort_AlternativeKey_Ts] and
    [TestParseTimestampForSort_UnparsableValue_ReturnsZero]. *)
Example parseTimestampForSort_runs :
  (main.parseTimestampForSort (Some {["time" := VString "1704067200"]})).1
  = Done (Unix 1704067200)
  /\ (main.parseTimestampForSort (Some {["ts" := VString "2024-06-01T00:00:00Z"]})).1
     = Done (mkTime 63852796800 0 0)
  /\ (main.parseTimestampForSort (Some {["time" := VString "not-a-timestamp"]})).1
     = Done zeroTime.
Proof. repeat split; vm_compute; reflexivity. Qed.

(** [TestCollectStats_TiesBrokenAlphabetically] and
    [TestCollectStats_MissingFieldCountedAsNone]. *)
Example collectStats_runs :
  main.collectStats
    [Some {["svc" := VString "zebra"]}; Some {["svc" := VString "alpha"]};
     Some {["svc" := VString "middle"]}] (fun _ => true) "svc"
  = [main.mkStatEntry "alpha" 1; main.mkStatEntry "middle" 1;
     main.mkStatEntry "zebra" 1]
  /\ main.collectStats
       [Some {["level" := VString "info"]}; Some {["msg" := VString "no level field"]}]
       (fun _ => true) "level"
     = [main.mkStatEntry "(none)" 1; main.mkStatEntry "info" 1].
Proof. split; vm_compute; reflexivity. Qed.

End TestRuns.
